(** * Member synchronisation between the CRM store and the DoorFlow directory

    A shallow embedding of [src/app/api/members/sync/route.ts] (the [POST]
    handler, [tryMatchMember], [getGroupIdsForMember],
    [getMemberPhotoBase64]), of the parts of [lib/members/storage.ts] and
    [lib/teams/storage.ts] it calls, and of the types of [lib/types.ts].

    Conventions of the embedding:
    - a JS [number] is a [Z]; [number | null | undefined] is an [option Z];
      a JS [string] is a [string]; an optional string is an [option string];
    - JS truthiness is written out ([truthy_string], [truthy_number], ...):
      the empty string, [0], [null] and [undefined] are falsy;
    - a JS [Map] with string keys is a [gmap string _]; the [Map] constructor
      inserts its entries from left to right, so a later entry with the same
      key replaces an earlier one;
    - [await]ed effects are sequenced in a state monad [Sync] over [World]:
      the two JSON files, the photo directory, the remote directory behind
      the SDK, the trace of SDK calls, the console and the number of clock
      reads so far;
    - the DoorFlow SDK is an interface ([PeopleApi]); [String.toLowerCase]
      and the clock are parameters of the development. File-system writes
      are taken to succeed. *)

From Stdlib Require Import ZArith Ascii String.
From stdpp Require Import gmap strings list fin_maps.

Local Open Scope Z_scope.

(** ** Types ([lib/types.ts]) *)

Inductive MembershipType := standard | premium.

Record CrmTeam := {
  team_id : string;
  name : string;
  description : option string;
  doorflowGroupId : option Z;
  team_createdAt : string;
  team_updatedAt : string
}.

Record CrmMember := {
  member_id : string;
  firstName : string;
  lastName : string;
  email : string;
  phone : option string;
  department : option string;
  jobTitle : option string;
  notes : option string;
  organisationId : option Z;
  membershipType : MembershipType;
  teamIds : list string;
  doorflowPersonId : option Z;
  createdAt : string;
  updatedAt : string
}.

(** [{ ...m, doorflowPersonId: v }] *)
Definition set_doorflowPersonId (v : option Z) (m : CrmMember) : CrmMember :=
  {| member_id := member_id m; firstName := firstName m; lastName := lastName m;
     email := email m; phone := phone m; department := department m;
     jobTitle := jobTitle m; notes := notes m; organisationId := organisationId m;
     membershipType := membershipType m; teamIds := teamIds m;
     doorflowPersonId := v;
     createdAt := createdAt m; updatedAt := updatedAt m |}.

(** [{ ...m, updatedAt: t }] *)
Definition set_updatedAt (t : string) (m : CrmMember) : CrmMember :=
  {| member_id := member_id m; firstName := firstName m; lastName := lastName m;
     email := email m; phone := phone m; department := department m;
     jobTitle := jobTitle m; notes := notes m; organisationId := organisationId m;
     membershipType := membershipType m; teamIds := teamIds m;
     doorflowPersonId := doorflowPersonId m;
     createdAt := createdAt m; updatedAt := t |}.

(** The entries of [SyncResult.matched] and [SyncResult.created]. *)
Record Linked := { member : CrmMember; personId : Z }.

(** The entries of [SyncResult.errors]. *)
Record Failed := { failed_member : CrmMember; error : string }.

Record SyncResult := {
  matched : list Linked;
  created : list Linked;
  unmatched : list CrmMember;
  errors : list Failed
}.

Definition push_matched (e : Linked) (r : SyncResult) : SyncResult :=
  {| matched := matched r ++ [e]; created := created r;
     unmatched := unmatched r; errors := errors r |}.

Definition push_created (e : Linked) (r : SyncResult) : SyncResult :=
  {| matched := matched r; created := created r ++ [e];
     unmatched := unmatched r; errors := errors r |}.

Definition push_unmatched (m : CrmMember) (r : SyncResult) : SyncResult :=
  {| matched := matched r; created := created r;
     unmatched := unmatched r ++ [m]; errors := errors r |}.

Definition push_errors (e : Failed) (r : SyncResult) : SyncResult :=
  {| matched := matched r; created := created r;
     unmatched := unmatched r; errors := errors r ++ [e] |}.

(** ** The DoorFlow SDK, as far as the engine uses it *)

(** What the engine reads of a DoorFlow person. *)
Record Person := { person_id : Z; person_email : option string }.

(** The SDK's [personInput]: every field is optional; an absent key and an
    [undefined] or [null] value are all [None]. *)
Record PersonInput := {
  in_firstName : option string;
  in_lastName : option string;
  in_email : option string;
  in_telephone : option string;
  in_department : option string;
  in_jobTitle : option string;
  in_notes : option string;
  in_organisationId : option Z;
  in_custom1 : option MembershipType;
  in_enabled : option bool;
  in_systemId : option string;
  in_groupIds : option (list Z);
  in_imageBase64 : option string
}.

(** A value thrown by an SDK call. The SDK's [ResponseError] is an [Error]
    carrying the HTTP response (status, and a body that may fail to read). *)
Inductive Thrown :=
| ThrownResponseError (status : Z) (body : option string) (message : string)
| ThrownError (message : string)
| ThrownOther.

Class PeopleApi (R : Type) := {
  listPeople : R → Thrown + list Person;
  createPerson : PersonInput → R → R * (Thrown + Person);
  updatePerson : Z → PersonInput → R → R * (Thrown + unit)
}.

Inductive ApiCall :=
| CallListPeople
| CallCreatePerson (personInput : PersonInput)
| CallUpdatePerson (id : Z) (personInput : PersonInput).

Inductive LogEntry :=
| LogSyncError (err : Thrown)
| LogResponseStatus (status : Z)
| LogResponseBody (body : string)
| LogUpdateFailed (id : Z) (err : Thrown).

(** What [POST] answers: the result, or one of the three error bodies with
    its status. [RespRejected]: [POST] answers nothing, because
    [NextResponse.json] itself throws on the status it is given. *)
Inductive Response :=
| RespResults (results : SyncResult)
| RespNotAuthenticated
| RespApiError (status : Z)
| RespSyncFailed
| RespRejected.

(** [NextResponse.json(body, { status })] builds a [Response] that has a
    body: the constructor throws a [RangeError] for a status outside
    200..599 and a [TypeError] for a null body status (204, 205 and 304
    within that range). *)
Definition nullBodyStatus : list Z := [101; 103; 204; 205; 304].

Definition validStatus (status : Z) : bool :=
  bool_decide (200 ≤ status ≤ 599) && negb (bool_decide (status ∈ nullBodyStatus)).

(** ** JS truthiness *)

Definition truthy_string (s : string) : bool := negb (bool_decide (s = ""%string)).

Definition truthy_ostring (o : option string) : bool :=
  match o with Some s => truthy_string s | None => false end.

Definition truthy_number (n : Z) : bool := negb (bool_decide (n = 0)).

Definition truthy_onumber (o : option Z) : bool :=
  match o with Some n => truthy_number n | None => false end.

(** [s || null] and [s || undefined] on an optional string *)
Definition or_null (o : option string) : option string :=
  match o with
  | Some s => if truthy_string s then Some s else None
  | None => None
  end.

(** [n || null] on an optional number *)
Definition or_null_number (o : option Z) : option Z :=
  match o with
  | Some n => if truthy_number n then Some n else None
  | None => None
  end.

(** [new Map(entries)]: entries are set from left to right. *)
Definition Map_new {V : Type} (entries : list (string * V)) : gmap string V :=
  foldl (λ m kv, <[kv.1 := kv.2]> m) ∅ entries.

(** [Array.prototype.findIndex]; [-1] is [None]. *)
Fixpoint findIndex {A : Type} (f : A → bool) (l : list A) : option nat :=
  match l with
  | [] => None
  | x :: l' => if f x then Some 0%nat else S <$> findIndex f l'
  end.

(** ** Team to group resolution *)

(** [route.ts], [POST], step 1: the map from team id to DoorFlow group id,
    over the teams whose [doorflowGroupId] is neither [null] nor
    [undefined]. *)
Definition buildTeamToGroupMap (teams : list CrmTeam) : gmap string Z :=
  foldl (λ teamToGroupMap team,
           match doorflowGroupId team with
           | Some groupId => <[team_id team := groupId]> teamToGroupMap
           | None => teamToGroupMap
           end) ∅ teams.

(** [route.ts], [getGroupIdsForMember]. [member.teamIds || []] is
    [member.teamIds]: an array is truthy. *)
Definition getGroupIdsForMember (member : CrmMember)
    (teamToGroupMap : gmap string Z) : list Z :=
  foldl (λ groupIds teamId,
           match teamToGroupMap !! teamId with
           | Some groupId => groupIds ++ [groupId]
           | None => groupIds
           end) [] (teamIds member).

(** [lib/teams/storage.ts], [getTeamsByIds] and
    [getDoorflowGroupIdsForTeams], over the loaded teams. *)
Definition getTeamsByIds (ids : list string) (teams : list CrmTeam) : list CrmTeam :=
  List.filter (λ t, bool_decide (team_id t ∈ ids)) teams.

Definition getDoorflowGroupIdsForTeams (teamIds : list string)
    (teams : list CrmTeam) : list Z :=
  (λ t, default 0 (doorflowGroupId t)) <$>
    List.filter (λ t, bool_decide (doorflowGroupId t ≠ None))
      (getTeamsByIds teamIds teams).

(** ** The engine *)

Section Engine.

(** [String.prototype.toLowerCase] *)
Variable toLowerCase : string → string.

(** [clock n] is the ISO string of the [n]-th [new Date()] of the process. *)
Variable clock : nat → string.

(** The state of the remote directory, behind the SDK. *)
Context {R : Type} `{!PeopleApi R}.

Record World := {
  members_json : list CrmMember;    (* data/members.json *)
  teams_json : list CrmTeam;        (* data/teams.json *)
  photos : gmap string string;      (* public/photos: file name to base64 content *)
  directory : R;
  calls : list ApiCall;
  console : list LogEntry;
  ticks : nat
}.

Definition set_members_json (v : list CrmMember) (w : World) : World :=
  {| members_json := v; teams_json := teams_json w; photos := photos w;
     directory := directory w; calls := calls w; console := console w;
     ticks := ticks w |}.

Definition set_directory (v : R) (w : World) : World :=
  {| members_json := members_json w; teams_json := teams_json w;
     photos := photos w; directory := v; calls := calls w;
     console := console w; ticks := ticks w |}.

Definition log_call (c : ApiCall) (w : World) : World :=
  {| members_json := members_json w; teams_json := teams_json w;
     photos := photos w; directory := directory w; calls := calls w ++ [c];
     console := console w; ticks := ticks w |}.

Definition log_console (e : LogEntry) (w : World) : World :=
  {| members_json := members_json w; teams_json := teams_json w;
     photos := photos w; directory := directory w; calls := calls w;
     console := console w ++ [e]; ticks := ticks w |}.

Definition tick (w : World) : World :=
  {| members_json := members_json w; teams_json := teams_json w;
     photos := photos w; directory := directory w; calls := calls w;
     console := console w; ticks := S (ticks w) |}.

(** *** The monad of awaited effects *)

Definition Sync (A : Type) : Type := World → World * A.

Definition ret {A : Type} (a : A) : Sync A := λ w, (w, a).

Definition bind {A B : Type} (c : Sync A) (k : A → Sync B) : Sync B :=
  λ w, let p := c w in k p.2 p.1.

Notation "'do' x <- c ; k" := (bind c (λ x, k))
  (at level 10, x name, c at level 100, k at level 200).

(** *** [lib/members/storage.ts] and [lib/teams/storage.ts] *)

Definition loadAllMembers : Sync (list CrmMember) := λ w, (w, members_json w).

Definition loadAllTeams : Sync (list CrmTeam) := λ w, (w, teams_json w).

Definition saveAllMembers (members : list CrmMember) : Sync unit :=
  λ w, (set_members_json members w, tt).

(** [new Date().toISOString()] *)
Definition now : Sync string := λ w, (tick w, clock (ticks w)).

(** [updateMember(id, { doorflowPersonId })]: the only update the engine
    sends. *)
Definition updateMember (id : string) (doorflowPersonId : option Z)
    : Sync (option CrmMember) :=
  do members <- loadAllMembers;
  match findIndex (λ m, bool_decide (member_id m = id)) members with
  | None => ret None
  | Some index =>
      match members !! index with
      | None => ret None
      | Some old =>
          do t <- now;
          let updatedMember :=
            set_updatedAt t (set_doorflowPersonId doorflowPersonId old) in
          do _ <- saveAllMembers (<[index := updatedMember]> members);
          ret (Some updatedMember)
      end
  end.

(** *** The SDK calls, traced *)

Definition sdk_listPeople : Sync (Thrown + list Person) :=
  λ w, (log_call CallListPeople w, listPeople (directory w)).

Definition sdk_createPerson (personInput : PersonInput) : Sync (Thrown + Person) :=
  λ w, let p := createPerson personInput (directory w) in
       (set_directory p.1 (log_call (CallCreatePerson personInput) w), p.2).

Definition sdk_updatePerson (id : Z) (personInput : PersonInput)
    : Sync (Thrown + unit) :=
  λ w, let p := updatePerson id personInput (directory w) in
       (set_directory p.1 (log_call (CallUpdatePerson id personInput) w), p.2).

Definition console_error (e : LogEntry) : Sync unit :=
  λ w, (log_console e w, tt).

(** *** [route.ts] *)

Definition photoName (member : CrmMember) : string :=
  toLowerCase (firstName member) +:+ "_"%string +:+ toLowerCase (lastName member)
    +:+ ".png"%string.

(** [getMemberPhotoBase64]: a file that cannot be read is [null]. *)
Definition getMemberPhotoBase64 (member : CrmMember) : Sync (option string) :=
  λ w, (w, photos w !! photoName member).

(** [POST], step 3: people with a falsy email are left out. *)
Definition buildPeopleByEmail (doorflowPeople : list Person) : gmap string Person :=
  Map_new ((λ p, (toLowerCase (default ""%string (person_email p)), p)) <$>
             List.filter (λ p, truthy_ostring (person_email p)) doorflowPeople).

(** [err instanceof Error ? err.message : 'Failed to create person'] *)
Definition error_message (err : Thrown) : string :=
  match err with
  | ThrownResponseError _ _ message => message
  | ThrownError message => message
  | ThrownOther => "Failed to create person"%string
  end.

Definition emptyInput : PersonInput :=
  {| in_firstName := None; in_lastName := None; in_email := None;
     in_telephone := None; in_department := None; in_jobTitle := None;
     in_notes := None; in_organisationId := None; in_custom1 := None;
     in_enabled := None; in_systemId := None; in_groupIds := None;
     in_imageBase64 := None |}.

(** The [personInput] of the update after an email match. *)
Definition updateInput (groupIds : list Z) (photoBase64 : option string)
    : PersonInput :=
  {| in_firstName := None; in_lastName := None; in_email := None;
     in_telephone := None; in_department := None; in_jobTitle := None;
     in_notes := None; in_organisationId := None; in_custom1 := None;
     in_enabled := None; in_systemId := None;
     in_groupIds :=
       if bool_decide (0 < length groupIds)%nat then Some groupIds else None;
     in_imageBase64 := or_null photoBase64 |}.

(** The [personInput] of the creation of a missing person. *)
Definition createInput (member : CrmMember) (groupIds : list Z)
    (photoBase64 : option string) : PersonInput :=
  {| in_firstName := Some (firstName member);
     in_lastName := Some (lastName member);
     in_email := or_null (Some (email member));
     in_telephone := or_null (phone member);
     in_department := or_null (department member);
     in_jobTitle := or_null (jobTitle member);
     in_notes := or_null (notes member);
     in_organisationId := or_null_number (organisationId member);
     in_custom1 := Some (membershipType member);
     in_enabled := Some true;
     in_systemId := Some (member_id member);
     in_groupIds :=
       if bool_decide (0 < length groupIds)%nat then Some groupIds else None;
     in_imageBase64 := or_null photoBase64 |}.

(** The email lookup at the head of [tryMatchMember]. *)
Definition matchByEmail (member : CrmMember)
    (peopleByEmail : gmap string Person) : option Person :=
  if truthy_string (email member)
  then peopleByEmail !! toLowerCase (email member)
  else None.

Definition tryMatchMember (member : CrmMember)
    (peopleByEmail : gmap string Person) (results : SyncResult)
    (createMissing dryRun : bool) (teamToGroupMap : gmap string Z)
    (photoBase64 : option string) : Sync SyncResult :=
  let groupIds := getGroupIdsForMember member teamToGroupMap in
  match matchByEmail member peopleByEmail with
  | Some existingPerson =>
      do _ <- (if negb dryRun then
                 do _ <- updateMember (member_id member)
                           (Some (person_id existingPerson));
                 if bool_decide (0 < length groupIds)%nat
                    || truthy_ostring photoBase64
                 then
                   do r <- sdk_updatePerson (person_id existingPerson)
                             (updateInput groupIds photoBase64);
                   match r with
                   | inr _ => ret tt
                   | inl err =>
                       console_error
                         (LogUpdateFailed (person_id existingPerson) err)
                   end
                 else ret tt
               else ret tt);
      ret (push_matched
             {| member := set_doorflowPersonId
                            (Some (person_id existingPerson)) member;
                personId := person_id existingPerson |} results)
  | None =>
      if createMissing then
        if dryRun then
          ret (push_created {| member := member; personId := 0 |} results)
        else
          do r <- sdk_createPerson (createInput member groupIds photoBase64);
          match r with
          | inr newPerson =>
              do _ <- updateMember (member_id member)
                        (Some (person_id newPerson));
              ret (push_created
                     {| member := set_doorflowPersonId
                                    (Some (person_id newPerson)) member;
                        personId := person_id newPerson |} results)
          | inl err =>
              ret (push_errors
                     {| failed_member := member;
                        error := error_message err |} results)
          end
      else ret (push_unmatched member results)
  end.

(** The body of the loop of [POST], step 4. *)
Definition processMember (doorflowPeople : list Person)
    (peopleByEmail : gmap string Person) (createMissing dryRun : bool)
    (teamToGroupMap : gmap string Z) (member : CrmMember)
    (results : SyncResult) : Sync SyncResult :=
  let unlinked :=
    do photoBase64 <- getMemberPhotoBase64 member;
    tryMatchMember member peopleByEmail results createMissing dryRun
      teamToGroupMap photoBase64 in
  match doorflowPersonId member with
  | Some linkedId =>
      if truthy_number linkedId then
        match List.find (λ p, bool_decide (person_id p = linkedId))
                doorflowPeople with
        | Some _ =>
            ret (push_matched {| member := member; personId := linkedId |}
                   results)
        | None =>
            do _ <- (if negb dryRun
                     then do _ <- updateMember (member_id member) None; ret tt
                     else ret tt);
            unlinked
        end
      else unlinked
  | None => unlinked
  end.

Fixpoint forEachMember (body : CrmMember → SyncResult → Sync SyncResult)
    (members : list CrmMember) (results : SyncResult) : Sync SyncResult :=
  match members with
  | [] => ret results
  | member :: rest =>
      do results' <- body member results;
      forEachMember body rest results'
  end.

Definition emptyResults : SyncResult :=
  {| matched := []; created := []; unmatched := []; errors := [] |}.

(** The [catch] of [POST], for a value thrown by the listing. *)
Definition handleError (err : Thrown) : Sync Response :=
  do _ <- console_error (LogSyncError err);
  match err with
  | ThrownResponseError status body _ =>
      do _ <- console_error (LogResponseStatus status);
      do _ <- (match body with
               | Some b => console_error (LogResponseBody b)
               | None => ret tt
               end);
      if bool_decide (status = 401) then ret RespNotAuthenticated
      else if validStatus status then ret (RespApiError status)
      else ret RespRejected
  | _ => ret RespSyncFailed
  end.

Definition POST (createMissing dryRun : bool) : Sync Response :=
  do members <- loadAllMembers;
  do teams <- loadAllTeams;
  let teamToGroupMap := buildTeamToGroupMap teams in
  do r <- sdk_listPeople;
  match r with
  | inl err => handleError err
  | inr doorflowPeople =>
      let peopleByEmail := buildPeopleByEmail doorflowPeople in
      do results <- forEachMember
                      (processMember doorflowPeople peopleByEmail
                         createMissing dryRun teamToGroupMap)
                      members emptyResults;
      ret (RespResults results)
  end.

End Engine.

Arguments World R : clear implicits.

(** ** The rest of the two stores, and the routes that push groups

    [lib/members/storage.ts] and [lib/teams/storage.ts] beyond what the
    engine calls, and [syncMemberGroupsToDoorFlow] and
    [syncTeamMembersToDoorFlow] of [app/api/teams/[id]/route.ts]. The value
    drawn by [uuidv4()] is an argument of the two [create] functions. The
    lines the two route functions write to the console are returned, in
    order, beside their result. *)

(** [CrmMemberInput]: a member without [id], [createdAt], [updatedAt]. *)
Record CrmMemberInput := {
  new_firstName : string;
  new_lastName : string;
  new_email : string;
  new_phone : option string;
  new_department : option string;
  new_jobTitle : option string;
  new_notes : option string;
  new_organisationId : option Z;
  new_membershipType : MembershipType;
  new_teamIds : list string;
  new_doorflowPersonId : option Z
}.

(** [CrmTeamInput]: a team without [id], [createdAt], [updatedAt]. *)
Record CrmTeamInput := {
  new_name : string;
  new_description : option string;
  new_doorflowGroupId : option Z
}.

(** The [updates] of [updateTeam]: [None] is an absent key; for the two
    optional fields [Some None] is a key holding [undefined] or [null]. An
    [updatedAt] among the updates is overwritten and is left out. *)
Record TeamUpdates := {
  upd_name : option string;
  upd_description : option (option string);
  upd_doorflowGroupId : option (option Z)
}.

(** [{ ...team, ...updates, updatedAt: t }] *)
Definition applyTeamUpdates (updates : TeamUpdates) (t : string) (team : CrmTeam)
    : CrmTeam :=
  {| team_id := team_id team;
     name := default (name team) (upd_name updates);
     description := default (description team) (upd_description updates);
     doorflowGroupId := default (doorflowGroupId team) (upd_doorflowGroupId updates);
     team_createdAt := team_createdAt team;
     team_updatedAt := t |}.

(** A line written to the console by the teams route. *)
Inductive TeamsLog :=
| LogSynced (personId : Z) (groupIds : list Z)
| LogMemberSyncFailed (memberId : string) (err : Thrown).

Definition isSynced (line : TeamsLog) : bool :=
  match line with LogSynced _ _ => true | LogMemberSyncFailed _ _ => false end.

(** The [personInput] of [syncMemberGroupsToDoorFlow]: [{ groupIds }]. *)
Definition groupsInput (groupIds : list Z) : PersonInput :=
  {| in_firstName := None; in_lastName := None; in_email := None;
     in_telephone := None; in_department := None; in_jobTitle := None;
     in_notes := None; in_organisationId := None; in_custom1 := None;
     in_enabled := None; in_systemId := None; in_groupIds := Some groupIds;
     in_imageBase64 := None |}.

Section Stores.

Variable toLowerCase : string → string.
Variable clock : nat → string.
Context {R : Type} `{!PeopleApi R}.

Notation "'do' x <- c ; k" := (bind c (λ x, k))
  (at level 10, x name, c at level 100, k at level 200).

Definition set_teams_json (v : list CrmTeam) (w : World R) : World R :=
  {| members_json := members_json w; teams_json := v; photos := photos w;
     directory := directory w; calls := calls w; console := console w;
     ticks := ticks w |}.

Definition saveAllTeams (teams : list CrmTeam) : @Sync R unit :=
  λ w, (set_teams_json teams w, tt).

(** *** [lib/members/storage.ts] *)

Definition getMember (id : string) : @Sync R (option CrmMember) :=
  do members <- loadAllMembers;
  ret (List.find (λ m, bool_decide (member_id m = id)) members).

Definition getMemberByDoorflowId (personId : Z) : @Sync R (option CrmMember) :=
  do members <- loadAllMembers;
  ret (List.find (λ m, bool_decide (doorflowPersonId m = Some personId)) members).

Definition getMemberByEmail (address : string) : @Sync R (option CrmMember) :=
  do members <- loadAllMembers;
  ret (List.find (λ m, bool_decide (toLowerCase (email m) = toLowerCase address))
         members).

Definition newMember (id : string) (input : CrmMemberInput) (t : string) : CrmMember :=
  {| member_id := id; firstName := new_firstName input;
     lastName := new_lastName input; email := new_email input;
     phone := new_phone input; department := new_department input;
     jobTitle := new_jobTitle input; notes := new_notes input;
     organisationId := new_organisationId input;
     membershipType := new_membershipType input; teamIds := new_teamIds input;
     doorflowPersonId := new_doorflowPersonId input;
     createdAt := t; updatedAt := t |}.

(** [createMember(input)], with [uuid] the value of [uuidv4()]. *)
Definition createMember (uuid : string) (input : CrmMemberInput) : @Sync R CrmMember :=
  do members <- loadAllMembers;
  do t <- now clock;
  let newMember := newMember uuid input t in
  do _ <- saveAllMembers (members ++ [newMember]);
  ret newMember.

Definition deleteMember (id : string) : @Sync R bool :=
  do members <- loadAllMembers;
  match findIndex (λ m, bool_decide (member_id m = id)) members with
  | None => ret false
  | Some index =>
      do _ <- saveAllMembers (delete index members);
      ret true
  end.

Definition getLinkedMembers : @Sync R (list CrmMember) :=
  do members <- loadAllMembers;
  ret (List.filter (λ m, bool_decide (doorflowPersonId m ≠ None)) members).

Definition getUnlinkedMembers : @Sync R (list CrmMember) :=
  do members <- loadAllMembers;
  ret (List.filter (λ m, bool_decide (doorflowPersonId m = None)) members).

Definition linkMemberToDoorflow (memberId : string) (doorflowPersonId : Z)
    : @Sync R (option CrmMember) :=
  updateMember clock memberId (Some doorflowPersonId).

Definition unlinkMemberFromDoorflow (memberId : string) : @Sync R (option CrmMember) :=
  updateMember clock memberId None.

(** *** [lib/teams/storage.ts] *)

Definition getTeam (id : string) : @Sync R (option CrmTeam) :=
  do teams <- loadAllTeams;
  ret (List.find (λ t, bool_decide (team_id t = id)) teams).

Definition getTeamByDoorflowGroupId (groupId : Z) : @Sync R (option CrmTeam) :=
  do teams <- loadAllTeams;
  ret (List.find (λ t, bool_decide (doorflowGroupId t = Some groupId)) teams).

Definition newTeam (id : string) (input : CrmTeamInput) (t : string) : CrmTeam :=
  {| team_id := id; name := new_name input; description := new_description input;
     doorflowGroupId := new_doorflowGroupId input;
     team_createdAt := t; team_updatedAt := t |}.

(** [createTeam(input)], with [uuid] the value of [uuidv4()]. *)
Definition createTeam (uuid : string) (input : CrmTeamInput) : @Sync R CrmTeam :=
  do teams <- loadAllTeams;
  do t <- now clock;
  let newTeam := newTeam uuid input t in
  do _ <- saveAllTeams (teams ++ [newTeam]);
  ret newTeam.

Definition updateTeam (id : string) (updates : TeamUpdates) : @Sync R (option CrmTeam) :=
  do teams <- loadAllTeams;
  match findIndex (λ t, bool_decide (team_id t = id)) teams with
  | None => ret None
  | Some index =>
      match teams !! index with
      | None => ret None
      | Some old =>
          do t <- now clock;
          let updatedTeam := applyTeamUpdates updates t old in
          do _ <- saveAllTeams (<[index := updatedTeam]> teams);
          ret (Some updatedTeam)
      end
  end.

Definition deleteTeam (id : string) : @Sync R bool :=
  do teams <- loadAllTeams;
  match findIndex (λ t, bool_decide (team_id t = id)) teams with
  | None => ret false
  | Some index =>
      do _ <- saveAllTeams (delete index teams);
      ret true
  end.

Definition getMappedTeams : @Sync R (list CrmTeam) :=
  do teams <- loadAllTeams;
  ret (List.filter (λ t, bool_decide (doorflowGroupId t ≠ None)) teams).

Definition getUnmappedTeams : @Sync R (list CrmTeam) :=
  do teams <- loadAllTeams;
  ret (List.filter (λ t, bool_decide (doorflowGroupId t = None)) teams).

Definition mapTeamToDoorflowGroup (teamId : string) (doorflowGroupId : Z)
    : @Sync R (option CrmTeam) :=
  updateTeam teamId {| upd_name := None; upd_description := None;
                       upd_doorflowGroupId := Some (Some doorflowGroupId) |}.

Definition unmapTeamFromDoorflowGroup (teamId : string) : @Sync R (option CrmTeam) :=
  updateTeam teamId {| upd_name := None; upd_description := None;
                       upd_doorflowGroupId := Some None |}.

(** [TeamStorage.getDoorflowGroupIdsForTeams], reading the store. *)
Definition loadDoorflowGroupIdsForTeams (teamIds : list string) : @Sync R (list Z) :=
  do teams <- loadAllTeams;
  ret (getDoorflowGroupIdsForTeams teamIds teams).

(** *** [app/api/teams/[id]/route.ts] *)

(** [syncMemberGroupsToDoorFlow]: [inl err] when [updatePerson] throws. *)
Definition syncMemberGroupsToDoorFlow (doorflowPersonId : Z) (teamIds : list string)
    : @Sync R (Thrown + TeamsLog) :=
  do groupIds <- loadDoorflowGroupIdsForTeams teamIds;
  do r <- sdk_updatePerson doorflowPersonId (groupsInput groupIds);
  match r with
  | inl err => ret (inl err)
  | inr _ => ret (inr (LogSynced doorflowPersonId groupIds))
  end.

(** The members [syncTeamMembersToDoorFlow] selects. *)
Definition teamMembers (teamId : string) (members : list CrmMember)
    : list CrmMember :=
  List.filter (λ m, bool_decide (teamId ∈ teamIds m)
                    && truthy_onumber (doorflowPersonId m)) members.

(** The loop of [syncTeamMembersToDoorFlow], on the count and the lines so
    far. *)
Fixpoint syncEach (members : list CrmMember) (syncedCount : nat)
    (lines : list TeamsLog) : @Sync R (list TeamsLog * nat) :=
  match members with
  | [] => ret (lines, syncedCount)
  | member :: rest =>
      do r <- syncMemberGroupsToDoorFlow (default 0 (doorflowPersonId member))
                (teamIds member);
      match r with
      | inr line => syncEach rest (S syncedCount) (lines ++ [line])
      | inl err =>
          syncEach rest syncedCount
            (lines ++ [LogMemberSyncFailed (member_id member) err])
      end
  end.

Definition syncTeamMembersToDoorFlow (teamId : string) : @Sync R (list TeamsLog * nat) :=
  do members <- loadAllMembers;
  syncEach (teamMembers teamId members) 0%nat [].

End Stores.

(** ** A directory to run the engine on

    An in-memory stand-in for the DoorFlow directory. It holds the emails
    of its people, in order of creation; the person at position [i] has id
    [i + 1]. A creation appends a person with the given email, unless the
    member's id is on the [rejected] list; an update leaves the people as
    they are, and fails when [updates_fail] is set; the listing fails when
    [offline] holds a thrown value. *)
Module Fake.

Record Directory := {
  emails : list (option string);
  rejected : list string;
  updates_fail : bool;
  offline : option Thrown
}.

Definition person_at (i : nat) (e : option string) : Person :=
  {| person_id := Z.of_nat (S i); person_email := e |}.

Definition listing (d : Directory) : list Person := imap person_at (emails d).

Definition add_email (e : option string) (d : Directory) : Directory :=
  {| emails := emails d ++ [e]; rejected := rejected d;
     updates_fail := updates_fail d; offline := offline d |}.

Definition fake_listPeople (d : Directory) : Thrown + list Person :=
  match offline d with
  | Some err => inl err
  | None => inr (listing d)
  end.

Definition fake_createPerson (input : PersonInput) (d : Directory)
    : Directory * (Thrown + Person) :=
  if bool_decide (default ""%string (in_systemId input) ∈ rejected d)
  then (d, inl (ThrownError "422 Unprocessable Entity"))
  else (add_email (in_email input) d,
        inr (person_at (length (emails d)) (in_email input))).

Definition fake_updatePerson (id : Z) (input : PersonInput) (d : Directory)
    : Directory * (Thrown + unit) :=
  if updates_fail d then (d, inl (ThrownError "500 Internal Server Error"))
  else (d, inr tt).

#[global] Instance api : PeopleApi Directory :=
  {| listPeople := fake_listPeople;
     createPerson := fake_createPerson;
     updatePerson := fake_updatePerson |}.

(** Lower-casing of the ASCII letters. *)
Definition lower_ascii (c : Ascii.ascii) : Ascii.ascii :=
  let n := nat_of_ascii c in
  if (65 <=? n)%nat && (n <=? 90)%nat then ascii_of_nat (n + 32) else c.

Fixpoint lower (s : string) : string :=
  match s with
  | EmptyString => EmptyString
  | String c s' => String (lower_ascii c) (lower s')
  end.

Definition clock (n : nat) : string :=
  String "T" (String (ascii_of_nat (48 + n)) EmptyString).

Definition mkMember (id first last mail : string) (teams : list string)
    (link : option Z) : CrmMember :=
  {| member_id := id; firstName := first; lastName := last; email := mail;
     phone := None; department := None; jobTitle := None; notes := None;
     organisationId := None; membershipType := standard; teamIds := teams;
     doorflowPersonId := link; createdAt := "T"; updatedAt := "T" |}.

Definition mkTeam (id : string) (group : option Z) : CrmTeam :=
  {| team_id := id; name := id; description := None;
     doorflowGroupId := group; team_createdAt := "T"; team_updatedAt := "T" |}.

Definition mkDirectory (mails : list (option string)) (rej : list string)
    : Directory :=
  {| emails := mails; rejected := rej; updates_fail := false; offline := None |}.

Definition mkWorld (members : list CrmMember) (teams : list CrmTeam)
    (d : Directory) : World Directory :=
  {| members_json := members; teams_json := teams; photos := ∅;
     directory := d; calls := []; console := []; ticks := 0 |}.

Definition run (createMissing dryRun : bool) (w : World Directory)
    : World Directory * Response :=
  POST lower clock createMissing dryRun w.

(** The scenario of the specification: Alice is in the directory under a
    differently cased email and belongs to a mapped team, Bob is not in
    the directory. *)
Definition alice : CrmMember :=
  mkMember "a" "Alice" "Smith" "Alice@Example.com" ["t1"] None.

Definition bob : CrmMember := mkMember "b" "Bob" "Jones" "b@x.com" [] None.

Definition world_ab : World Directory :=
  mkWorld [alice; bob] [mkTeam "t1" (Some 5)]
    (mkDirectory [Some "alice@example.com"%string] []).

(** Three members unknown to the directory; the creation is rejected for
    the second. *)
Definition m1 : CrmMember := mkMember "m1" "Ann" "One" "one@x.com" [] None.
Definition m2 : CrmMember := mkMember "m2" "Ben" "Two" "two@x.com" [] None.
Definition m3 : CrmMember := mkMember "m3" "Cat" "Three" "three@x.com" [] None.

Definition world_123 : World Directory :=
  mkWorld [m1; m2; m3] [] (mkDirectory [] ["m2"%string]).

(** A member linked to a person that is gone, and a member linked to a
    person that is there. *)
Definition stale : CrmMember := mkMember "s" "Sam" "Gone" "s@x.com" [] (Some 99).

Definition kept : CrmMember := mkMember "k" "Kim" "Here" "k@x.com" [] (Some 1).

Definition world_stale : World Directory :=
  mkWorld [stale; kept] [] (mkDirectory [Some "kim@x.com"%string] ["s"%string]).

(** The directory answers the listing with a 401. *)
Definition unauthorized : Thrown := ThrownResponseError 401 None "Unauthorized".

Definition world_offline : World Directory :=
  mkWorld [alice; bob] [mkTeam "t1" (Some 5)]
    {| emails := []; rejected := []; updates_fail := false;
       offline := Some unauthorized |}.

(** Two teams, the first mapped to a group; two linked members and one that
    is not linked. *)
Definition carol : CrmMember :=
  mkMember "c" "Carol" "Diaz" "c@x.com" ["t1"; "t2"] (Some 1).

Definition dave : CrmMember := mkMember "d" "Dave" "Eng" "d@x.com" ["t2"] (Some 2).

Definition erin : CrmMember := mkMember "e" "Erin" "Fox" "e@x.com" ["t2"] None.

Definition team1 : CrmTeam := mkTeam "t1" (Some 5).

Definition team2 : CrmTeam := mkTeam "t2" None.

Definition world_teams : World Directory :=
  mkWorld [carol; dave; erin] [team1; team2]
    (mkDirectory [Some "c@x.com"%string; Some "d@x.com"%string] []).

End Fake.

(** ** Vocabulary of the statements *)

(** The record written by [updateMember]. *)
Definition updatedRecord (v : option Z) (t : string) (m : CrmMember) : CrmMember :=
  set_updatedAt t (set_doorflowPersonId v m).

(** A member with its link field blanked: what stays of a member when the
    engine reports it with a new [doorflowPersonId]. *)
Definition eraseLink (m : CrmMember) : CrmMember := set_doorflowPersonId None m.

Definition erase_links (r : SyncResult) : SyncResult :=
  {| matched := (λ e, {| member := eraseLink (member e); personId := personId e |})
                  <$> matched r;
     created := (λ e, {| member := eraseLink (member e); personId := personId e |})
                  <$> created r;
     unmatched := eraseLink <$> unmatched r;
     errors := (λ e, {| failed_member := eraseLink (failed_member e);
                        error := error e |}) <$> errors r |}.

(** [r'] holds the entries of [r] and, after them, possibly more. *)
Definition extends (r r' : SyncResult) : Prop :=
  (∃ l, matched r' = matched r ++ l) ∧ (∃ l, created r' = created r ++ l)
  ∧ (∃ l, unmatched r' = unmatched r ++ l) ∧ (∃ l, errors r' = errors r ++ l).

(** The members of the four buckets. *)
Definition bucket_members (r : SyncResult) : list CrmMember :=
  (member <$> matched r) ++ (member <$> created r) ++ unmatched r
    ++ (failed_member <$> errors r).

(** A matched or created entry, as member id and person id. *)
Definition entry_key (e : Linked) : string * Z := (member_id (member e), personId e).

(** The guard [if (member.doorflowPersonId)] of [POST]. *)
Definition isLinked (m : CrmMember) : bool := truthy_onumber (doorflowPersonId m).

(** The id under which [POST] re-affirms an existing link: the stored id,
    when it is truthy and some fetched person has it. *)
Definition reaffirmed (people : list Person) (m : CrmMember) : option Z :=
  match doorflowPersonId m with
  | Some linkedId =>
      if truthy_number linkedId then
        match List.find (λ p, bool_decide (person_id p = linkedId)) people with
        | Some _ => Some linkedId
        | None => None
        end
      else None
  | None => None
  end.

(** The key of the [matched] entry of a member, if it gets one: by its
    existing link, or else by its email. *)
Definition matchedKey (toLowerCase : string → string) (people : list Person)
    (m : CrmMember) : option (string * Z) :=
  match reaffirmed people m with
  | Some linkedId => Some (member_id m, linkedId)
  | None =>
      (λ p, (member_id m, person_id p)) <$>
        matchByEmail toLowerCase m (buildPeopleByEmail toLowerCase people)
  end.

(** The stored record of a member once [POST] has dealt with its link and
    before [tryMatchMember] writes anything: untouched for an unlinked
    member, unlinked for a member that carried a link. *)
Definition Cleared (m m' : CrmMember) : Prop :=
  (isLinked m = false ∧ m' = m)
  ∨ (isLinked m = true ∧ ∃ t, m' = updatedRecord None t m).

(** How the stored record [m'] of a member stands, after a live run, to the
    record [m] the run loaded. *)
Record Evolved (toLowerCase : string → string) (people : list Person)
    (createMissing : bool) (m m' : CrmMember) : Prop := {
  ev_id : member_id m' = member_id m;
  ev_email : email m' = email m;
  ev_key : ∀ k, matchedKey toLowerCase people m = Some k →
                doorflowPersonId m' = Some k.2;
  ev_none : matchedKey toLowerCase people m = None → createMissing = false →
            isLinked m' = false
}.

Section Effects.

Context {R : Type} `{!PeopleApi R}.

(** The world after the best-effort update that follows an email match. *)
Definition afterUpdate (pid : Z) (groupIds : list Z) (photoBase64 : option string)
    (w : World R) : World R :=
  if bool_decide (0 < length groupIds)%nat || truthy_ostring photoBase64 then
    let r := updatePerson pid (updateInput groupIds photoBase64) (directory w) in
    let w' := set_directory r.1
                (log_call (CallUpdatePerson pid (updateInput groupIds photoBase64)) w) in
    match r.2 with
    | inr _ => w'
    | inl err => log_console (LogUpdateFailed pid err) w'
    end
  else w.

(** The world once [createPerson] has been called for [m]. *)
Definition afterCreate (m : CrmMember) (teamToGroupMap : gmap string Z)
    (photoBase64 : option string) (w : World R) : World R :=
  let input := createInput m (getGroupIdsForMember m teamToGroupMap) photoBase64 in
  set_directory (createPerson input (directory w)).1
    (log_call (CallCreatePerson input) w).

(** What the remote directory is taken to guarantee between two runs:
    person ids are never [0]; an update leaves the listing as it is; a
    creation keeps the people listed and, when it succeeds, lists the new
    person. *)
Class PeopleApiLaws : Prop := {
  law_ids : ∀ (r : R) ps p,
    listPeople r = inr ps → p ∈ ps → person_id p ≠ 0;
  law_update : ∀ id input (r : R),
    listPeople (updatePerson id input r).1 = listPeople r;
  law_create : ∀ input (r : R) ps,
    listPeople r = inr ps →
    ∃ ps', listPeople (createPerson input r).1 = inr ps'
           ∧ (∀ q, q ∈ ps → q ∈ ps')
           ∧ (∀ p, (createPerson input r).2 = inr p → p ∈ ps')
}.

End Effects.

Arguments PeopleApiLaws R {_}.

(** What the engine never touches of a stored member: everything but the
    link and the time of the last update. *)
Definition profile (m : CrmMember) : CrmMember :=
  set_updatedAt ""%string (set_doorflowPersonId None m).

(** The loaded members that get no [matched] entry. *)
Definition pending (toLowerCase : string → string) (people : list Person)
    (members : list CrmMember) : list CrmMember :=
  List.filter (λ m, bool_decide (matchedKey toLowerCase people m = None)) members.

Definition isCreateCall (c : ApiCall) : bool :=
  match c with CallCreatePerson _ => true | _ => false end.

(** What [handleError] answers for a thrown value. *)
Definition errorResponse (err : Thrown) : Response :=
  match err with
  | ThrownResponseError status _ _ =>
      if bool_decide (status = 401) then RespNotAuthenticated
      else if bool_decide (200 ≤ status ≤ 599 ∧ status ∉ [204; 205; 304])
           then RespApiError status
           else RespRejected
  | _ => RespSyncFailed
  end.

(** ** Facts about the helpers *)

Lemma Map_new_snoc {V : Type} (l : list (string * V)) k v :
  Map_new (l ++ [(k, v)]) = <[k := v]> (Map_new l).
Proof. unfold Map_new. by rewrite foldl_app. Qed.

(** The entry found under a key is the last one of the list with that key. *)
Lemma Map_new_lookup_Some {V : Type} (l : list (string * V)) k v :
  Map_new l !! k = Some v ↔
  ∃ l1 l2, l = l1 ++ (k, v) :: l2 ∧ k ∉ l2.*1.
Proof.
  induction l as [|[k' v'] l IH] using rev_ind.
  - split; [done|]. intros (l1 & l2 & Hl & _). by destruct l1.
  - rewrite Map_new_snoc. destruct (decide (k' = k)) as [->|Hne].
    + rewrite lookup_insert_eq. split.
      * intros [= ->]. exists l, []. split; [done|]. set_solver.
      * intros (l1 & l2 & Hl & Hnot).
        destruct l2 as [|x l2 _] using rev_ind.
        -- apply app_inj_tail in Hl as [_ Hl]. congruence.
        -- rewrite app_comm_cons, app_assoc in Hl.
           apply app_inj_tail in Hl as [_ <-].
           rewrite fmap_app in Hnot. set_solver.
    + rewrite lookup_insert_ne by done. rewrite IH. split.
      * intros (l1 & l2 & -> & Hnot). exists l1, (l2 ++ [(k', v')]).
        split; [by rewrite <- app_assoc|]. rewrite fmap_app. set_solver.
      * intros (l1 & l2 & Hl & Hnot).
        destruct l2 as [|x l2 _] using rev_ind.
        -- apply app_inj_tail in Hl as [_ Hl]. congruence.
        -- rewrite app_comm_cons, app_assoc in Hl.
           apply app_inj_tail in Hl as [-> <-].
           exists l1, l2. split; [done|]. rewrite fmap_app in Hnot. set_solver.
Qed.

Lemma Map_new_lookup_None {V : Type} (l : list (string * V)) k :
  Map_new l !! k = None ↔ k ∉ l.*1.
Proof.
  induction l as [|[k' v'] l IH] using rev_ind.
  - split; [set_solver|done].
  - rewrite Map_new_snoc, fmap_app. destruct (decide (k' = k)) as [->|Hne].
    + rewrite lookup_insert_eq. set_solver.
    + rewrite lookup_insert_ne by done. rewrite IH. set_solver.
Qed.

Lemma foldl_push_groupIds (teamToGroupMap : gmap string Z) acc ids :
  foldl (λ groupIds teamId,
           match teamToGroupMap !! teamId with
           | Some groupId => groupIds ++ [groupId]
           | None => groupIds
           end) acc ids
  = acc ++ omap (λ t, teamToGroupMap !! t) ids.
Proof.
  revert acc. induction ids as [|t ids IH]; intros acc; simpl.
  - by rewrite app_nil_r.
  - rewrite IH. destruct (teamToGroupMap !! t); [|done].
    by rewrite <- app_assoc.
Qed.

Lemma getGroupIdsForMember_omap member (teamToGroupMap : gmap string Z) :
  getGroupIdsForMember member teamToGroupMap
  = omap (λ t, teamToGroupMap !! t) (teamIds member).
Proof. unfold getGroupIdsForMember. by rewrite foldl_push_groupIds. Qed.

Lemma buildTeamToGroupMap_snoc teams team :
  buildTeamToGroupMap (teams ++ [team]) =
  match doorflowGroupId team with
  | Some groupId => <[team_id team := groupId]> (buildTeamToGroupMap teams)
  | None => buildTeamToGroupMap teams
  end.
Proof. unfold buildTeamToGroupMap. by rewrite foldl_app. Qed.

(** With one team per id, the map holds exactly the mapped teams. *)
Lemma buildTeamToGroupMap_lookup teams t g :
  NoDup (team_id <$> teams) →
  buildTeamToGroupMap teams !! t = Some g ↔
  ∃ team, team ∈ teams ∧ team_id team = t ∧ doorflowGroupId team = Some g.
Proof.
  induction teams as [|x teams IH] using rev_ind; intros Hnd.
  - split; [done|]. intros (? & ? & _). set_solver.
  - rewrite fmap_app in Hnd. apply NoDup_app in Hnd as (Hnd & Hfresh & _).
    rewrite buildTeamToGroupMap_snoc.
    assert (Hx : team_id x ∉ team_id <$> teams).
    { intros Hin. apply (Hfresh _ Hin). set_solver. }
    destruct (doorflowGroupId x) as [gx|] eqn:Hgx.
    + destruct (decide (team_id x = t)) as [<-|Hne].
      * rewrite lookup_insert_eq. split.
        -- intros [= ->]. exists x. set_solver.
        -- intros (team & [Hin| ->%list_elem_of_singleton]%elem_of_app & Hid & Hg).
           ++ exfalso. apply Hx. rewrite <- Hid. by apply list_elem_of_fmap_2.
           ++ congruence.
      * rewrite lookup_insert_ne by done. rewrite (IH Hnd). split.
        -- intros (team & ? & ? & ?). exists team. set_solver.
        -- intros (team & [Hin| ->%list_elem_of_singleton]%elem_of_app & Hid & Hg);
             [by exists team | done].
    + rewrite (IH Hnd). split.
      * intros (team & ? & ? & ?). exists team. set_solver.
      * intros (team & [Hin| ->%list_elem_of_singleton]%elem_of_app & Hid & Hg);
          [by exists team | congruence].
Qed.

Lemma getDoorflowGroupIdsForTeams_omap ids teams :
  getDoorflowGroupIdsForTeams ids teams
  = omap doorflowGroupId (List.filter (λ t, bool_decide (team_id t ∈ ids)) teams).
Proof.
  unfold getDoorflowGroupIdsForTeams, getTeamsByIds.
  induction teams as [|t teams IH]; [done|]. simpl.
  destruct (bool_decide (team_id t ∈ ids)); [|done]. simpl.
  destruct (doorflowGroupId t) eqn:Hg; simpl; rewrite ?Hg; simpl;
    [f_equal|]; apply IH.
Qed.

(** ** Team to group resolution (C7) *)

(** C7. Resolving a member's team ids yields exactly the mapped group id of
    each of the member's teams that has one, in the order of the member's
    team ids; a team id that is unmapped or unknown contributes nothing.
    This holds for [getGroupIdsForMember] over any team-to-group map, for
    the map [POST] builds from the stored teams (one team per id), and,
    as a set, for [getDoorflowGroupIdsForTeams]. In particular a member of
    two teams mapped to [g1] and [g2] resolves to [g1; g2], and a member of
    one unmapped team resolves to the empty list. *)
Theorem C7_team_group_resolution :
  (∀ member (teamToGroupMap : gmap string Z),
     getGroupIdsForMember member teamToGroupMap
     = omap (λ t, teamToGroupMap !! t) (teamIds member))
  ∧ (∀ member teams g,
       NoDup (team_id <$> teams) →
       g ∈ getGroupIdsForMember member (buildTeamToGroupMap teams) ↔
       ∃ team, team ∈ teams ∧ team_id team ∈ teamIds member
               ∧ doorflowGroupId team = Some g)
  ∧ (∀ ids teams g,
       g ∈ getDoorflowGroupIdsForTeams ids teams ↔
       ∃ team, team ∈ teams ∧ team_id team ∈ ids
               ∧ doorflowGroupId team = Some g)
  ∧ (∀ member (teamToGroupMap : gmap string Z) t1 t2 g1 g2,
       teamIds member = [t1; t2] →
       teamToGroupMap !! t1 = Some g1 → teamToGroupMap !! t2 = Some g2 →
       getGroupIdsForMember member teamToGroupMap = [g1; g2])
  ∧ (∀ member (teamToGroupMap : gmap string Z) t,
       teamIds member = [t] → teamToGroupMap !! t = None →
       getGroupIdsForMember member teamToGroupMap = []).
Proof.
  split; [apply getGroupIdsForMember_omap|].
  split; [|split; [|split]].
  - intros member teams g Hnd. rewrite getGroupIdsForMember_omap.
    rewrite list_elem_of_omap. split.
    + intros (t & Ht & Hg). apply buildTeamToGroupMap_lookup in Hg; [|done].
      destruct Hg as (team & Hin & <- & Hg). by exists team.
    + intros (team & Hin & Ht & Hg). exists (team_id team). split; [done|].
      apply buildTeamToGroupMap_lookup; [done|]. by exists team.
  - intros ids teams g. rewrite getDoorflowGroupIdsForTeams_omap.
    rewrite list_elem_of_omap. split.
    + intros (team & Hin & Hg). apply list_elem_of_In, filter_In in Hin.
      destruct Hin as [Hin Hid]. apply bool_decide_eq_true in Hid.
      exists team. by rewrite list_elem_of_In.
    + intros (team & Hin & Hid & Hg). exists team. split; [|done].
      apply list_elem_of_In, filter_In. split; [by apply list_elem_of_In|].
      by apply bool_decide_eq_true.
  - intros member m t1 t2 g1 g2 Hids H1 H2.
    rewrite getGroupIdsForMember_omap, Hids. simpl. by rewrite H1, H2.
  - intros member m t Hids Ht.
    rewrite getGroupIdsForMember_omap, Hids. simpl. by rewrite Ht.
Qed.

Lemma C7_team_group_resolution_witness :
  let teams := [Fake.mkTeam "T1" (Some 5); Fake.mkTeam "T2" (Some 7);
                Fake.mkTeam "T3" None] in
  let member := Fake.mkMember "m" "Ann" "Lee" "ann@x.com" ["T1"; "T3"; "T2"] None in
  NoDup (team_id <$> teams)
  ∧ (7 ∈ getGroupIdsForMember member (buildTeamToGroupMap teams) ↔
     ∃ team, team ∈ teams ∧ team_id team ∈ teamIds member
             ∧ doorflowGroupId team = Some 7)
  ∧ getGroupIdsForMember member (buildTeamToGroupMap teams) = [5; 7].
Proof.
  assert (Hnd : NoDup (team_id <$> [Fake.mkTeam "T1" (Some 5);
                         Fake.mkTeam "T2" (Some 7); Fake.mkTeam "T3" None])).
  { apply (bool_decide_unpack _). vm_compute. exact I. }
  split; [exact Hnd|]. split.
  - exact (proj1 (proj2 C7_team_group_resolution) _ _ 7 Hnd).
  - vm_compute. reflexivity.
Defined.

(** ** Facts about the store *)

Lemma findIndex_Some {A : Type} (f : A → bool) l i :
  findIndex f l = Some i →
  ∃ x, l !! i = Some x ∧ f x = true ∧ ∀ j y, (j < i)%nat → l !! j = Some y → f y = false.
Proof.
  revert i. induction l as [|a l IH]; intros i; simpl; [done|].
  destruct (f a) eqn:Hfa.
  - intros [= <-]. exists a. repeat split; [done|]. intros j y Hj. lia.
  - destruct (findIndex f l) as [i'|]; [|done]. simpl. intros [= <-].
    destruct (IH i' eq_refl) as (x & Hx & Hfx & Hlt). exists x.
    repeat split; [done..|]. intros [|j] y Hj; simpl.
    + by intros [= <-].
    + apply Hlt. lia.
Qed.

Lemma findIndex_None {A : Type} (f : A → bool) l :
  findIndex f l = None ↔ ∀ x, x ∈ l → f x = false.
Proof.
  induction l as [|a l IH]; simpl.
  - split; [|done]. intros _ x Hx. by apply elem_of_nil in Hx.
  - destruct (f a) eqn:Hfa.
    + split; [done|]. intros H. specialize (H a). rewrite Hfa in H.
      discriminate H. by left.
    + destruct (findIndex f l) as [i|] eqn:Hfi; simpl.
      * split; [done|]. intros H. exfalso.
        assert (Hl : ∀ x, x ∈ l → f x = false) by (intros x Hx; apply H; by right).
        apply IH in Hl. discriminate.
      * split; [|done]. intros _ x [->|Hx]%elem_of_cons; [done|].
        by apply IH.
Qed.

Lemma findIndex_middle {A : Type} (f : A → bool) pre x post :
  (∀ y, y ∈ pre → f y = false) → f x = true →
  findIndex f (pre ++ x :: post) = Some (length pre).
Proof.
  intros Hpre Hx. induction pre as [|a pre IH]; simpl.
  - by rewrite Hx.
  - rewrite (Hpre a) by (by left). rewrite IH; [done|].
    intros y Hy. apply Hpre. by right.
Qed.

Section EngineFacts.

Variable toLowerCase : string → string.
Variable clock : nat → string.
Context {R : Type} `{!PeopleApi R}.

Implicit Types (w : World R) (member m : CrmMember) (results res : SyncResult).
Implicit Types (people : list Person) (peopleByEmail : gmap string Person).
Implicit Types (teamToGroupMap : gmap string Z).

Lemma updateMember_frame id v w :
  let w' := (updateMember clock id v w).1 in
  teams_json w' = teams_json w ∧ photos w' = photos w
  ∧ directory w' = directory w ∧ calls w' = calls w
  ∧ console w' = console w.
Proof.
  unfold updateMember, bind, ret, loadAllMembers, now, saveAllMembers. simpl.
  destruct (findIndex _ _) as [i|]; simpl; [|done].
  destruct (members_json w !! i); simpl; done.
Qed.

Lemma updateMember_ids id v w :
  member_id <$> members_json (updateMember clock id v w).1
  = member_id <$> members_json w.
Proof.
  unfold updateMember, bind, ret, loadAllMembers, now, saveAllMembers. simpl.
  destruct (findIndex _ _) as [i|] eqn:Hfi; simpl; [|done].
  destruct (members_json w !! i) as [old|] eqn:Hold; simpl; [|done].
  rewrite list_fmap_insert. simpl. apply list_insert_id.
  by rewrite list_lookup_fmap, Hold.
Qed.

(** With the record of [m] the first one under its id, the update
    rewrites that record in place. *)
Lemma updateMember_at v w pre m post :
  members_json w = pre ++ m :: post →
  member_id m ∉ member_id <$> pre →
  members_json (updateMember clock (member_id m) v w).1
  = pre ++ updatedRecord v (clock (ticks w)) m :: post.
Proof.
  intros Hw Hpre.
  unfold updateMember, bind, ret, loadAllMembers, now, saveAllMembers. simpl.
  rewrite Hw.
  rewrite (findIndex_middle _ pre m post).
  - rewrite list_lookup_middle by done. simpl.
    replace (length pre) with (length pre + 0)%nat by lia.
    by rewrite insert_app_r.
  - intros y Hy. apply bool_decide_eq_false. intros Heq. apply Hpre.
    rewrite <- Heq. by apply list_elem_of_fmap_2.
  - by apply bool_decide_eq_true.
Qed.

Lemma updateMember_ticks_at v w pre m post :
  members_json w = pre ++ m :: post →
  ticks (updateMember clock (member_id m) v w).1 = S (ticks w).
Proof.
  intros Hw.
  unfold updateMember, bind, ret, loadAllMembers, now, saveAllMembers. simpl.
  destruct (findIndex _ _) as [i|] eqn:Hfi; simpl.
  - apply findIndex_Some in Hfi as (x & Hx & _). by rewrite Hx.
  - exfalso. rewrite findIndex_None in Hfi. specialize (Hfi m).
    rewrite Hw in Hfi. rewrite bool_decide_eq_true_2 in Hfi by done.
    discriminate Hfi. set_solver.
Qed.


(** *** One member *)

Lemma processMember_unlinked people peopleByEmail cm dr teamToGroupMap m res w :
  isLinked m = false →
  processMember toLowerCase clock people peopleByEmail cm dr teamToGroupMap m res w
  = tryMatchMember toLowerCase clock m peopleByEmail res cm dr teamToGroupMap
      (photos w !! photoName toLowerCase m) w.
Proof.
  unfold isLinked, truthy_onumber, processMember. intros Hl.
  destruct (doorflowPersonId m) as [n|]; [rewrite Hl|]; done.
Qed.

Lemma processMember_present people peopleByEmail cm dr teamToGroupMap m res w
    linkedId p :
  doorflowPersonId m = Some linkedId → linkedId ≠ 0 →
  p ∈ people → person_id p = linkedId →
  processMember toLowerCase clock people peopleByEmail cm dr teamToGroupMap m res w
  = (w, push_matched {| member := m; personId := linkedId |} res).
Proof.
  intros Hl Hnz Hin Hid. unfold processMember. rewrite Hl.
  unfold truthy_number. rewrite bool_decide_eq_false_2 by done. simpl.
  destruct (List.find _ people) as [q|] eqn:Hfind; [done|].
  exfalso. apply list_elem_of_In in Hin.
  pose proof (find_none _ _ Hfind p Hin) as Hp. simpl in Hp.
  by rewrite bool_decide_eq_true_2 in Hp.
Qed.

Lemma processMember_stale people peopleByEmail cm dr teamToGroupMap m res w
    linkedId :
  doorflowPersonId m = Some linkedId → linkedId ≠ 0 →
  (∀ p, p ∈ people → person_id p ≠ linkedId) →
  processMember toLowerCase clock people peopleByEmail cm dr teamToGroupMap m res w
  = tryMatchMember toLowerCase clock m peopleByEmail res cm dr teamToGroupMap
      (photos w !! photoName toLowerCase m)
      (if dr then w else (updateMember clock (member_id m) None w).1).
Proof.
  intros Hl Hnz Hnone. unfold processMember. rewrite Hl.
  unfold truthy_number. rewrite bool_decide_eq_false_2 by done. simpl.
  destruct (List.find _ people) as [q|] eqn:Hfind.
  - exfalso. apply find_some in Hfind as [Hin Hq].
    apply bool_decide_eq_true in Hq. apply (Hnone q); [|done].
    by apply list_elem_of_In.
  - unfold bind, ret, getMemberPhotoBase64. destruct dr; simpl; [done|].
    by destruct (updateMember_frame (member_id m) None w) as (_ & -> & _).
Qed.

(** The three ways a member enters the loop body. *)
Lemma processMember_cases people m :
  isLinked m = false
  ∨ (∃ linkedId p, doorflowPersonId m = Some linkedId ∧ linkedId ≠ 0
                   ∧ p ∈ people ∧ person_id p = linkedId)
  ∨ (∃ linkedId, doorflowPersonId m = Some linkedId ∧ linkedId ≠ 0
                 ∧ ∀ p, p ∈ people → person_id p ≠ linkedId).
Proof.
  unfold isLinked, truthy_onumber, truthy_number.
  destruct (doorflowPersonId m) as [n|]; [|by left].
  destruct (decide (n = 0)) as [->|Hn]; [by left|]. right.
  destruct (List.find (λ p, bool_decide (person_id p = n)) people) as [q|] eqn:Hf.
  - left. apply find_some in Hf as [Hin Hq]. apply bool_decide_eq_true in Hq.
    exists n, q. by rewrite list_elem_of_In.
  - right. exists n. repeat split; [done|]. intros p Hin Hp.
    apply list_elem_of_In in Hin.
    pose proof (find_none _ _ Hf p Hin) as Hq. simpl in Hq.
    by rewrite bool_decide_eq_true_2 in Hq.
Qed.

Lemma tryMatch_match m peopleByEmail res cm dr teamToGroupMap photoBase64 w p :
  matchByEmail toLowerCase m peopleByEmail = Some p →
  tryMatchMember toLowerCase clock m peopleByEmail res cm dr teamToGroupMap
    photoBase64 w
  = (if dr then w
     else afterUpdate (person_id p) (getGroupIdsForMember m teamToGroupMap)
            photoBase64
            (updateMember clock (member_id m) (Some (person_id p)) w).1,
     push_matched {| member := set_doorflowPersonId (Some (person_id p)) m;
                     personId := person_id p |} res).
Proof.
  intros Hm. unfold tryMatchMember. rewrite Hm.
  unfold bind, ret, afterUpdate, sdk_updatePerson, console_error.
  destruct dr; simpl; [done|].
  destruct (_ || _); simpl; [|done].
  by destruct (updatePerson _ _ _) as [r' [err|[]]].
Qed.

Lemma tryMatch_unmatched m peopleByEmail res dr teamToGroupMap photoBase64 w :
  matchByEmail toLowerCase m peopleByEmail = None →
  tryMatchMember toLowerCase clock m peopleByEmail res false dr teamToGroupMap
    photoBase64 w
  = (w, push_unmatched m res).
Proof. intros Hm. unfold tryMatchMember. by rewrite Hm. Qed.

Lemma tryMatch_create_dry m peopleByEmail res teamToGroupMap photoBase64 w :
  matchByEmail toLowerCase m peopleByEmail = None →
  tryMatchMember toLowerCase clock m peopleByEmail res true true teamToGroupMap
    photoBase64 w
  = (w, push_created {| member := m; personId := 0 |} res).
Proof. intros Hm. unfold tryMatchMember. by rewrite Hm. Qed.

Lemma tryMatch_create_ok m peopleByEmail res teamToGroupMap photoBase64 w newPerson :
  matchByEmail toLowerCase m peopleByEmail = None →
  (createPerson (createInput m (getGroupIdsForMember m teamToGroupMap) photoBase64)
     (directory w)).2 = inr newPerson →
  tryMatchMember toLowerCase clock m peopleByEmail res true false teamToGroupMap
    photoBase64 w
  = ((updateMember clock (member_id m) (Some (person_id newPerson))
        (afterCreate m teamToGroupMap photoBase64 w)).1,
     push_created {| member := set_doorflowPersonId (Some (person_id newPerson)) m;
                     personId := person_id newPerson |} res).
Proof.
  intros Hm Hc. unfold tryMatchMember. rewrite Hm.
  unfold bind, ret, sdk_createPerson, afterCreate. simpl. by rewrite Hc.
Qed.

Lemma tryMatch_create_failed m peopleByEmail res teamToGroupMap photoBase64 w err :
  matchByEmail toLowerCase m peopleByEmail = None →
  (createPerson (createInput m (getGroupIdsForMember m teamToGroupMap) photoBase64)
     (directory w)).2 = inl err →
  tryMatchMember toLowerCase clock m peopleByEmail res true false teamToGroupMap
    photoBase64 w
  = (afterCreate m teamToGroupMap photoBase64 w,
     push_errors {| failed_member := m; error := error_message err |} res).
Proof.
  intros Hm Hc. unfold tryMatchMember. rewrite Hm.
  unfold bind, ret, sdk_createPerson, afterCreate. simpl. by rewrite Hc.
Qed.

Lemma afterUpdate_frame pid groupIds photoBase64 w :
  let w' := afterUpdate pid groupIds photoBase64 w in
  members_json w' = members_json w ∧ teams_json w' = teams_json w
  ∧ photos w' = photos w ∧ ticks w' = ticks w.
Proof.
  unfold afterUpdate. destruct (_ || _); simpl; [|done].
  by destruct (updatePerson _ _ _) as [r' [err|[]]].
Qed.

Lemma forEachMember_cons (body : CrmMember → SyncResult → Sync SyncResult)
    m rest res w :
  forEachMember body (m :: rest) res w
  = forEachMember body rest (body m res w).2 (body m res w).1.
Proof. done. Qed.

Lemma POST_results cm dr w people :
  listPeople (directory w) = inr people →
  POST toLowerCase clock cm dr w
  = let out := forEachMember
                 (processMember toLowerCase clock people
                    (buildPeopleByEmail toLowerCase people) cm dr
                    (buildTeamToGroupMap (teams_json w)))
                 (members_json w) emptyResults (log_call CallListPeople w) in
    (out.1, RespResults out.2).
Proof.
  intros Hl. unfold POST, bind, ret, loadAllMembers, loadAllTeams, sdk_listPeople.
  simpl. by rewrite Hl.
Qed.

(** *** Entries stay where they are put *)

Lemma extends_refl res : extends res res.
Proof. repeat split; exists []; by rewrite app_nil_r. Qed.

Lemma extends_trans r1 r2 r3 : extends r1 r2 → extends r2 r3 → extends r1 r3.
Proof.
  intros ((a & Ha) & (b & Hb) & (c & Hc) & (d & Hd))
         ((a' & Ha') & (b' & Hb') & (c' & Hc') & (d' & Hd')).
  repeat split; eexists.
  - by rewrite Ha', Ha, <- app_assoc.
  - by rewrite Hb', Hb, <- app_assoc.
  - by rewrite Hc', Hc, <- app_assoc.
  - by rewrite Hd', Hd, <- app_assoc.
Qed.

Lemma extends_push_matched e res : extends res (push_matched e res).
Proof.
  repeat split; simpl; [by exists [e]|exists []..]; by rewrite app_nil_r.
Qed.

Lemma extends_push_created e res : extends res (push_created e res).
Proof.
  split; [exists []; simpl; by rewrite app_nil_r|].
  split; [by exists [e]|]. split; exists []; simpl; by rewrite app_nil_r.
Qed.

Lemma extends_push_unmatched m res : extends res (push_unmatched m res).
Proof.
  split; [exists []; simpl; by rewrite app_nil_r|].
  split; [exists []; simpl; by rewrite app_nil_r|].
  split; [by exists [m]|]. exists []; simpl; by rewrite app_nil_r.
Qed.

Lemma extends_push_errors e res : extends res (push_errors e res).
Proof.
  split; [exists []; simpl; by rewrite app_nil_r|].
  split; [exists []; simpl; by rewrite app_nil_r|].
  split; [exists []; simpl; by rewrite app_nil_r|]. by exists [e].
Qed.

Lemma tryMatchMember_extends m peopleByEmail res cm dr teamToGroupMap photoBase64 w :
  extends res (tryMatchMember toLowerCase clock m peopleByEmail res cm dr
                 teamToGroupMap photoBase64 w).2.
Proof.
  destruct (matchByEmail toLowerCase m peopleByEmail) as [p|] eqn:Hm.
  - rewrite (tryMatch_match _ _ _ _ _ _ _ _ _ Hm). apply extends_push_matched.
  - destruct cm; [destruct dr|].
    + rewrite tryMatch_create_dry by done. apply extends_push_created.
    + destruct (createPerson
                  (createInput m (getGroupIdsForMember m teamToGroupMap) photoBase64)
                  (directory w)).2 as [err|newPerson] eqn:Hc.
      * rewrite (tryMatch_create_failed _ _ _ _ _ _ err Hm Hc).
        apply extends_push_errors.
      * rewrite (tryMatch_create_ok _ _ _ _ _ _ newPerson Hm Hc).
        apply extends_push_created.
    + rewrite tryMatch_unmatched by done. apply extends_push_unmatched.
Qed.

Lemma processMember_extends people peopleByEmail cm dr teamToGroupMap m res w :
  extends res (processMember toLowerCase clock people peopleByEmail cm dr
                 teamToGroupMap m res w).2.
Proof.
  destruct (processMember_cases people m)
    as [Hu|[(n & p & Hl & Hnz & Hin & Hid)|(n & Hl & Hnz & Hnone)]].
  - rewrite processMember_unlinked by done. apply tryMatchMember_extends.
  - rewrite (processMember_present _ _ _ _ _ _ _ _ _ _ Hl Hnz Hin Hid).
    apply extends_push_matched.
  - rewrite (processMember_stale _ _ _ _ _ _ _ _ _ Hl Hnz Hnone).
    apply tryMatchMember_extends.
Qed.

Lemma forEachMember_extends people peopleByEmail cm dr teamToGroupMap members res w :
  extends res (forEachMember
                 (processMember toLowerCase clock people peopleByEmail cm dr
                    teamToGroupMap) members res w).2.
Proof.
  revert res w. induction members as [|m members IH]; intros res w.
  - apply extends_refl.
  - rewrite forEachMember_cons.
    eapply extends_trans; [apply processMember_extends|apply IH].
Qed.

(** What holds of the result once a member has been processed, and is kept
    by later entries, holds of the result of the loop. *)
Lemma forEachMember_reaches people peopleByEmail cm dr teamToGroupMap members m
    (Φ : SyncResult → Prop) :
  (∀ r r', extends r r' → Φ r → Φ r') →
  m ∈ members →
  (∀ res w, Φ (processMember toLowerCase clock people peopleByEmail cm dr
                 teamToGroupMap m res w).2) →
  ∀ res w, Φ (forEachMember
                (processMember toLowerCase clock people peopleByEmail cm dr
                   teamToGroupMap) members res w).2.
Proof.
  intros Hmono Hin Hstep.
  induction members as [|a members IH]; intros res w;
    [by apply elem_of_nil in Hin|].
  rewrite forEachMember_cons.
  apply elem_of_cons in Hin as [->|Hin].
  - eapply Hmono; [apply forEachMember_extends|apply Hstep].
  - by apply IH.
Qed.

(** *** Already linked members (C9) *)

(** C9. A member whose stored [doorflowPersonId] is set (truthy, as the
    guard of [POST] reads it) and is the id of a person of the fetched
    list is classified as matched with that same id: processing it appends
    the entry of the member, as loaded, with that id to [matched], leaves
    the three other buckets as they were, and changes nothing else: no
    store write, no SDK call, no group or photo update, whatever the flags.
    The entry is in the [matched] bucket of the result of every run that
    fetches this list and loads this member. *)
Theorem C9_linked_member_reaffirmed people peopleByEmail cm dr teamToGroupMap
    m res w linkedId p :
  doorflowPersonId m = Some linkedId → isLinked m = true →
  p ∈ people → person_id p = linkedId →
  let out := processMember toLowerCase clock people peopleByEmail cm dr
               teamToGroupMap m res w in
  out.1 = w
  ∧ out.2 = push_matched {| member := m; personId := linkedId |} res
  ∧ matched out.2 = matched res ++ [{| member := m; personId := linkedId |}]
  ∧ created out.2 = created res
  ∧ unmatched out.2 = unmatched res
  ∧ errors out.2 = errors res
  ∧ members_json out.1 = members_json w
  ∧ directory out.1 = directory w
  ∧ calls out.1 = calls w
  ∧ (∀ cm' dr' w0,
       listPeople (directory w0) = inr people → m ∈ members_json w0 →
       ∃ res0, (POST toLowerCase clock cm' dr' w0).2 = RespResults res0
         ∧ {| member := m; personId := linkedId |} ∈ matched res0).
Proof.
  intros Hl Hlinked Hin Hid.
  assert (Hnz : linkedId ≠ 0).
  { unfold isLinked, truthy_onumber, truthy_number in Hlinked.
    rewrite Hl in Hlinked. intros ->. by rewrite bool_decide_eq_true_2 in Hlinked. }
  cbv zeta. rewrite (processMember_present _ _ _ _ _ _ _ _ _ _ Hl Hnz Hin Hid).
  cbn [fst snd].
  split; [done|]. split; [done|]. split; [done|]. split; [done|]. split; [done|].
  split; [done|]. split; [done|]. split; [done|]. split; [done|].
  intros cm' dr' w0 Hlist Hmem. rewrite (POST_results _ _ _ _ Hlist). cbv zeta.
  eexists. split; [done|].
  apply (forEachMember_reaches people _ cm' dr' _ (members_json w0) m
           (λ r, {| member := m; personId := linkedId |} ∈ matched r)); [|done|].
  - intros r r' ((l & ->) & _) Hr. apply elem_of_app. by left.
  - intros res1 w1.
    rewrite (processMember_present _ _ _ _ _ _ _ _ _ _ Hl Hnz Hin Hid).
    simpl. apply elem_of_app. right. by left.
Qed.

(** *** Stale links (C3) *)

Lemma erase_links_push_matched e res :
  erase_links (push_matched e res)
  = push_matched {| member := eraseLink (member e); personId := personId e |}
      (erase_links res).
Proof. unfold erase_links, push_matched. simpl. by rewrite fmap_app. Qed.

Lemma erase_links_push_created e res :
  erase_links (push_created e res)
  = push_created {| member := eraseLink (member e); personId := personId e |}
      (erase_links res).
Proof. unfold erase_links, push_created. simpl. by rewrite fmap_app. Qed.

Lemma erase_links_push_unmatched m res :
  erase_links (push_unmatched m res) = push_unmatched (eraseLink m) (erase_links res).
Proof. unfold erase_links, push_unmatched. simpl. by rewrite fmap_app. Qed.

Lemma erase_links_push_errors e res :
  erase_links (push_errors e res)
  = push_errors {| failed_member := eraseLink (failed_member e); error := error e |}
      (erase_links res).
Proof. unfold erase_links, push_errors. simpl. by rewrite fmap_app. Qed.

(** [tryMatchMember] never reads the link of the member it is given: on
    the member with its link blanked it has the same effects and reports
    the same outcome. *)
Lemma tryMatchMember_ignores_link m peopleByEmail res cm dr teamToGroupMap
    photoBase64 w :
  let out := tryMatchMember toLowerCase clock m peopleByEmail res cm dr
               teamToGroupMap photoBase64 w in
  let out' := tryMatchMember toLowerCase clock (eraseLink m) peopleByEmail res
                cm dr teamToGroupMap photoBase64 w in
  out.1 = out'.1 ∧ erase_links out.2 = erase_links out'.2.
Proof.
  simpl.
  destruct (matchByEmail toLowerCase m peopleByEmail) as [p|] eqn:Hm.
  - rewrite (tryMatch_match m _ _ _ _ _ _ _ p Hm).
    rewrite (tryMatch_match (eraseLink m) _ _ _ _ _ _ _ p Hm).
    simpl. split; [done|]. by rewrite !erase_links_push_matched.
  - destruct cm; [destruct dr|].
    + rewrite (tryMatch_create_dry m), (tryMatch_create_dry (eraseLink m)) by done.
      simpl. split; [done|]. by rewrite !erase_links_push_created.
    + destruct (createPerson
                  (createInput m (getGroupIdsForMember m teamToGroupMap) photoBase64)
                  (directory w)).2 as [err|newPerson] eqn:Hc.
      * rewrite (tryMatch_create_failed m _ _ _ _ _ err Hm Hc).
        rewrite (tryMatch_create_failed (eraseLink m) _ _ _ _ _ err Hm Hc).
        simpl. split; [done|]. by rewrite !erase_links_push_errors.
      * rewrite (tryMatch_create_ok m _ _ _ _ _ newPerson Hm Hc).
        rewrite (tryMatch_create_ok (eraseLink m) _ _ _ _ _ newPerson Hm Hc).
        simpl. split; [done|]. by rewrite !erase_links_push_created.
    + rewrite (tryMatch_unmatched m), (tryMatch_unmatched (eraseLink m)) by done.
      simpl. split; [done|]. by rewrite !erase_links_push_unmatched.
Qed.

(** C3. A member whose [doorflowPersonId] is set (truthy) but is the id of
    no person of the fetched list is first unlinked in the store (the
    write is skipped in a dry run) and then handed to [tryMatchMember]
    in the same step, exactly as an unlinked member is: the step has the
    effects and the outcome that processing the member without its link
    has from the world after the unlinking. The step appends exactly one
    entry to one bucket, by the member's email and the flags: the member
    with the found person's id to [matched] on an email match; otherwise
    the member as loaded to [unmatched] without [createMissing], the member
    as loaded with id [0] to [created] in a dry run, and in a live run the
    member with the new person's id to [created], or the member as loaded
    with the failure's message to [errors]. In a live run the stored record
    ends with the found or created person's id, and with no link otherwise.
    The entry is in that bucket of the result of every run with these flags
    that fetches this list and loads this member. *)
Theorem C3_stale_link_self_heal people peopleByEmail cm dr teamToGroupMap
    m res w linkedId :
  doorflowPersonId m = Some linkedId → isLinked m = true →
  (∀ p, p ∈ people → person_id p ≠ linkedId) →
  let process := processMember toLowerCase clock people peopleByEmail cm dr
                   teamToGroupMap in
  let w1 := if dr then w else (updateMember clock (member_id m) None w).1 in
  let input := createInput m (getGroupIdsForMember m teamToGroupMap)
                 (photos w !! photoName toLowerCase m) in
  let linkedTo (pid : Z) := {| member := set_doorflowPersonId (Some pid) m;
                               personId := pid |} in
  let failure (message : string) := {| failed_member := m; error := message |} in
  let cleared := updatedRecord None (clock (ticks w)) m in
  process m res w
  = tryMatchMember toLowerCase clock m peopleByEmail res cm dr teamToGroupMap
      (photos w !! photoName toLowerCase m) w1
  ∧ (process m res w).1 = (process (eraseLink m) res w1).1
  ∧ erase_links (process m res w).2 = erase_links (process (eraseLink m) res w1).2
  ∧ (dr = true → w1 = w)
  ∧ (dr = false → ∀ pre post,
       members_json w = pre ++ m :: post →
       member_id m ∉ member_id <$> pre →
       members_json w1 = pre ++ cleared :: post)
  ∧ (process m res w).2
    = match matchByEmail toLowerCase m peopleByEmail with
      | Some p =>
          {| matched := matched res ++ [linkedTo (person_id p)];
             created := created res; unmatched := unmatched res;
             errors := errors res |}
      | None =>
          if cm then
            if dr then
              {| matched := matched res;
                 created := created res ++ [{| member := m; personId := 0 |}];
                 unmatched := unmatched res; errors := errors res |}
            else
              match (createPerson input (directory w)).2 with
              | inr newPerson =>
                  {| matched := matched res;
                     created := created res ++ [linkedTo (person_id newPerson)];
                     unmatched := unmatched res; errors := errors res |}
              | inl (ThrownResponseError _ _ message) | inl (ThrownError message) =>
                  {| matched := matched res; created := created res;
                     unmatched := unmatched res;
                     errors := errors res ++ [failure message] |}
              | inl ThrownOther =>
                  {| matched := matched res; created := created res;
                     unmatched := unmatched res;
                     errors := errors res ++ [failure "Failed to create person"] |}
              end
          else
            {| matched := matched res; created := created res;
               unmatched := unmatched res ++ [m]; errors := errors res |}
      end
  ∧ (dr = false → ∀ pre post,
       members_json w = pre ++ m :: post →
       member_id m ∉ member_id <$> pre →
       members_json (process m res w).1
       = pre ++ match matchByEmail toLowerCase m peopleByEmail with
                | Some p =>
                    updatedRecord (Some (person_id p)) (clock (S (ticks w))) cleared
                | None =>
                    if cm then
                      match (createPerson input (directory w)).2 with
                      | inr newPerson =>
                          updatedRecord (Some (person_id newPerson))
                            (clock (S (ticks w))) cleared
                      | inl _ => cleared
                      end
                    else cleared
                end :: post)
  ∧ (dr = false → ∀ pre post,
       members_json w = pre ++ m :: post →
       member_id m ∉ member_id <$> pre →
       doorflowPersonId <$> members_json w1
       = (doorflowPersonId <$> pre) ++ None :: (doorflowPersonId <$> post)
       ∧ doorflowPersonId <$> members_json (process m res w).1
         = (doorflowPersonId <$> pre)
           ++ match matchByEmail toLowerCase m peopleByEmail with
              | Some p => Some (person_id p)
              | None =>
                  if cm then
                    match (createPerson input (directory w)).2 with
                    | inr newPerson => Some (person_id newPerson)
                    | inl _ => None
                    end
                  else None
              end :: (doorflowPersonId <$> post))
  ∧ (∀ pid, doorflowPersonId (member (linkedTo pid)) = Some pid)
  ∧ (∀ w0,
       listPeople (directory w0) = inr people → m ∈ members_json w0 →
       ∃ res0, (POST toLowerCase clock cm dr w0).2 = RespResults res0
         ∧ match matchByEmail toLowerCase m (buildPeopleByEmail toLowerCase people) with
           | Some p => linkedTo (person_id p) ∈ matched res0
           | None =>
               if cm then
                 if dr then {| member := m; personId := 0 |} ∈ created res0
                 else (∃ pid, linkedTo pid ∈ created res0)
                      ∨ (∃ message, failure message ∈ errors res0)
               else m ∈ unmatched res0
           end).
Proof.
  intros Hl Hlinked Hnone.
  assert (Hnz : linkedId ≠ 0).
  { unfold isLinked, truthy_onumber, truthy_number in Hlinked.
    rewrite Hl in Hlinked. intros ->. by rewrite bool_decide_eq_true_2 in Hlinked. }
  cbv zeta.
  set (photo := photos w !! photoName toLowerCase m).
  set (w1 := if dr then w else (updateMember clock (member_id m) None w).1).
  assert (Hstale : ∀ idx cm' dr' tg res' w',
            processMember toLowerCase clock people idx cm' dr' tg m res' w'
            = tryMatchMember toLowerCase clock m idx res' cm' dr' tg
                (photos w' !! photoName toLowerCase m)
                (if dr' then w' else (updateMember clock (member_id m) None w').1)).
  { intros. by apply (processMember_stale _ _ _ _ _ _ _ _ _ Hl Hnz Hnone). }
  assert (Hdir1 : directory w1 = directory w).
  { unfold w1. destruct dr; [done|].
    by destruct (updateMember_frame (member_id m) None w) as (_ & _ & -> & _). }
  rewrite !Hstale. fold photo w1.
  rewrite (processMember_unlinked _ _ _ _ _ (eraseLink m)) by done.
  assert (Hph : photos w1 = photos w).
  { unfold w1. destruct dr; [done|].
    by destruct (updateMember_frame (member_id m) None w) as (_ & -> & _). }
  rewrite Hph. fold photo.
  split; [done|].
  split; [apply tryMatchMember_ignores_link|].
  split; [apply tryMatchMember_ignores_link|].
  split; [unfold w1; by intros ->|].
  assert (Hclear : dr = false → ∀ pre post,
            members_json w = pre ++ m :: post →
            member_id m ∉ member_id <$> pre →
            members_json w1
            = pre ++ updatedRecord None (clock (ticks w)) m :: post).
  { unfold w1. intros -> pre post Hw Hpre. by apply updateMember_at. }
  split; [exact Hclear|].
  assert (Hstore : dr = false → ∀ pre post,
            members_json w = pre ++ m :: post →
            member_id m ∉ member_id <$> pre →
            members_json
              (tryMatchMember toLowerCase clock m peopleByEmail res cm dr
                 teamToGroupMap photo w1).1
            = pre ++ match matchByEmail toLowerCase m peopleByEmail with
                     | Some p =>
                         updatedRecord (Some (person_id p)) (clock (S (ticks w)))
                           (updatedRecord None (clock (ticks w)) m)
                     | None =>
                         if cm then
                           match (createPerson
                                    (createInput m
                                       (getGroupIdsForMember m teamToGroupMap) photo)
                                    (directory w)).2 with
                           | inr newPerson =>
                               updatedRecord (Some (person_id newPerson))
                                 (clock (S (ticks w)))
                                 (updatedRecord None (clock (ticks w)) m)
                           | inl _ => updatedRecord None (clock (ticks w)) m
                           end
                         else updatedRecord None (clock (ticks w)) m
                     end :: post);
    [|split; [|split; [exact Hstore|split; [|split; [done|]]]]].
  - clear Hclear.
    intros Hdr pre post Hw Hpre. unfold w1 in *. rewrite Hdr in *. clear Hdr.
    set (w2 := (updateMember clock (member_id m) None w).1) in *.
    set (cleared := updatedRecord None (clock (ticks w)) m).
    assert (Hw2 : members_json w2 = pre ++ cleared :: post)
      by (by apply updateMember_at).
    assert (Ht2 : ticks w2 = S (ticks w))
      by (by apply (updateMember_ticks_at _ _ pre m post)).
    assert (Hrelink : ∀ v w3, members_json w3 = members_json w2 →
              ticks w3 = ticks w2 →
              members_json (updateMember clock (member_id m) v w3).1
              = pre ++ updatedRecord v (clock (S (ticks w))) cleared :: post).
    { intros v w3 Hm3 Ht3. rewrite Hw2 in Hm3.
      pose proof (updateMember_at v w3 pre cleared post Hm3 Hpre) as Hat.
      simpl in Hat. by rewrite Ht3, Ht2 in Hat. }
    destruct (matchByEmail toLowerCase m peopleByEmail) as [p|] eqn:Hm.
    + rewrite (tryMatch_match _ _ _ _ _ _ _ _ _ Hm). cbn [fst].
      destruct (afterUpdate_frame (person_id p)
                  (getGroupIdsForMember m teamToGroupMap) photo
                  (updateMember clock (member_id m) (Some (person_id p)) w2).1)
        as (-> & _).
      by apply Hrelink.
    + destruct cm.
      * rewrite <- Hdir1.
        destruct (createPerson
                    (createInput m (getGroupIdsForMember m teamToGroupMap) photo)
                    (directory w2)).2 as [err|newPerson] eqn:Hc.
        -- by rewrite (tryMatch_create_failed _ _ _ _ _ _ err Hm Hc).
        -- rewrite (tryMatch_create_ok _ _ _ _ _ _ newPerson Hm Hc). cbn [fst].
           by apply Hrelink.
      * by rewrite tryMatch_unmatched.
  - destruct (matchByEmail toLowerCase m peopleByEmail) as [p|] eqn:Hm.
    + by rewrite (tryMatch_match _ _ _ _ _ _ _ _ _ Hm).
    + destruct cm; [destruct dr|].
      * by rewrite tryMatch_create_dry.
      * rewrite <- Hdir1.
        destruct (createPerson
                    (createInput m (getGroupIdsForMember m teamToGroupMap) photo)
                    (directory w1)).2 as [err|newPerson] eqn:Hc.
        -- rewrite (tryMatch_create_failed _ _ _ _ _ _ err Hm Hc).
           by destruct err.
        -- by rewrite (tryMatch_create_ok _ _ _ _ _ _ newPerson Hm Hc).
      * by rewrite tryMatch_unmatched.
  - intros Hdr pre post Hw Hpre.
    rewrite (Hclear Hdr pre post Hw Hpre), (Hstore Hdr pre post Hw Hpre).
    rewrite !fmap_app, !fmap_cons. split; [done|]. do 2 f_equal.
    destruct (matchByEmail toLowerCase m peopleByEmail) as [p|]; [done|].
    destruct cm; [|done]. by destruct (createPerson _ _).2.
  - intros w0 Hlist Hmem. rewrite (POST_results _ _ _ _ Hlist). cbv zeta.
    eexists. split; [done|].
    set (idx := buildPeopleByEmail toLowerCase people).
    destruct (matchByEmail toLowerCase m idx) as [p|] eqn:Hm;
      [|destruct cm; [destruct dr|]].
    + apply (forEachMember_reaches people idx cm dr _ (members_json w0) m
               (λ r, {| member := set_doorflowPersonId (Some (person_id p)) m;
                        personId := person_id p |} ∈ matched r)); [|done|].
      * intros r r' ((l & ->) & _) Hr. apply elem_of_app. by left.
      * intros res1 w'. rewrite Hstale, (tryMatch_match _ _ _ _ _ _ _ _ _ Hm).
        simpl. apply elem_of_app. right. by left.
    + apply (forEachMember_reaches people idx true true _ (members_json w0) m
               (λ r, {| member := m; personId := 0 |} ∈ created r)); [|done|].
      * intros r r' (_ & (l & ->) & _) Hr. apply elem_of_app. by left.
      * intros res1 w'. rewrite Hstale, tryMatch_create_dry by done.
        simpl. apply elem_of_app. right. by left.
    + apply (forEachMember_reaches people idx true false _ (members_json w0) m
               (λ r, (∃ pid, {| member := set_doorflowPersonId (Some pid) m;
                                personId := pid |} ∈ created r)
                     ∨ (∃ message, {| failed_member := m; error := message |}
                                   ∈ errors r))); [|done|].
      * intros r r' (_ & (l & ->) & _ & (l' & ->)) [(pid & Hr)|(msg & Hr)].
        -- left. exists pid. apply elem_of_app. by left.
        -- right. exists msg. apply elem_of_app. by left.
      * intros res1 w'. rewrite Hstale.
        destruct (createPerson
                    (createInput m (getGroupIdsForMember m
                                      (buildTeamToGroupMap (teams_json w0)))
                       (photos w' !! photoName toLowerCase m))
                    (directory (updateMember clock (member_id m) None w').1)).2
          as [err|newPerson] eqn:Hc.
        -- rewrite (tryMatch_create_failed _ _ _ _ _ _ err Hm Hc). right.
           eexists. simpl. apply elem_of_app. right. by left.
        -- rewrite (tryMatch_create_ok _ _ _ _ _ _ newPerson Hm Hc). left.
           eexists. simpl. apply elem_of_app. right. by left.
    + apply (forEachMember_reaches people idx false dr _ (members_json w0) m
               (λ r, m ∈ unmatched r)); [|done|].
      * intros r r' (_ & _ & (l & ->) & _) Hr. apply elem_of_app. by left.
      * intros res1 w'. rewrite Hstale, tryMatch_unmatched by done.
        simpl. apply elem_of_app. right. by left.
Qed.

(** *** Email matches in live mode (C6) *)

(** C6. On an email match with [dryRun = false] the engine persists the
    link, and sends one [updatePerson] carrying the derived group ids (when
    there is one at least) and the encoded photo (when there is one) if
    and only if there is a group id or a photo; when both are absent no
    SDK call is made. The input of the call has no other key: [groupIds]
    is the derived list when it is not empty, [imageBase64] is the photo
    when it is a non-empty string. A failure of the update adds one line to
    the console and nothing else: the member, with the matched person's id
    for link, is appended to [matched] with that id, and the other buckets
    are as they were, whether the update succeeded or failed. *)
Theorem C6_match_update_best_effort m peopleByEmail res cm teamToGroupMap
    photoBase64 w p :
  matchByEmail toLowerCase m peopleByEmail = Some p →
  let groupIds := getGroupIdsForMember m teamToGroupMap in
  let pid := person_id p in
  let w1 := (updateMember clock (member_id m) (Some pid) w).1 in
  let input := updateInput groupIds photoBase64 in
  let r := updatePerson pid input (directory w1) in
  let out := tryMatchMember toLowerCase clock m peopleByEmail res cm false
               teamToGroupMap photoBase64 w in
  out.2 = push_matched {| member := set_doorflowPersonId (Some pid) m;
                          personId := pid |} res
  ∧ matched out.2 = matched res ++ [{| member := set_doorflowPersonId (Some pid) m;
                                       personId := pid |}]
  ∧ doorflowPersonId (set_doorflowPersonId (Some pid) m) = Some pid
  ∧ created out.2 = created res
  ∧ unmatched out.2 = unmatched res
  ∧ errors out.2 = errors res
  ∧ members_json out.1 = members_json w1
  ∧ (∀ pre post, members_json w = pre ++ m :: post →
       member_id m ∉ member_id <$> pre →
       members_json out.1
       = pre ++ updatedRecord (Some pid) (clock (ticks w)) m :: post)
  ∧ (∀ pre post, members_json w = pre ++ m :: post →
       member_id m ∉ member_id <$> pre →
       doorflowPersonId <$> members_json out.1
       = (doorflowPersonId <$> pre) ++ Some pid :: (doorflowPersonId <$> post))
  ∧ input = {| in_firstName := None; in_lastName := None; in_email := None;
               in_telephone := None; in_department := None; in_jobTitle := None;
               in_notes := None; in_organisationId := None; in_custom1 := None;
               in_enabled := None; in_systemId := None;
               in_groupIds := match groupIds with
                              | [] => None
                              | _ :: _ => Some groupIds
                              end;
               in_imageBase64 := match photoBase64 with
                                 | Some EmptyString | None => None
                                 | Some (String _ _) => photoBase64
                                 end |}
  ∧ (truthy_ostring photoBase64 = true ↔
     ∃ s, photoBase64 = Some s ∧ s ≠ ""%string)
  ∧ (groupIds = [] → truthy_ostring photoBase64 = false →
       out.1 = w1 ∧ calls out.1 = calls w ∧ directory out.1 = directory w
       ∧ console out.1 = console w)
  ∧ (groupIds ≠ [] ∨ truthy_ostring photoBase64 = true →
       calls out.1 = calls w ++ [CallUpdatePerson pid input]
       ∧ in_groupIds input = (if decide (groupIds = []) then None else Some groupIds)
       ∧ in_imageBase64 input = or_null photoBase64
       ∧ directory out.1 = r.1
       ∧ console out.1
         = console w ++ match r.2 with
                        | inl err => [LogUpdateFailed pid err]
                        | inr _ => []
                        end).
Proof.
  intros Hm. simpl. rewrite (tryMatch_match _ _ _ _ _ _ _ _ _ Hm). simpl.
  set (groupIds := getGroupIdsForMember m teamToGroupMap).
  set (pid := person_id p).
  set (w1 := (updateMember clock (member_id m) (Some pid) w).1).
  destruct (updateMember_frame (member_id m) (Some pid) w)
    as (_ & _ & Hdir & Hcalls & Hcons).
  fold w1 in Hdir, Hcalls, Hcons.
  split; [done|]. split; [done|]. split; [done|]. split; [done|].
  split; [done|]. split; [done|].
  split; [apply afterUpdate_frame|].
  split.
  { intros pre post Hw Hpre.
    destruct (afterUpdate_frame pid groupIds photoBase64 w1) as (-> & _).
    by apply updateMember_at. }
  split.
  { intros pre post Hw Hpre.
    destruct (afterUpdate_frame pid groupIds photoBase64 w1) as (-> & _).
    unfold w1. rewrite (updateMember_at _ _ pre m post Hw Hpre).
    by rewrite fmap_app, fmap_cons. }
  split.
  { unfold updateInput. f_equal.
    - by destruct groupIds.
    - by destruct photoBase64 as [[|c s]|]. }
  split.
  { destruct photoBase64 as [[|c s]|]; simpl; split; try done.
    - by intros (s & [= <-] & Hs).
    - intros _. by eexists.
    - by intros (s & ? & _). }
  unfold afterUpdate. split.
  - intros Hg Hp. rewrite Hg, Hp. simpl. by rewrite Hdir, Hcalls, Hcons.
  - intros Hsome.
    assert (Hcond : bool_decide (0 < length groupIds)%nat
                    || truthy_ostring photoBase64 = true).
    { destruct Hsome as [Hg| ->]; [|by rewrite orb_true_r].
      rewrite bool_decide_eq_true_2; [done|]. destruct groupIds; [done|simpl; lia]. }
    rewrite Hcond.
    split; [|split; [|split; [done|]]].
    + destruct (updatePerson _ _ _) as [r' [err|[]]]; simpl; by rewrite Hcalls.
    + simpl. destruct groupIds as [|g gs]; [done|].
      by rewrite bool_decide_eq_true_2 by (simpl; lia).
    + destruct (updatePerson _ _ _) as [r' [err|[]]]; simpl;
        rewrite ?Hcons, ?app_nil_r; done.
Qed.

(** *** Dry runs (C2) *)

Lemma tryMatchMember_dry m peopleByEmail res cm teamToGroupMap photoBase64 w :
  (tryMatchMember toLowerCase clock m peopleByEmail res cm true teamToGroupMap
     photoBase64 w).1 = w.
Proof.
  destruct (matchByEmail toLowerCase m peopleByEmail) as [p|] eqn:Hm.
  - by rewrite (tryMatch_match _ _ _ _ _ _ _ _ _ Hm).
  - destruct cm.
    + by rewrite tryMatch_create_dry.
    + by rewrite tryMatch_unmatched.
Qed.

Lemma processMember_dry people peopleByEmail cm teamToGroupMap m res w :
  (processMember toLowerCase clock people peopleByEmail cm true teamToGroupMap
     m res w).1 = w.
Proof.
  destruct (processMember_cases people m)
    as [Hu|[(n & p & Hl & Hnz & Hin & Hid)|(n & Hl & Hnz & Hnone)]].
  - rewrite processMember_unlinked by done. apply tryMatchMember_dry.
  - by rewrite (processMember_present _ _ _ _ _ _ _ _ _ _ Hl Hnz Hin Hid).
  - rewrite (processMember_stale _ _ _ _ _ _ _ _ _ Hl Hnz Hnone).
    apply tryMatchMember_dry.
Qed.

Lemma forEachMember_dry people peopleByEmail cm teamToGroupMap members res w :
  (forEachMember
     (processMember toLowerCase clock people peopleByEmail cm true teamToGroupMap)
     members res w).1 = w.
Proof.
  revert res w. induction members as [|m members IH]; intros res w; [done|].
  simpl. unfold bind. simpl. rewrite IH. apply processMember_dry.
Qed.

Lemma validStatus_spec status :
  validStatus status
  = bool_decide (200 ≤ status ≤ 599 ∧ status ∉ [204; 205; 304]).
Proof.
  unfold validStatus, nullBodyStatus.
  destruct (decide (200 ≤ status ≤ 599)) as [Hr|Hr].
  - rewrite (bool_decide_eq_true_2 _ Hr). simpl.
    destruct (decide (status ∈ [204; 205; 304])) as [Hin|Hn].
    + rewrite bool_decide_eq_true_2 by set_solver. simpl.
      symmetry. apply bool_decide_eq_false. by intros [_ ?].
    + rewrite bool_decide_eq_false_2.
      * symmetry. by apply bool_decide_eq_true.
      * intros Hin. apply Hn.
        apply elem_of_cons in Hin as [->|Hin]; [lia|].
        apply elem_of_cons in Hin as [->|Hin]; [lia|]. done.
  - rewrite (bool_decide_eq_false_2 _ Hr). simpl.
    symmetry. apply bool_decide_eq_false. by intros [? _].
Qed.

(** The [catch] of [POST] writes to the console and nowhere else. *)
Lemma handleError_frame err w :
  let w' := (handleError err w).1 in
  members_json w' = members_json w ∧ teams_json w' = teams_json w
  ∧ photos w' = photos w ∧ directory w' = directory w
  ∧ calls w' = calls w ∧ ticks w' = ticks w
  ∧ ∃ more, console w' = console w ++ LogSyncError err :: more.
Proof.
  unfold handleError, bind, ret, console_error.
  destruct err as [status [b|] msg|msg|]; simpl;
    try destruct (bool_decide (status = 401)); simpl;
    try destruct (validStatus status); simpl;
    repeat (split; [done|]); eexists; rewrite <- ?app_assoc; simpl; done.
Qed.

(** C2. A run with [dryRun = true] leaves the member store, the team
    store, the photo directory and the remote directory as they were, for
    any [createMissing] and any members: the only SDK call of the run is
    the listing, so no [createPerson] and no [updatePerson] is issued, and
    no [updateMember] is persisted (the clock is not even read). *)
Theorem C2_dry_run_changes_nothing cm w :
  let w' := (POST toLowerCase clock cm true w).1 in
  members_json w' = members_json w
  ∧ teams_json w' = teams_json w
  ∧ photos w' = photos w
  ∧ directory w' = directory w
  ∧ calls w' = calls w ++ [CallListPeople]
  ∧ ticks w' = ticks w.
Proof.
  unfold POST, bind, ret, loadAllMembers, loadAllTeams, sdk_listPeople. simpl.
  destruct (listPeople (directory w)) as [err|people]; simpl.
  - by destruct (handleError_frame err (log_call CallListPeople w))
      as (-> & -> & -> & -> & -> & -> & _).
  - by rewrite forEachMember_dry.
Qed.

(** *** Bucket exclusivity (C1) *)

Lemma bucket_members_push_matched e res :
  bucket_members (push_matched e res) ≡ₚ member e :: bucket_members res.
Proof.
  unfold bucket_members, push_matched. simpl. rewrite fmap_app. simpl.
  rewrite <- app_assoc. simpl. by rewrite <- Permutation_middle.
Qed.

Lemma bucket_members_push_created e res :
  bucket_members (push_created e res) ≡ₚ member e :: bucket_members res.
Proof.
  unfold bucket_members, push_created. simpl. rewrite fmap_app. simpl.
  rewrite <- !app_assoc. simpl.
  by rewrite (Permutation_middle (member <$> matched res)), <- Permutation_middle.
Qed.

Lemma bucket_members_push_unmatched m res :
  bucket_members (push_unmatched m res) ≡ₚ m :: bucket_members res.
Proof.
  unfold bucket_members, push_unmatched. simpl.
  rewrite <- !app_assoc. simpl.
  rewrite (Permutation_middle (member <$> matched res)).
  rewrite (Permutation_middle (member <$> created res)).
  by rewrite <- Permutation_middle.
Qed.

Lemma bucket_members_push_errors e res :
  bucket_members (push_errors e res) ≡ₚ failed_member e :: bucket_members res.
Proof.
  unfold bucket_members, push_errors. simpl. rewrite fmap_app. simpl.
  rewrite !app_assoc. by rewrite <- Permutation_cons_append.
Qed.

Lemma tryMatchMember_bucket m peopleByEmail res cm dr teamToGroupMap photoBase64 w :
  ∃ m', eraseLink m' = eraseLink m
        ∧ bucket_members
            (tryMatchMember toLowerCase clock m peopleByEmail res cm dr
               teamToGroupMap photoBase64 w).2
          ≡ₚ m' :: bucket_members res.
Proof.
  destruct (matchByEmail toLowerCase m peopleByEmail) as [p|] eqn:Hm.
  - rewrite (tryMatch_match _ _ _ _ _ _ _ _ _ Hm). simpl.
    eexists. split; [|apply bucket_members_push_matched]. done.
  - destruct cm; [destruct dr|].
    + rewrite tryMatch_create_dry by done. simpl.
      eexists. split; [|apply bucket_members_push_created]. done.
    + destruct (createPerson
                  (createInput m (getGroupIdsForMember m teamToGroupMap) photoBase64)
                  (directory w)).2 as [err|newPerson] eqn:Hc.
      * rewrite (tryMatch_create_failed _ _ _ _ _ _ err Hm Hc). simpl.
        eexists. split; [|apply bucket_members_push_errors]. done.
      * rewrite (tryMatch_create_ok _ _ _ _ _ _ newPerson Hm Hc). simpl.
        eexists. split; [|apply bucket_members_push_created]. done.
    + rewrite tryMatch_unmatched by done. simpl.
      eexists. split; [|apply bucket_members_push_unmatched]. done.
Qed.

Lemma processMember_bucket people peopleByEmail cm dr teamToGroupMap m res w :
  ∃ m', eraseLink m' = eraseLink m
        ∧ bucket_members
            (processMember toLowerCase clock people peopleByEmail cm dr
               teamToGroupMap m res w).2
          ≡ₚ m' :: bucket_members res.
Proof.
  destruct (processMember_cases people m)
    as [Hu|[(n & p & Hl & Hnz & Hin & Hid)|(n & Hl & Hnz & Hnone)]].
  - rewrite processMember_unlinked by done. apply tryMatchMember_bucket.
  - rewrite (processMember_present _ _ _ _ _ _ _ _ _ _ Hl Hnz Hin Hid). simpl.
    exists m. split; [done|]. apply bucket_members_push_matched.
  - rewrite (processMember_stale _ _ _ _ _ _ _ _ _ Hl Hnz Hnone).
    apply tryMatchMember_bucket.
Qed.

Lemma forEachMember_buckets people peopleByEmail cm dr teamToGroupMap members res w :
  eraseLink <$>
    bucket_members
      (forEachMember
         (processMember toLowerCase clock people peopleByEmail cm dr teamToGroupMap)
         members res w).2
  ≡ₚ (eraseLink <$> bucket_members res) ++ (eraseLink <$> members).
Proof.
  revert res w. induction members as [|m members IH]; intros res w; simpl.
  - by rewrite app_nil_r.
  - unfold bind. simpl. rewrite IH.
    destruct (processMember_bucket people peopleByEmail cm dr teamToGroupMap m res w)
      as (m' & Hm' & Hperm).
    rewrite Hperm. simpl. rewrite Hm'. by rewrite <- Permutation_middle.
Qed.

(** The run goes through whenever the listing does. *)
(** C1. Whenever the listing succeeds the run returns a result, for any
    [createMissing] and [dryRun], and the members of its four buckets are,
    up to the link field the engine fills in, exactly the loaded members,
    each one once: none is dropped and none is reported twice. With one
    stored member per id, no id occurs twice across or within the buckets. *)
Theorem C1_bucket_exclusivity cm dr w people :
  listPeople (directory w) = inr people →
  ∃ res, (POST toLowerCase clock cm dr w).2 = RespResults res
    ∧ eraseLink <$> bucket_members res ≡ₚ eraseLink <$> members_json w
    ∧ (length (matched res) + length (created res) + length (unmatched res)
        + length (errors res) = length (members_json w))%nat
    ∧ (NoDup (member_id <$> members_json w) →
       NoDup ((member_id ∘ member <$> matched res)
                ++ (member_id ∘ member <$> created res)
                ++ (member_id <$> unmatched res)
                ++ (member_id ∘ failed_member <$> errors res))).
Proof.
  intros Hl. rewrite (POST_results _ _ _ _ Hl). simpl.
  eexists. split; [done|].
  pose proof (forEachMember_buckets people (buildPeopleByEmail toLowerCase people)
                cm dr (buildTeamToGroupMap (teams_json w)) (members_json w)
                emptyResults (log_call CallListPeople w)) as Hperm.
  simpl in Hperm. split; [done|].
  set (res := (forEachMember _ _ _ _).2) in *.
  split.
  - apply Permutation_length in Hperm. rewrite !length_fmap in Hperm.
    unfold bucket_members in Hperm. rewrite !length_app, !length_fmap in Hperm.
    lia.
  - intros Hnd.
    assert (Hids : member_id <$> bucket_members res ≡ₚ member_id <$> members_json w).
    { assert (He : ∀ l : list CrmMember,
                member_id <$> l = member_id <$> (eraseLink <$> l)).
      { intros l. by rewrite <- list_fmap_compose. }
      rewrite (He (bucket_members res)), (He (members_json w)).
      by rewrite Hperm. }
    rewrite <- Hids in Hnd. unfold bucket_members in Hnd.
    by rewrite !fmap_app, <- !list_fmap_compose in Hnd.
Qed.

(** *** Matching by email (C4) *)

Lemma buildPeopleByEmail_snoc people q :
  buildPeopleByEmail toLowerCase (people ++ [q])
  = if truthy_ostring (person_email q)
    then <[toLowerCase (default ""%string (person_email q)) := q]>
           (buildPeopleByEmail toLowerCase people)
    else buildPeopleByEmail toLowerCase people.
Proof.
  unfold buildPeopleByEmail. rewrite List.filter_app. simpl.
  destruct (truthy_ostring (person_email q)).
  - rewrite fmap_app. apply Map_new_snoc.
  - by rewrite app_nil_r.
Qed.

Lemma truthy_ostring_Some o :
  truthy_ostring o = true ↔ ∃ e, o = Some e ∧ e ≠ ""%string.
Proof.
  unfold truthy_ostring, truthy_string. destruct o as [e|].
  - rewrite negb_true_iff, bool_decide_eq_false. split.
    + intros He. by exists e.
    + by intros (e' & [= <-] & He).
  - split; [done|]. by intros (? & ? & _).
Qed.

(** The person found under a key is the last person of the list whose
    email is truthy and lower-cases to that key. *)
Lemma buildPeopleByEmail_lookup people k p :
  buildPeopleByEmail toLowerCase people !! k = Some p ↔
  ∃ l1 l2 e, people = l1 ++ p :: l2
    ∧ person_email p = Some e ∧ e ≠ ""%string ∧ toLowerCase e = k
    ∧ ∀ q e', q ∈ l2 → person_email q = Some e' → e' ≠ ""%string →
              toLowerCase e' ≠ k.
Proof.
  induction people as [|q people IH] using rev_ind.
  - split; [done|]. intros (l1 & l2 & e & Hl & _). by destruct l1.
  - rewrite buildPeopleByEmail_snoc.
    assert (Hsplit : ∀ l1 l2, people ++ [q] = l1 ++ p :: l2 →
              (l2 = [] ∧ l1 = people ∧ p = q)
              ∨ ∃ l2', l2 = l2' ++ [q] ∧ people = l1 ++ p :: l2').
    { intros l1 l2 Hl. destruct l2 as [|x l2 _] using rev_ind.
      - apply app_inj_tail in Hl as [-> ->]. by left.
      - rewrite app_comm_cons, app_assoc in Hl.
        apply app_inj_tail in Hl as [-> ->]. right. by exists l2. }
    destruct (truthy_ostring (person_email q)) eqn:Hq.
    + apply truthy_ostring_Some in Hq as (eq & Heq & Hne). rewrite Heq. simpl.
      destruct (decide (toLowerCase eq = k)) as [Hk|Hk].
      * rewrite Hk, lookup_insert_eq. split.
        -- intros [= <-]. exists people, [], eq. repeat split; [done..|].
           intros q' e' Hin. by apply elem_of_nil in Hin.
        -- intros (l1 & l2 & e & Hl & He & Hne' & Hke & Hlast).
           destruct (Hsplit _ _ Hl) as [(_ & _ & ->)|(l2' & -> & _)]; [done|].
           exfalso. apply (Hlast q eq); [set_solver|done..].
      * rewrite lookup_insert_ne by done. rewrite IH. split.
        -- intros (l1 & l2 & e & -> & He & Hne' & Hke & Hlast).
           exists l1, (l2 ++ [q]), e. split; [by rewrite <- app_assoc|].
           repeat split; [done..|].
           intros q' e' [Hin| ->%list_elem_of_singleton]%elem_of_app He' Hne''.
           ++ by apply (Hlast q' e').
           ++ congruence.
        -- intros (l1 & l2 & e & Hl & He & Hne' & Hke & Hlast).
           destruct (Hsplit _ _ Hl) as [(_ & _ & ->)|(l2' & -> & ->)];
             [congruence|].
           exists l1, l2', e. repeat split; [done..|].
           intros q' e' Hin. apply Hlast. set_solver.
    + assert (Hnone : ∀ e, person_email q = Some e → e = ""%string).
      { intros e He. destruct (decide (e = ""%string)) as [|Hne]; [done|].
        assert (truthy_ostring (person_email q) = true) as Ht
          by (apply truthy_ostring_Some; by exists e).
        congruence. }
      rewrite IH. split.
      * intros (l1 & l2 & e & -> & He & Hne' & Hke & Hlast).
        exists l1, (l2 ++ [q]), e. split; [by rewrite <- app_assoc|].
        repeat split; [done..|].
        intros q' e' [Hin| ->%list_elem_of_singleton]%elem_of_app He' Hne''.
        -- by apply (Hlast q' e').
        -- by apply Hnone in He'.
      * intros (l1 & l2 & e & Hl & He & Hne' & Hke & Hlast).
        destruct (Hsplit _ _ Hl) as [(_ & _ & ->)|(l2' & -> & ->)].
        -- by apply Hnone in He.
        -- exists l1, l2', e. repeat split; [done..|].
           intros q' e' Hin. apply Hlast. set_solver.
Qed.

Lemma buildPeopleByEmail_lookup_None people k :
  buildPeopleByEmail toLowerCase people !! k = None ↔
  ∀ q e, q ∈ people → person_email q = Some e → e ≠ ""%string →
         toLowerCase e ≠ k.
Proof.
  induction people as [|q people IH] using rev_ind.
  - split; [|done]. intros _ q e Hin. by apply elem_of_nil in Hin.
  - rewrite buildPeopleByEmail_snoc.
    destruct (truthy_ostring (person_email q)) eqn:Hq.
    + apply truthy_ostring_Some in Hq as (eq & Heq & Hne). rewrite Heq. simpl.
      rewrite lookup_insert_None, IH. split.
      * intros [Hall Hk] q' e' [Hin| ->%list_elem_of_singleton]%elem_of_app He' Hne'.
        -- by apply (Hall q' e').
        -- congruence.
      * intros Hall. split.
        -- intros q' e' Hin. apply Hall. set_solver.
        -- apply (Hall q eq); [set_solver|done..].
    + rewrite IH. split.
      * intros Hall q' e' [Hin| ->%list_elem_of_singleton]%elem_of_app He' Hne'.
        -- by apply (Hall q' e').
        -- assert (truthy_ostring (person_email q) = true) as Ht
             by (apply truthy_ostring_Some; by exists e').
           congruence.
      * intros Hall q' e' Hin. apply Hall. set_solver.
Qed.

(** C4. Given that lower-casing maps the empty string, and only it, to the
    empty string: the email lookup of [tryMatchMember] finds person [p]
    for a member if and only if [p] is in the fetched list with an email
    whose lower-casing equals the lower-casing of the member's email, and
    no later person of the list has such an email. So a person without an
    email (absent or empty) is never found, of two people with the same
    lower-cased email the later one is found, and the member is pushed to
    [matched] with the id of the person found. *)
Theorem C4_email_matching :
  (∀ s, toLowerCase s = ""%string ↔ s = ""%string) →
  (∀ m people p,
     matchByEmail toLowerCase m (buildPeopleByEmail toLowerCase people) = Some p ↔
     ∃ l1 l2 e, people = l1 ++ p :: l2
       ∧ person_email p = Some e ∧ e ≠ ""%string
       ∧ toLowerCase (email m) = toLowerCase e
       ∧ ∀ q e', q ∈ l2 → person_email q = Some e' → e' ≠ ""%string →
                 toLowerCase (email m) ≠ toLowerCase e')
  ∧ (∀ m people p,
       truthy_ostring (person_email p) = false →
       matchByEmail toLowerCase m (buildPeopleByEmail toLowerCase people) ≠ Some p)
  ∧ (∀ m l1 p1 l2 p2 l3 e1 e2,
       person_email p1 = Some e1 → person_email p2 = Some e2 →
       e1 ≠ ""%string → e2 ≠ ""%string →
       toLowerCase e1 = toLowerCase e2 →
       toLowerCase (email m) = toLowerCase e1 →
       ∃ p, matchByEmail toLowerCase m
              (buildPeopleByEmail toLowerCase (l1 ++ p1 :: l2 ++ p2 :: l3)) = Some p
            ∧ p ∈ p2 :: l3)
  ∧ (∀ m people p res cm dr teamToGroupMap photoBase64 w,
       matchByEmail toLowerCase m (buildPeopleByEmail toLowerCase people) = Some p →
       (tryMatchMember toLowerCase clock m (buildPeopleByEmail toLowerCase people)
          res cm dr teamToGroupMap photoBase64 w).2
       = push_matched {| member := set_doorflowPersonId (Some (person_id p)) m;
                         personId := person_id p |} res).
Proof.
  intros Hlower.
  assert (Hiff : ∀ m people p,
     matchByEmail toLowerCase m (buildPeopleByEmail toLowerCase people) = Some p ↔
     ∃ l1 l2 e, people = l1 ++ p :: l2
       ∧ person_email p = Some e ∧ e ≠ ""%string
       ∧ toLowerCase (email m) = toLowerCase e
       ∧ ∀ q e', q ∈ l2 → person_email q = Some e' → e' ≠ ""%string →
                 toLowerCase (email m) ≠ toLowerCase e').
  { intros m people p. unfold matchByEmail, truthy_string.
    destruct (decide (email m = ""%string)) as [Hem|Hem].
    - rewrite bool_decide_eq_true_2 by done. simpl. split; [done|].
      intros (l1 & l2 & e & _ & _ & Hne & Hk & _). exfalso. apply Hne.
      apply Hlower. rewrite <- Hk. by apply Hlower.
    - rewrite bool_decide_eq_false_2 by done. simpl.
      rewrite buildPeopleByEmail_lookup. split.
      + intros (l1 & l2 & e & Hl & He & Hne & Hk & Hlast).
        exists l1, l2, e. repeat split; [done..|].
        intros q e' Hin He' Hne' Heq. by apply (Hlast q e').
      + intros (l1 & l2 & e & Hl & He & Hne & Hk & Hlast).
        exists l1, l2, e. repeat split; [done..|].
        intros q e' Hin He' Hne' Heq. by apply (Hlast q e'). }
  split; [exact Hiff|]. split; [|split].
  - intros m people p Hp Hfound. apply Hiff in Hfound
      as (l1 & l2 & e & _ & He & Hne & _).
    assert (truthy_ostring (person_email p) = true) as Ht
      by (apply truthy_ostring_Some; by exists e).
    congruence.
  - intros m l1 p1 l2 p2 l3 e1 e2 He1 He2 Hne1 Hne2 H12 Hm.
    assert (Hem : email m ≠ ""%string).
    { intros Hem. apply Hne1. apply Hlower. rewrite <- Hm, Hem. by apply Hlower. }
    set (people := l1 ++ p1 :: l2 ++ p2 :: l3).
    assert (Hp : people = (l1 ++ p1 :: l2) ++ p2 :: l3)
      by (unfold people; by rewrite <- app_assoc).
    assert (Hj : people !! length (l1 ++ p1 :: l2) = Some p2)
      by (rewrite Hp; by rewrite list_lookup_middle).
    destruct (matchByEmail toLowerCase m (buildPeopleByEmail toLowerCase people))
      as [p|] eqn:Hfound.
    + exists p. split; [done|]. apply Hiff in Hfound
        as (k1 & k2 & e & Hl & He & Hne & Hk & Hlast).
      destruct (decide (length k1 < length (l1 ++ p1 :: l2))%nat) as [Hlt|Hge].
      * exfalso. apply (Hlast p2 e2); [|done|done|congruence].
        rewrite Hl in Hj. rewrite lookup_app_r in Hj by lia.
        destruct (length (l1 ++ p1 :: l2) - length k1)%nat as [|d] eqn:Hd; [lia|].
        simpl in Hj. by apply list_elem_of_lookup_2 in Hj.
      * assert (Hi : people !! length k1 = Some p)
          by (rewrite Hl; by rewrite list_lookup_middle).
        rewrite Hp in Hi. rewrite lookup_app_r in Hi by lia.
        by apply list_elem_of_lookup_2 in Hi.
    + exfalso. unfold matchByEmail, truthy_string in Hfound.
      rewrite bool_decide_eq_false_2 in Hfound by done. simpl in Hfound.
      rewrite buildPeopleByEmail_lookup_None in Hfound.
      apply (Hfound p2 e2); [|done|done|congruence].
      apply list_elem_of_lookup_2 in Hj. done.
  - intros m people p res cm dr tg photo w Hfound.
    by rewrite (tryMatch_match _ _ _ _ _ _ _ _ _ Hfound).
Qed.

(** *** Isolated failures (C5) *)

Lemma afterCreate_frame m teamToGroupMap photoBase64 w :
  let input := createInput m (getGroupIdsForMember m teamToGroupMap) photoBase64 in
  let w' := afterCreate m teamToGroupMap photoBase64 w in
  members_json w' = members_json w ∧ teams_json w' = teams_json w
  ∧ photos w' = photos w ∧ ticks w' = ticks w ∧ console w' = console w
  ∧ directory w' = (createPerson input (directory w)).1
  ∧ calls w' = calls w ++ [CallCreatePerson input].
Proof. done. Qed.

(** C5. In a live run with [createMissing = true], a failing
    [createPerson] for a member without an email match pushes that member,
    with the message of the failure, to [errors], changes no other bucket,
    writes nothing to the store, and the loop goes on with the remaining
    members from there. The message is the [message] of the thrown [Error]
    (a [ResponseError] is one), and ["Failed to create person"] for a thrown
    value that is no [Error]. In a run over three unlinked members without
    an email match, where the creation succeeds for the first and the third
    and fails for the second, the result has the first and the third in
    [created], the second in [errors], and the store holds the links of the
    first and of the third. *)
Theorem C5_isolated_failure :
  let message (err : Thrown) : string :=
    match err with
    | ThrownResponseError _ _ text | ThrownError text => text
    | ThrownOther => "Failed to create person"
    end in
  let failed m err res :=
    {| matched := matched res; created := created res;
       unmatched := unmatched res;
       errors := errors res ++ [{| failed_member := m; error := message err |}] |} in
  (∀ peopleByEmail teamToGroupMap photoBase64 m res w err,
     matchByEmail toLowerCase m peopleByEmail = None →
     (createPerson
        (createInput m (getGroupIdsForMember m teamToGroupMap) photoBase64)
        (directory w)).2 = inl err →
     let out := tryMatchMember toLowerCase clock m peopleByEmail res true false
                  teamToGroupMap photoBase64 w in
     out.2 = failed m err res
     ∧ out.2 = push_errors {| failed_member := m; error := error_message err |} res
     ∧ members_json out.1 = members_json w ∧ ticks out.1 = ticks w
     ∧ console out.1 = console w)
  ∧ (∀ people peopleByEmail teamToGroupMap m rest res w err,
       isLinked m = false →
       matchByEmail toLowerCase m peopleByEmail = None →
       (createPerson
          (createInput m (getGroupIdsForMember m teamToGroupMap)
             (photos w !! photoName toLowerCase m)) (directory w)).2 = inl err →
       let body := processMember toLowerCase clock people peopleByEmail true false
                     teamToGroupMap in
       let w' := afterCreate m teamToGroupMap
                   (photos w !! photoName toLowerCase m) w in
       forEachMember body (m :: rest) res w
       = forEachMember body rest (failed m err res) w'
       ∧ members_json w' = members_json w ∧ ticks w' = ticks w)
  ∧ (∀ w people m1 m2 m3 r1 r2 r3 p1 p3 err,
       let teamToGroupMap := buildTeamToGroupMap (teams_json w) in
       let input m := createInput m (getGroupIdsForMember m teamToGroupMap)
                        (photos w !! photoName toLowerCase m) in
       members_json w = [m1; m2; m3] →
       NoDup [member_id m1; member_id m2; member_id m3] →
       isLinked m1 = false → isLinked m2 = false → isLinked m3 = false →
       listPeople (directory w) = inr people →
       (∀ m, m ∈ [m1; m2; m3] →
             matchByEmail toLowerCase m (buildPeopleByEmail toLowerCase people) = None) →
       createPerson (input m1) (directory w) = (r1, inr p1) →
       createPerson (input m2) r1 = (r2, inl err) →
       createPerson (input m3) r2 = (r3, inr p3) →
       let out := POST toLowerCase clock true false w in
       out.2 = RespResults
                 {| matched := [];
                    created :=
                      [ {| member := set_doorflowPersonId (Some (person_id p1)) m1;
                           personId := person_id p1 |};
                        {| member := set_doorflowPersonId (Some (person_id p3)) m3;
                           personId := person_id p3 |} ];
                    unmatched := [];
                    errors := [ {| failed_member := m2;
                                   error := message err |} ] |}
       ∧ members_json out.1
         = [ updatedRecord (Some (person_id p1)) (clock (ticks w)) m1;
             m2;
             updatedRecord (Some (person_id p3)) (clock (S (ticks w))) m3 ]
       ∧ calls out.1
         = calls w ++ [CallListPeople; CallCreatePerson (input m1);
                       CallCreatePerson (input m2); CallCreatePerson (input m3)]
       ∧ directory out.1 = r3).
Proof.
  intros message failed. subst failed message. cbv beta. split; [|split].
  - intros idx tg photo m res w err Hm Hc. cbv zeta.
    by rewrite (tryMatch_create_failed _ _ _ _ _ _ err Hm Hc).
  - intros people idx tg m rest res w err Hu Hm Hc. cbv zeta.
    rewrite forEachMember_cons, processMember_unlinked by done.
    by rewrite (tryMatch_create_failed _ _ _ _ _ _ err Hm Hc).
  - intros w people m1 m2 m3 r1 r2 r3 p1 p3 err tg input
      Hmem Hnd Hu1 Hu2 Hu3 Hlist Hnone Hc1 Hc2 Hc3.
    apply NoDup_cons in Hnd as [Hn1 Hnd]. apply NoDup_cons in Hnd as [Hn2 _].
    rewrite (POST_results _ _ _ _ Hlist). cbv zeta. cbn [fst snd].
    rewrite Hmem. fold tg.
    set (idx := buildPeopleByEmail toLowerCase people).
    set (w0 := log_call CallListPeople w).
    set (body := processMember toLowerCase clock people idx true false tg).
    (* the first member *)
    assert (Hs1 : body m1 emptyResults w0
                  = ((updateMember clock (member_id m1) (Some (person_id p1))
                        (afterCreate m1 tg (photos w !! photoName toLowerCase m1) w0)).1,
                     push_created
                       {| member := set_doorflowPersonId (Some (person_id p1)) m1;
                          personId := person_id p1 |} emptyResults)).
    { unfold body. rewrite processMember_unlinked by done.
      apply tryMatch_create_ok; [apply Hnone; set_solver|].
      simpl. fold (input m1). by rewrite Hc1. }
    set (w1 := (updateMember clock (member_id m1) (Some (person_id p1))
                  (afterCreate m1 tg (photos w !! photoName toLowerCase m1) w0)).1)
      in *.
    destruct (updateMember_frame (member_id m1) (Some (person_id p1))
                (afterCreate m1 tg (photos w !! photoName toLowerCase m1) w0))
      as (_ & Hph1 & Hdir1 & Hcalls1 & _).
    fold w1 in Hph1, Hdir1, Hcalls1. simpl in Hph1, Hdir1, Hcalls1.
    fold (input m1) in Hdir1, Hcalls1. rewrite Hc1 in Hdir1. simpl in Hdir1.
    assert (Hmem1 : members_json w1
                    = [updatedRecord (Some (person_id p1)) (clock (ticks w)) m1; m2; m3]).
    { unfold w1. rewrite (updateMember_at _ _ [] m1 [m2; m3]); [done|by rewrite <- Hmem|].
      simpl. apply not_elem_of_nil. }
    assert (Htick1 : ticks w1 = S (ticks w)).
    { unfold w1. by rewrite (updateMember_ticks_at _ _ [] m1 [m2; m3]). }
    (* the second member *)
    assert (Hs2 : ∀ res, body m2 res w1
                  = (afterCreate m2 tg (photos w !! photoName toLowerCase m2) w1,
                     push_errors {| failed_member := m2;
                                    error := error_message err |} res)).
    { intros res. unfold body. rewrite processMember_unlinked by done.
      rewrite Hph1. apply tryMatch_create_failed; [apply Hnone; set_solver|].
      rewrite Hdir1. fold (input m2). by rewrite Hc2. }
    set (w2 := afterCreate m2 tg (photos w !! photoName toLowerCase m2) w1) in *.
    assert (Hdir2 : directory w2 = r2).
    { unfold w2. simpl. rewrite Hdir1. fold (input m2). by rewrite Hc2. }
    (* the third member *)
    assert (Hs3 : ∀ res, body m3 res w2
                  = ((updateMember clock (member_id m3) (Some (person_id p3))
                        (afterCreate m3 tg (photos w !! photoName toLowerCase m3) w2)).1,
                     push_created
                       {| member := set_doorflowPersonId (Some (person_id p3)) m3;
                          personId := person_id p3 |} res)).
    { intros res. unfold body. rewrite processMember_unlinked by done.
      replace (photos w2) with (photos w) by (by rewrite <- Hph1).
      apply tryMatch_create_ok; [apply Hnone; set_solver|].
      rewrite Hdir2. fold (input m3). by rewrite Hc3. }
    rewrite !forEachMember_cons, Hs1. simpl. rewrite Hs2. simpl. rewrite Hs3. simpl.
    set (w3 := afterCreate m3 tg (photos w !! photoName toLowerCase m3) w2).
    destruct (updateMember_frame (member_id m3) (Some (person_id p3)) w3)
      as (_ & _ & Hdir3 & Hcalls3 & _).
    split; [done|]. split; [|split].
    + rewrite (updateMember_at _ _
                 [updatedRecord (Some (person_id p1)) (clock (ticks w)) m1; m2] m3 []).
      * change (ticks w3) with (ticks w1). by rewrite Htick1.
      * unfold w3, w2. simpl. by rewrite Hmem1.
      * simpl. set_solver.
    + rewrite Hcalls3. unfold w3, w2. simpl. rewrite Hcalls1.
      rewrite <- !app_assoc. done.
    + rewrite Hdir3. unfold w3. simpl. rewrite Hdir1. fold (input m2).
      rewrite Hc2. simpl. fold (input m3). by rewrite Hc3.
Qed.

(** *** Who is matched *)

Lemma reaffirmed_unlinked people m :
  isLinked m = false → reaffirmed people m = None.
Proof.
  unfold isLinked, truthy_onumber, reaffirmed.
  destruct (doorflowPersonId m) as [n|]; [|done]. by intros ->.
Qed.

Lemma reaffirmed_present people m linkedId p :
  doorflowPersonId m = Some linkedId → linkedId ≠ 0 →
  p ∈ people → person_id p = linkedId →
  reaffirmed people m = Some linkedId.
Proof.
  intros Hl Hnz Hin Hid. unfold reaffirmed, truthy_number. rewrite Hl.
  rewrite bool_decide_eq_false_2 by done. simpl.
  destruct (List.find _ people) as [q|] eqn:Hfind; [done|].
  exfalso. apply list_elem_of_In in Hin.
  pose proof (find_none _ _ Hfind p Hin) as Hp. simpl in Hp.
  by rewrite bool_decide_eq_true_2 in Hp.
Qed.

Lemma reaffirmed_stale people m linkedId :
  doorflowPersonId m = Some linkedId →
  (∀ p, p ∈ people → person_id p ≠ linkedId) →
  reaffirmed people m = None.
Proof.
  intros Hl Hnone. unfold reaffirmed. rewrite Hl.
  destruct (truthy_number linkedId); [|done].
  destruct (List.find _ people) as [q|] eqn:Hfind; [|done].
  exfalso. apply find_some in Hfind as [Hin Hq].
  apply bool_decide_eq_true in Hq. apply (Hnone q); [|done].
  by apply list_elem_of_In.
Qed.

Lemma reaffirmed_Some people m n :
  reaffirmed people m = Some n →
  doorflowPersonId m = Some n ∧ n ≠ 0 ∧ ∃ p, p ∈ people ∧ person_id p = n.
Proof.
  unfold reaffirmed, truthy_number.
  destruct (doorflowPersonId m) as [k|]; [|done].
  destruct (decide (k = 0)) as [->|Hk].
  - by rewrite bool_decide_eq_true_2.
  - rewrite bool_decide_eq_false_2 by done. simpl.
    destruct (List.find _ people) as [q|] eqn:Hfind; [|done].
    intros [= <-]. apply find_some in Hfind as [Hin Hq].
    apply bool_decide_eq_true in Hq. repeat split; [done|].
    exists q. by rewrite list_elem_of_In.
Qed.

Lemma tryMatchMember_matched_key m peopleByEmail res cm dr teamToGroupMap
    photoBase64 w :
  entry_key <$>
    matched (tryMatchMember toLowerCase clock m peopleByEmail res cm dr
               teamToGroupMap photoBase64 w).2
  = (entry_key <$> matched res)
      ++ option_list ((λ p, (member_id m, person_id p)) <$>
                        matchByEmail toLowerCase m peopleByEmail).
Proof.
  destruct (matchByEmail toLowerCase m peopleByEmail) as [p|] eqn:Hm.
  - rewrite (tryMatch_match _ _ _ _ _ _ _ _ _ Hm). simpl. by rewrite fmap_app.
  - simpl. rewrite app_nil_r. destruct cm; [destruct dr|].
    + by rewrite tryMatch_create_dry.
    + destruct (createPerson
                  (createInput m (getGroupIdsForMember m teamToGroupMap) photoBase64)
                  (directory w)).2 as [err|newPerson] eqn:Hc.
      * by rewrite (tryMatch_create_failed _ _ _ _ _ _ err Hm Hc).
      * by rewrite (tryMatch_create_ok _ _ _ _ _ _ newPerson Hm Hc).
    + by rewrite tryMatch_unmatched.
Qed.

Lemma processMember_matched_key people cm dr teamToGroupMap m res w :
  entry_key <$>
    matched (processMember toLowerCase clock people
               (buildPeopleByEmail toLowerCase people) cm dr teamToGroupMap
               m res w).2
  = (entry_key <$> matched res) ++ option_list (matchedKey toLowerCase people m).
Proof.
  unfold matchedKey.
  destruct (processMember_cases people m)
    as [Hu|[(n & p & Hl & Hnz & Hin & Hid)|(n & Hl & Hnz & Hnone)]].
  - rewrite processMember_unlinked, reaffirmed_unlinked by done.
    apply tryMatchMember_matched_key.
  - rewrite (processMember_present _ _ _ _ _ _ _ _ _ _ Hl Hnz Hin Hid).
    rewrite (reaffirmed_present _ _ _ _ Hl Hnz Hin Hid). simpl.
    by rewrite fmap_app.
  - rewrite (processMember_stale _ _ _ _ _ _ _ _ _ Hl Hnz Hnone).
    rewrite (reaffirmed_stale _ _ _ Hl Hnone).
    apply tryMatchMember_matched_key.
Qed.

(** The matched entries of a run are settled by the loaded members and the
    fetched people alone. *)
Lemma forEachMember_matched_keys people cm dr teamToGroupMap members res w :
  entry_key <$>
    matched (forEachMember
               (processMember toLowerCase clock people
                  (buildPeopleByEmail toLowerCase people) cm dr teamToGroupMap)
               members res w).2
  = (entry_key <$> matched res) ++ omap (matchedKey toLowerCase people) members.
Proof.
  revert res w. induction members as [|m members IH]; intros res w.
  - simpl. by rewrite app_nil_r.
  - rewrite forEachMember_cons, IH, processMember_matched_key.
    rewrite <- app_assoc. f_equal. simpl.
    by destruct (matchedKey toLowerCase people m).
Qed.

(** *** The store along a live run *)

Lemma tryMatchMember_store peopleByEmail cm teamToGroupMap m m1 res w1
    photoBase64 pre post :
  members_json w1 = pre ++ m1 :: post →
  member_id m1 = member_id m → email m1 = email m →
  member_id m ∉ member_id <$> pre →
  let out := tryMatchMember toLowerCase clock m peopleByEmail res cm false
               teamToGroupMap photoBase64 w1 in
  ∃ m', members_json out.1 = pre ++ m' :: post
    ∧ member_id m' = member_id m ∧ email m' = email m
    ∧ (∀ p, matchByEmail toLowerCase m peopleByEmail = Some p →
            doorflowPersonId m' = Some (person_id p))
    ∧ (matchByEmail toLowerCase m peopleByEmail = None → cm = false → m' = m1)
    ∧ (created out.2 = created res
       ∨ ∃ pid, created out.2
                = created res ++ [{| member := set_doorflowPersonId (Some pid) m;
                                     personId := pid |}]
                ∧ doorflowPersonId m' = Some pid)
    ∧ (errors out.2 = errors res
       ∨ ∃ msg, errors out.2
                = errors res ++ [{| failed_member := m; error := msg |}]
                ∧ m' = m1).
Proof.
  intros Hw Hid Hem Hpre. simpl.
  assert (Hpre1 : member_id m1 ∉ member_id <$> pre) by (by rewrite Hid).
  destruct (matchByEmail toLowerCase m peopleByEmail) as [p|] eqn:Hm.
  - rewrite (tryMatch_match _ _ _ _ _ _ _ _ _ Hm). simpl.
    exists (updatedRecord (Some (person_id p)) (clock (ticks w1)) m1).
    split.
    { destruct (afterUpdate_frame (person_id p)
                  (getGroupIdsForMember m teamToGroupMap) photoBase64
                  (updateMember clock (member_id m) (Some (person_id p)) w1).1)
        as (-> & _).
      rewrite <- Hid. by apply updateMember_at. }
    repeat split; [done..| |done|by left|by left].
    by intros p' [= <-].
  - destruct cm.
    + destruct (createPerson
                  (createInput m (getGroupIdsForMember m teamToGroupMap) photoBase64)
                  (directory w1)).2 as [err|newPerson] eqn:Hc.
      * rewrite (tryMatch_create_failed _ _ _ _ _ _ err Hm Hc). simpl.
        exists m1. repeat split; [done..|by left|].
        right. by exists (error_message err).
      * rewrite (tryMatch_create_ok _ _ _ _ _ _ newPerson Hm Hc). simpl.
        exists (updatedRecord (Some (person_id newPerson)) (clock (ticks w1)) m1).
        split.
        { rewrite <- Hid.
          by apply (updateMember_at _
                      (afterCreate m teamToGroupMap photoBase64 w1)). }
        repeat split; [done..| |by left].
        right. by exists (person_id newPerson).
    + rewrite tryMatch_unmatched by done. simpl.
      exists m1. repeat split; [done..|by left|by left].
Qed.

Lemma processMember_store people cm teamToGroupMap m res w pre post :
  members_json w = pre ++ m :: post →
  member_id m ∉ member_id <$> pre →
  let out := processMember toLowerCase clock people
               (buildPeopleByEmail toLowerCase people) cm false teamToGroupMap
               m res w in
  ∃ m', members_json out.1 = pre ++ m' :: post
    ∧ Evolved toLowerCase people cm m m'
    ∧ (created out.2 = created res
       ∨ ∃ pid, created out.2
                = created res ++ [{| member := set_doorflowPersonId (Some pid) m;
                                     personId := pid |}]
                ∧ doorflowPersonId m' = Some pid)
    ∧ (errors out.2 = errors res
       ∨ ∃ msg, errors out.2
                = errors res ++ [{| failed_member := m; error := msg |}]
                ∧ Cleared m m').
Proof.
  intros Hw Hpre. simpl.
  destruct (processMember_cases people m)
    as [Hu|[(n & p & Hl & Hnz & Hin & Hid)|(n & Hl & Hnz & Hnone)]].
  - rewrite processMember_unlinked by done.
    destruct (tryMatchMember_store (buildPeopleByEmail toLowerCase people) cm
                teamToGroupMap m m res w (photos w !! photoName toLowerCase m)
                pre post Hw eq_refl eq_refl Hpre)
      as (m' & Hst & Hid & Hem & Hkey & Hno & Hcr & Her).
    exists m'. split; [done|]. split; [|split; [done|]].
    + split; [done..| |].
      * unfold matchedKey. rewrite reaffirmed_unlinked by done.
        intros k Hk. apply fmap_Some in Hk as (q & Hq & ->). by apply Hkey.
      * unfold matchedKey. rewrite reaffirmed_unlinked by done.
        intros Hk Hcm. apply fmap_None in Hk. by rewrite (Hno Hk Hcm).
    + destruct Her as [Her|(msg & Her & ->)]; [by left|].
      right. exists msg. split; [done|]. by left.
  - rewrite (processMember_present _ _ _ _ _ _ _ _ _ _ Hl Hnz Hin Hid). simpl.
    exists m. split; [done|]. split; [|split; by left].
    split; [done..| |].
    + unfold matchedKey. rewrite (reaffirmed_present _ _ _ _ Hl Hnz Hin Hid).
      by intros k [= <-].
    + unfold matchedKey. by rewrite (reaffirmed_present _ _ _ _ Hl Hnz Hin Hid).
  - rewrite (processMember_stale _ _ _ _ _ _ _ _ _ Hl Hnz Hnone).
    set (m1 := updatedRecord None (clock (ticks w)) m).
    assert (Hw1 : members_json (updateMember clock (member_id m) None w).1
                  = pre ++ m1 :: post) by (by apply updateMember_at).
    destruct (tryMatchMember_store (buildPeopleByEmail toLowerCase people) cm
                teamToGroupMap m m1 res (updateMember clock (member_id m) None w).1
                (photos w !! photoName toLowerCase m)
                pre post Hw1 eq_refl eq_refl Hpre)
      as (m' & Hst & Hid & Hem & Hkey & Hno & Hcr & Her).
    exists m'. split; [done|]. split; [|split; [done|]].
    + split; [done..| |].
      * unfold matchedKey. rewrite (reaffirmed_stale _ _ _ Hl Hnone).
        intros k Hk. apply fmap_Some in Hk as (q & Hq & ->). by apply Hkey.
      * unfold matchedKey. rewrite (reaffirmed_stale _ _ _ Hl Hnone).
        intros Hk Hcm. apply fmap_None in Hk. by rewrite (Hno Hk Hcm).
    + destruct Her as [Her|(msg & Her & ->)]; [by left|].
      right. exists msg. split; [done|]. right. split; [|by eexists].
      unfold isLinked, truthy_onumber, truthy_number. rewrite Hl.
      by rewrite bool_decide_eq_false_2.
Qed.

Lemma forEachMember_store people cm teamToGroupMap members pre res w :
  members_json w = pre ++ members →
  NoDup (member_id <$> pre ++ members) →
  let out := forEachMember
               (processMember toLowerCase clock people
                  (buildPeopleByEmail toLowerCase people) cm false teamToGroupMap)
               members res w in
  ∃ members', members_json out.1 = pre ++ members'
    ∧ Forall2 (Evolved toLowerCase people cm) members members'
    ∧ (∀ e, e ∈ created out.2 →
            e ∈ created res
            ∨ ∃ m m', (m, m') ∈ zip members members'
                ∧ member e = set_doorflowPersonId (Some (personId e)) m
                ∧ doorflowPersonId m' = Some (personId e))
    ∧ (∀ e, e ∈ errors out.2 →
            e ∈ errors res
            ∨ ∃ m m', (m, m') ∈ zip members members'
                ∧ failed_member e = m ∧ Cleared m m').
Proof.
  revert pre res w. induction members as [|m members IH]; intros pre res w Hw Hnd.
  - simpl. exists []. split; [done|]. split; [constructor|]. split; by left.
  - cbv zeta. rewrite forEachMember_cons.
    assert (Hpre : member_id m ∉ member_id <$> pre).
    { rewrite fmap_app in Hnd. apply NoDup_app in Hnd as (_ & Hdisj & _).
      intros Hin. apply (Hdisj _ Hin). simpl. by left. }
    destruct (processMember_store people cm teamToGroupMap m res w pre members
                Hw Hpre) as (m' & Hst & Hev & Hcr & Her).
    set (step := processMember toLowerCase clock people
                   (buildPeopleByEmail toLowerCase people) cm false teamToGroupMap
                   m res w) in *.
    destruct (IH (pre ++ [m']) step.2 step.1) as (members' & Hst' & Hall & Hcr' & Her').
    { by rewrite <- app_assoc. }
    { rewrite <- app_assoc. simpl. rewrite fmap_app. simpl.
      rewrite (ev_id _ _ _ _ _ Hev). by rewrite fmap_app in Hnd. }
    exists (m' :: members'). split; [by rewrite Hst', <- app_assoc|].
    split; [by constructor|]. split.
    + intros e He. destruct (Hcr' e He) as [Hin|(x & x' & Hz & Hx)].
      * destruct Hcr as [Heq|(pid & Heq & Hpid)]; rewrite Heq in Hin; [by left|].
        apply elem_of_app in Hin as [Hin| ->%list_elem_of_singleton]; [by left|].
        right. exists m, m'. split; [simpl; by left|]. done.
      * right. exists x, x'. split; [simpl; by right|done].
    + intros e He. destruct (Her' e He) as [Hin|(x & x' & Hz & Hx)].
      * destruct Her as [Heq|(msg & Heq & Hcl)]; rewrite Heq in Hin; [by left|].
        apply elem_of_app in Hin as [Hin| ->%list_elem_of_singleton]; [by left|].
        right. exists m, m'. split; [simpl; by left|]. done.
      * right. exists x, x'. split; [simpl; by right|done].
Qed.

Lemma Forall2_Evolved_ids people cm members members' :
  Forall2 (Evolved toLowerCase people cm) members members' →
  member_id <$> members' = member_id <$> members.
Proof.
  induction 1 as [|m m' ms ms' Hev _ IH]; [done|].
  rewrite !fmap_cons. by rewrite IH, (ev_id _ _ _ _ _ Hev).
Qed.

Lemma NoDup_fmap_eq {A B : Type} (f : A → B) (l : list A) x y :
  NoDup (f <$> l) → x ∈ l → y ∈ l → f x = f y → x = y.
Proof.
  induction l as [|a l IH]; intros Hnd Hx Hy Hf.
  - by apply elem_of_nil in Hx.
  - simpl in Hnd. apply NoDup_cons in Hnd as [Ha Hnd].
    apply elem_of_cons in Hx as [->|Hx]; apply elem_of_cons in Hy as [->|Hy].
    + done.
    + exfalso. apply Ha. rewrite Hf. by apply list_elem_of_fmap_2.
    + exfalso. apply Ha. rewrite <- Hf. by apply list_elem_of_fmap_2.
    + by apply IH.
Qed.

(** *** Failed creations and the store (C10) *)

(** C10, as amended. In a live run with [createMissing = true] over a
    store with one record per member id, every entry of [errors] reports
    the member exactly as it was loaded, and no person id has been written
    to the member's stored record: that record is the loaded one when the
    member was unlinked, and the loaded one with its [doorflowPersonId]
    cleared (and the [updatedAt] of that write) when the member carried a
    link, which [POST] had found stale and cleared before the creation was
    attempted. *)
Theorem C10_failed_creation_store w people :
  NoDup (member_id <$> members_json w) →
  listPeople (directory w) = inr people →
  let out := POST toLowerCase clock true false w in
  ∃ res, out.2 = RespResults res
    ∧ ∀ e, e ∈ errors res →
        failed_member e ∈ members_json w
        ∧ ∃ m', m' ∈ members_json out.1
            ∧ member_id m' = member_id (failed_member e)
            ∧ (∀ s, s ∈ members_json out.1 →
                    member_id s = member_id (failed_member e) → s = m')
            ∧ ((isLinked (failed_member e) = false ∧ m' = failed_member e)
               ∨ (isLinked (failed_member e) = true
                  ∧ ∃ t, m' = updatedRecord None t (failed_member e))).
Proof.
  intros Hnd Hlist. rewrite (POST_results _ _ _ _ Hlist). cbv zeta. cbn [fst snd].
  eexists. split; [done|].
  destruct (forEachMember_store people true (buildTeamToGroupMap (teams_json w))
              (members_json w) [] emptyResults (log_call CallListPeople w)
              eq_refl Hnd) as (members' & Hst & Hall & _ & Her).
  simpl in Hst. intros e He.
  destruct (Her e He) as [Hin|(m & m' & Hz & Hfm & Hcl)];
    [by apply elem_of_nil in Hin|].
  rewrite Hfm.
  split; [by apply elem_of_zip_l in Hz|].
  exists m'. rewrite Hst.
  assert (Hm' : m' ∈ members') by (by apply elem_of_zip_r in Hz).
  assert (Hid : member_id m' = member_id m).
  { destruct Hcl as [[_ ->]|[_ [t ->]]]; done. }
  split; [done|]. split; [done|]. split; [|done].
  intros s Hs Hsid.
  apply (NoDup_fmap_eq member_id members'); [|done..|congruence].
  by rewrite (Forall2_Evolved_ids _ _ _ _ Hall).
Qed.

(** *** The SDK calls of a run *)

Lemma processMember_calls people cm dr teamToGroupMap m res w :
  let out := processMember toLowerCase clock people
               (buildPeopleByEmail toLowerCase people) cm dr teamToGroupMap
               m res w in
  ∃ cs, calls out.1 = calls w ++ cs
    ∧ ∀ input, CallCreatePerson input ∈ cs →
        in_systemId input = Some (member_id m)
        ∧ matchedKey toLowerCase people m = None.
Proof.
  simpl.
  assert (Htry : ∀ w1, calls w1 = calls w → reaffirmed people m = None →
    ∃ cs, calls (tryMatchMember toLowerCase clock m
                   (buildPeopleByEmail toLowerCase people) res cm dr
                   teamToGroupMap (photos w !! photoName toLowerCase m) w1).1
          = calls w ++ cs
      ∧ ∀ input, CallCreatePerson input ∈ cs →
          in_systemId input = Some (member_id m)
          ∧ matchedKey toLowerCase people m = None).
  { intros w1 Hw1 Hre. unfold matchedKey. rewrite Hre.
    destruct (matchByEmail toLowerCase m (buildPeopleByEmail toLowerCase people))
      as [p|] eqn:Hm.
    - rewrite (tryMatch_match _ _ _ _ _ _ _ _ _ Hm). simpl. destruct dr.
      + exists []. rewrite app_nil_r. split; [done|].
        intros input Hin. by apply elem_of_nil in Hin.
      + unfold afterUpdate.
        destruct (updateMember_frame (member_id m) (Some (person_id p)) w1)
          as (_ & _ & _ & Hc & _).
        destruct (_ || _).
        * eexists [_]. split.
          -- destruct (updatePerson _ _ _) as [r' [err|[]]]; simpl;
               by rewrite Hc, Hw1.
          -- intros input Hin. apply list_elem_of_singleton in Hin. discriminate.
        * exists []. rewrite app_nil_r, Hc. split; [done|].
          intros input Hin. by apply elem_of_nil in Hin.
    - destruct cm; [destruct dr|].
      + rewrite tryMatch_create_dry by done. simpl.
        exists []. rewrite app_nil_r. split; [done|].
        intros input Hin. by apply elem_of_nil in Hin.
      + destruct (createPerson
                    (createInput m (getGroupIdsForMember m teamToGroupMap)
                       (photos w !! photoName toLowerCase m))
                    (directory w1)).2 as [err|newPerson] eqn:Hc.
        * rewrite (tryMatch_create_failed _ _ _ _ _ _ err Hm Hc). simpl.
          eexists [_]. rewrite Hw1. split; [done|].
          intros input Hin. apply list_elem_of_singleton in Hin.
          by injection Hin as ->.
        * rewrite (tryMatch_create_ok _ _ _ _ _ _ newPerson Hm Hc). simpl.
          destruct (updateMember_frame (member_id m) (Some (person_id newPerson))
                      (afterCreate m teamToGroupMap
                         (photos w !! photoName toLowerCase m) w1))
            as (_ & _ & _ & -> & _).
          simpl. eexists [_]. rewrite Hw1. split; [done|].
          intros input Hin. apply list_elem_of_singleton in Hin.
          by injection Hin as ->.
      + rewrite tryMatch_unmatched by done. simpl.
        exists []. rewrite app_nil_r. split; [done|].
        intros input Hin. by apply elem_of_nil in Hin. }
  destruct (processMember_cases people m)
    as [Hu|[(n & p & Hl & Hnz & Hin & Hid)|(n & Hl & Hnz & Hnone)]].
  - rewrite processMember_unlinked by done.
    apply Htry; [done|by apply reaffirmed_unlinked].
  - rewrite (processMember_present _ _ _ _ _ _ _ _ _ _ Hl Hnz Hin Hid). simpl.
    exists []. rewrite app_nil_r. split; [done|].
    intros input Hin'. by apply elem_of_nil in Hin'.
  - rewrite (processMember_stale _ _ _ _ _ _ _ _ _ Hl Hnz Hnone).
    apply Htry; [|by apply (reaffirmed_stale _ _ _ Hl Hnone)].
    destruct dr; [done|].
    by destruct (updateMember_frame (member_id m) None w) as (_ & _ & _ & -> & _).
Qed.

Lemma forEachMember_calls people cm dr teamToGroupMap members res w :
  let out := forEachMember
               (processMember toLowerCase clock people
                  (buildPeopleByEmail toLowerCase people) cm dr teamToGroupMap)
               members res w in
  ∃ cs, calls out.1 = calls w ++ cs
    ∧ ∀ input, CallCreatePerson input ∈ cs →
        ∃ m, m ∈ members ∧ in_systemId input = Some (member_id m)
             ∧ matchedKey toLowerCase people m = None.
Proof.
  revert res w. induction members as [|m members IH]; intros res w.
  - simpl. exists []. rewrite app_nil_r. split; [done|].
    intros input Hin. by apply elem_of_nil in Hin.
  - cbv zeta. rewrite forEachMember_cons.
    destruct (processMember_calls people cm dr teamToGroupMap m res w)
      as (cs1 & Hc1 & Hcs1).
    set (step := processMember toLowerCase clock people
                   (buildPeopleByEmail toLowerCase people) cm dr teamToGroupMap
                   m res w) in *.
    destruct (IH step.2 step.1) as (cs2 & Hc2 & Hcs2).
    exists (cs1 ++ cs2). rewrite Hc2, Hc1, app_assoc. split; [done|].
    intros input [Hin|Hin]%elem_of_app.
    + exists m. split; [by left|]. by apply Hcs1.
    + destruct (Hcs2 input Hin) as (m' & Hm' & Hrest).
      exists m'. split; [by right|done].
Qed.

(** *** The directory along a live run *)

Section Laws.

Context `{!PeopleApiLaws R}.

Lemma afterUpdate_listing pid groupIds photoBase64 w :
  listPeople (directory (afterUpdate pid groupIds photoBase64 w))
  = listPeople (directory w).
Proof.
  unfold afterUpdate. destruct (_ || _); [|done].
  pose proof (law_update pid (updateInput groupIds photoBase64) (directory w))
    as Hlaw.
  by destruct (updatePerson _ _ _) as [r' [err|[]]].
Qed.

Lemma tryMatchMember_directory peopleByEmail cm teamToGroupMap m res w
    photoBase64 ps :
  listPeople (directory w) = inr ps →
  let out := tryMatchMember toLowerCase clock m peopleByEmail res cm false
               teamToGroupMap photoBase64 w in
  ∃ ps', listPeople (directory out.1) = inr ps'
    ∧ (∀ q, q ∈ ps → q ∈ ps')
    ∧ (cm = false → ps' = ps)
    ∧ (∀ e, e ∈ created out.2 →
            e ∈ created res ∨ ∃ p, p ∈ ps' ∧ person_id p = personId e).
Proof.
  intros Hps. simpl.
  destruct (matchByEmail toLowerCase m peopleByEmail) as [p|] eqn:Hm.
  - rewrite (tryMatch_match _ _ _ _ _ _ _ _ _ Hm). simpl.
    exists ps. rewrite afterUpdate_listing.
    destruct (updateMember_frame (member_id m) (Some (person_id p)) w)
      as (_ & _ & -> & _).
    repeat split; [done..|]. intros e He. by left.
  - destruct cm.
    + destruct (law_create
                  (createInput m (getGroupIdsForMember m teamToGroupMap)
                     photoBase64) (directory w) ps Hps)
        as (ps' & Hps' & Hsub & Hnew).
      destruct (createPerson
                  (createInput m (getGroupIdsForMember m teamToGroupMap)
                     photoBase64)
                  (directory w)).2 as [err|newPerson] eqn:Hc.
      * rewrite (tryMatch_create_failed _ _ _ _ _ _ err Hm Hc). simpl.
        exists ps'. repeat split; [done..|]. intros e He. by left.
      * rewrite (tryMatch_create_ok _ _ _ _ _ _ newPerson Hm Hc). simpl.
        destruct (updateMember_frame (member_id m)
                    (Some (person_id newPerson))
                    (afterCreate m teamToGroupMap photoBase64 w))
          as (_ & _ & -> & _).
        exists ps'. repeat split; [done..|].
        intros e [He| ->%list_elem_of_singleton]%elem_of_app; [by left|].
        right. exists newPerson. split; [by apply Hnew|done].
    + rewrite tryMatch_unmatched by done. simpl.
      exists ps. repeat split; [done..|]. intros e He. by left.
Qed.

Lemma processMember_directory people peopleByEmail cm teamToGroupMap m res w ps :
  listPeople (directory w) = inr ps →
  let out := processMember toLowerCase clock people peopleByEmail cm false
               teamToGroupMap m res w in
  ∃ ps', listPeople (directory out.1) = inr ps'
    ∧ (∀ q, q ∈ ps → q ∈ ps')
    ∧ (cm = false → ps' = ps)
    ∧ (∀ e, e ∈ created out.2 →
            e ∈ created res ∨ ∃ p, p ∈ ps' ∧ person_id p = personId e).
Proof.
  intros Hps. simpl.
  destruct (processMember_cases people m)
    as [Hu|[(n & p & Hl & Hnz & Hin & Hid)|(n & Hl & Hnz & Hnone)]].
  - rewrite processMember_unlinked by done.
    by apply tryMatchMember_directory.
  - rewrite (processMember_present _ _ _ _ _ _ _ _ _ _ Hl Hnz Hin Hid). simpl.
    exists ps. repeat split; [done..|]. intros e He. by left.
  - rewrite (processMember_stale _ _ _ _ _ _ _ _ _ Hl Hnz Hnone).
    apply tryMatchMember_directory.
    by destruct (updateMember_frame (member_id m) None w) as (_ & _ & -> & _).
Qed.

Lemma forEachMember_directory people peopleByEmail cm teamToGroupMap
    members res w ps :
  listPeople (directory w) = inr ps →
  let out := forEachMember
               (processMember toLowerCase clock people peopleByEmail cm false
                  teamToGroupMap) members res w in
  ∃ ps', listPeople (directory out.1) = inr ps'
    ∧ (∀ q, q ∈ ps → q ∈ ps')
    ∧ (cm = false → ps' = ps)
    ∧ (∀ e, e ∈ created out.2 →
            e ∈ created res ∨ ∃ p, p ∈ ps' ∧ person_id p = personId e).
Proof.
  revert res w ps. induction members as [|m members IH]; intros res w ps Hps.
  - simpl. exists ps. repeat split; [done..|]. intros e He. by left.
  - cbv zeta. rewrite forEachMember_cons.
    destruct (processMember_directory people peopleByEmail cm teamToGroupMap
                m res w ps Hps) as (ps1 & Hps1 & Hsub1 & Hcm1 & Hcr1).
    set (step := processMember toLowerCase clock people peopleByEmail cm false
                   teamToGroupMap m res w) in *.
    destruct (IH step.2 step.1 ps1 Hps1) as (ps2 & Hps2 & Hsub2 & Hcm2 & Hcr2).
    exists ps2. split; [done|]. split; [|split].
    + intros q Hq. by apply Hsub2, Hsub1.
    + intros Hcm. by rewrite (Hcm2 Hcm), (Hcm1 Hcm).
    + intros e He. destruct (Hcr2 e He) as [Hin|Hp]; [|by right].
      destruct (Hcr1 e Hin) as [Hin'|(p & Hp & Hid)]; [by left|].
      right. exists p. split; [by apply Hsub2|done].
Qed.

(** *** Two runs in a row (C8) *)

Lemma matchByEmail_elem m people p :
  matchByEmail toLowerCase m (buildPeopleByEmail toLowerCase people) = Some p →
  p ∈ people.
Proof.
  unfold matchByEmail. destruct (truthy_string (email m)); [|done].
  intros Hp. apply buildPeopleByEmail_lookup in Hp as (l1 & l2 & e & -> & _).
  set_solver.
Qed.

Lemma matchByEmail_email m m' peopleByEmail :
  email m' = email m →
  matchByEmail toLowerCase m' peopleByEmail
  = matchByEmail toLowerCase m peopleByEmail.
Proof. unfold matchByEmail. by intros ->. Qed.

Lemma matchedKey_Some people m k :
  matchedKey toLowerCase people m = Some k →
  k.1 = member_id m ∧ ∃ p, p ∈ people ∧ person_id p = k.2.
Proof.
  unfold matchedKey. destruct (reaffirmed people m) as [n|] eqn:Hre.
  - intros [= <-]. by apply reaffirmed_Some in Hre as (_ & _ & Hp).
  - intros Hk. apply fmap_Some in Hk as (p & Hp & ->). split; [done|].
    exists p. split; [by apply matchByEmail_elem in Hp|done].
Qed.

Lemma matchedKey_linked ps m pid p :
  doorflowPersonId m = Some pid → pid ≠ 0 → p ∈ ps → person_id p = pid →
  matchedKey toLowerCase ps m = Some (member_id m, pid).
Proof.
  intros Hl Hnz Hin Hid. unfold matchedKey.
  by rewrite (reaffirmed_present _ _ _ _ Hl Hnz Hin Hid).
Qed.

(** A member matched in a live run is matched again, under the same key,
    from its stored record, as long as the directory lists the people it
    listed. *)
Lemma matchedKey_evolved (r : R) people ps' cm m m' k :
  listPeople r = inr ps' → (∀ q, q ∈ people → q ∈ ps') →
  Evolved toLowerCase people cm m m' →
  matchedKey toLowerCase people m = Some k →
  matchedKey toLowerCase ps' m' = Some k.
Proof.
  intros Hps' Hsub Hev Hk.
  destruct (matchedKey_Some _ _ _ Hk) as (Hid & p & Hp & Hpid).
  pose proof (ev_key _ _ _ _ _ Hev k Hk) as Hl.
  rewrite (matchedKey_linked ps' m' k.2 p Hl); [| |by apply Hsub|done].
  - rewrite (ev_id _ _ _ _ _ Hev), <- Hid. by destruct k.
  - rewrite <- Hpid. apply (law_ids r ps' p Hps'). by apply Hsub.
Qed.

Lemma matchedKey_evolved_None people cm m m' :
  cm = false →
  Evolved toLowerCase people cm m m' →
  matchedKey toLowerCase people m = None →
  matchedKey toLowerCase people m' = None.
Proof.
  intros Hcm Hev Hk. pose proof (ev_none _ _ _ _ _ Hev Hk Hcm) as Hu.
  unfold matchedKey in *. rewrite (reaffirmed_unlinked _ _ Hu).
  rewrite (matchByEmail_email m m' _ (ev_email _ _ _ _ _ Hev)).
  destruct (reaffirmed people m); [done|].
  apply fmap_None in Hk. by rewrite Hk.
Qed.

Lemma Forall2_zip_elem {A B : Type} (P : A → B → Prop) l k x y :
  Forall2 P l k → (x, y) ∈ zip l k → P x y.
Proof.
  induction 1 as [|a b l k Hab _ IH]; simpl.
  - intros Hin. by apply elem_of_nil in Hin.
  - intros [[= -> ->]|Hin]%elem_of_cons; [done|by apply IH].
Qed.

Lemma omap_matchedKey_evolved people cm members members' :
  cm = false →
  (∀ m m' k, Evolved toLowerCase people cm m m' →
             matchedKey toLowerCase people m = Some k →
             matchedKey toLowerCase people m' = Some k) →
  Forall2 (Evolved toLowerCase people cm) members members' →
  omap (matchedKey toLowerCase people) members'
  = omap (matchedKey toLowerCase people) members.
Proof.
  intros Hcm Hsome. induction 1 as [|m m' ms ms' Hev _ IH]; [done|].
  simpl.
  destruct (matchedKey toLowerCase people m) as [k|] eqn:Hk.
  - rewrite (Hsome _ _ _ Hev Hk). f_equal. apply IH.
  - rewrite (matchedKey_evolved_None _ _ _ _ Hcm Hev Hk). apply IH.
Qed.

(** C8, as amended. Over a store with one record per member id and a
    directory that keeps its promises ([PeopleApiLaws]), two runs in a
    row with the same flags both return a result, and: every member
    matched in the first run is matched in the second to the same
    person; in live mode every member created in the first run is
    matched in the second to the person created for it; when
    [createMissing = false] or [dryRun = true] the two runs match the
    same members to the same people, in the same order; and the second
    run issues no [createPerson] for a member the first run matched or
    (in live mode) created. *)
Theorem C8_second_run cm dr w people :
  NoDup (member_id <$> members_json w) →
  listPeople (directory w) = inr people →
  let run1 := POST toLowerCase clock cm dr w in
  let run2 := POST toLowerCase clock cm dr run1.1 in
  ∃ res1 res2, run1.2 = RespResults res1 ∧ run2.2 = RespResults res2
    ∧ (∀ e, e ∈ matched res1 →
            ∃ e', e' ∈ matched res2 ∧ entry_key e' = entry_key e)
    ∧ (dr = false → ∀ e, e ∈ created res1 →
            ∃ e', e' ∈ matched res2 ∧ entry_key e' = entry_key e)
    ∧ (cm = false ∨ dr = true →
       entry_key <$> matched res2 = entry_key <$> matched res1)
    ∧ (∀ e input,
         e ∈ matched res1 ∨ (dr = false ∧ e ∈ created res1) →
         CallCreatePerson input ∈ drop (length (calls run1.1)) (calls run2.1) →
         in_systemId input ≠ Some (member_id (member e))).
Proof.
  intros Hnd Hlist. cbv zeta.
  rewrite (POST_results cm dr w people Hlist). cbv zeta. cbn [fst snd].
  set (tg := buildTeamToGroupMap (teams_json w)).
  set (w0 := log_call CallListPeople w).
  set (out1 := forEachMember
                 (processMember toLowerCase clock people
                    (buildPeopleByEmail toLowerCase people) cm dr tg)
                 (members_json w) emptyResults w0).
  pose proof (forEachMember_matched_keys people cm dr tg (members_json w)
                emptyResults w0) as Hkeys1.
  fold out1 in Hkeys1. simpl in Hkeys1.
  destruct dr.
  - (* a dry run changes nothing but the trace *)
    assert (Hw1 : out1.1 = w0) by apply forEachMember_dry.
    assert (Hlist1 : listPeople (directory out1.1) = inr people)
      by (by rewrite Hw1).
    rewrite (POST_results cm true out1.1 people Hlist1). cbv zeta. cbn [fst snd].
    set (out2 := forEachMember _ (members_json out1.1) emptyResults _).
    pose proof (forEachMember_matched_keys people cm true
                  (buildTeamToGroupMap (teams_json out1.1))
                  (members_json out1.1) emptyResults
                  (log_call CallListPeople out1.1)) as Hkeys2.
    fold out2 in Hkeys2. simpl in Hkeys2.
    assert (Hsame : entry_key <$> matched out2.2 = entry_key <$> matched out1.2).
    { rewrite Hkeys1, Hkeys2. by rewrite Hw1. }
    exists out1.2, out2.2. split; [done|]. split; [done|].
    split; [|split; [done|split; [done|]]].
    + intros e He.
      assert (Hin : entry_key e ∈ entry_key <$> matched out2.2).
      { rewrite Hsame. by apply list_elem_of_fmap_2. }
      apply list_elem_of_fmap in Hin as (e' & Heq & He'). by exists e'.
    + intros e input _ Hcall. exfalso.
      assert (Hw2 : out2.1 = log_call CallListPeople out1.1)
        by apply forEachMember_dry.
      rewrite Hw2 in Hcall. simpl in Hcall.
      rewrite drop_app_length in Hcall.
      apply list_elem_of_singleton in Hcall. discriminate.
  - (* a live run *)
    destruct (forEachMember_store people cm tg (members_json w) []
                emptyResults w0 eq_refl Hnd)
      as (members' & Hst & Hall & Hcr & _).
    fold out1 in Hst, Hcr. simpl in Hst.
    destruct (forEachMember_directory people
                (buildPeopleByEmail toLowerCase people) cm tg (members_json w)
                emptyResults w0 people Hlist)
      as (ps' & Hps' & Hsub & Hcm & Hcr').
    fold out1 in Hps', Hcr'.
    rewrite (POST_results cm false out1.1 ps' Hps'). cbv zeta. cbn [fst snd].
    set (tg' := buildTeamToGroupMap (teams_json out1.1)).
    set (out2 := forEachMember _ (members_json out1.1) emptyResults _).
    pose proof (forEachMember_matched_keys ps' cm false tg'
                  (members_json out1.1) emptyResults
                  (log_call CallListPeople out1.1)) as Hkeys2.
    fold out2 in Hkeys2. simpl in Hkeys2. rewrite Hst in Hkeys2.
    assert (Hndup' : NoDup (member_id <$> members'))
      by (by rewrite (Forall2_Evolved_ids _ _ _ _ Hall)).
    (* the stored record of a member matched or created in the first run *)
    assert (Hrecord : ∀ e, e ∈ matched out1.2 ∨ e ∈ created out1.2 →
              ∃ m', m' ∈ members'
                    ∧ matchedKey toLowerCase ps' m' = Some (entry_key e)).
    { intros e [He|He].
      - assert (Hin : entry_key e ∈ entry_key <$> matched out1.2)
          by (by apply list_elem_of_fmap_2).
        rewrite Hkeys1 in Hin. apply list_elem_of_omap in Hin as (m & Hm & Hk).
        apply list_elem_of_lookup in Hm as (i & Hi).
        destruct (Forall2_lookup_l _ _ _ _ _ Hall Hi) as (m' & Hi' & Hev).
        exists m'. split; [by apply list_elem_of_lookup_2 in Hi'|].
        by apply (matchedKey_evolved (directory out1.1) people ps' cm m m').
      - destruct (Hcr e He) as [Hin|(m & m' & Hz & Hmem & Hl)];
          [by apply elem_of_nil in Hin|].
        destruct (Hcr' e He) as [Hin|(p & Hp & Hpid)];
          [by apply elem_of_nil in Hin|].
        exists m'. split; [by apply elem_of_zip_r in Hz|].
        rewrite (matchedKey_linked ps' m' (personId e) p Hl); [| |done..].
        + pose proof (Forall2_zip_elem _ _ _ _ _ Hall Hz) as Hev.
          unfold entry_key. rewrite Hmem. simpl.
          by rewrite (ev_id _ _ _ _ _ Hev).
        + rewrite <- Hpid. by apply (law_ids (directory out1.1) ps' p). }
    assert (Hagain : ∀ e, e ∈ matched out1.2 ∨ e ∈ created out1.2 →
              ∃ e', e' ∈ matched out2.2 ∧ entry_key e' = entry_key e).
    { intros e He. destruct (Hrecord e He) as (m' & Hm' & Hk).
      assert (Hin : entry_key e ∈ entry_key <$> matched out2.2).
      { rewrite Hkeys2. apply list_elem_of_omap. by exists m'. }
      apply list_elem_of_fmap in Hin as (e' & Heq & He'). by exists e'. }
    exists out1.2, out2.2. split; [done|]. split; [done|].
    split; [|split; [|split]].
    + intros e He. apply Hagain. by left.
    + intros _ e He. apply Hagain. by right.
    + intros [->|Hdr]; [|done].
      rewrite Hkeys1, Hkeys2, (Hcm eq_refl).
      apply (omap_matchedKey_evolved people false); [done| |done].
      intros m m' k Hev Hk.
      by apply (matchedKey_evolved (directory w) people people false m m').
    + intros e input He Hcall Hsys.
      destruct (forEachMember_calls ps' cm false tg' (members_json out1.1)
                  emptyResults (log_call CallListPeople out1.1))
        as (cs & Hcalls & Hcs).
      fold out2 in Hcalls. simpl in Hcalls.
      rewrite Hcalls, <- app_assoc, drop_app_length in Hcall.
      apply elem_of_cons in Hcall as [Hcall|Hcall]; [discriminate|].
      destruct (Hcs input Hcall) as (m2 & Hm2 & Hsys2 & Hnone).
      rewrite Hst in Hm2.
      assert (He' : e ∈ matched out1.2 ∨ e ∈ created out1.2)
        by (destruct He as [He|[_ He]]; [by left|by right]).
      destruct (Hrecord e He') as (m' & Hm' & Hk).
      destruct (matchedKey_Some _ _ _ Hk) as [Hid _]. simpl in Hid.
      assert (m2 = m').
      { apply (NoDup_fmap_eq member_id members'); [done..|]. congruence. }
      congruence.
Qed.

End Laws.

(** ** Further facts about the run *)

(** *** When the listing fails *)

(** X1. When [listPeople] throws, [POST] never answers a result. For a
    [ResponseError] it answers by the status of the response: 401 is "not
    authenticated"; another status from 200 to 599, 204, 205 and 304 apart,
    is answered under that status; and for any other status
    [NextResponse.json] throws, so [POST] answers nothing. For any other
    thrown value it answers 500. In every case it has made the listing call
    and no other, written the error to the console, and left both stores,
    the photos, the directory and the clock as they were, whatever the
    flags. *)
Theorem POST_listing_failure cm dr w err :
  listPeople (directory w) = inl err →
  let out := POST toLowerCase clock cm dr w in
  out.2 = errorResponse err
  ∧ (∀ status body message, err = ThrownResponseError status body message →
       (status = 401 → out.2 = RespNotAuthenticated)
       ∧ (status ≠ 401 → 200 ≤ status ≤ 599 → status ∉ [204; 205; 304] →
          out.2 = RespApiError status)
       ∧ (status < 200 ∨ 599 < status ∨ status ∈ [204; 205; 304] →
          out.2 = RespRejected))
  ∧ ((∀ status body message, err ≠ ThrownResponseError status body message) →
     out.2 = RespSyncFailed)
  ∧ (∀ res, out.2 ≠ RespResults res)
  ∧ members_json out.1 = members_json w
  ∧ teams_json out.1 = teams_json w
  ∧ photos out.1 = photos w
  ∧ directory out.1 = directory w
  ∧ ticks out.1 = ticks w
  ∧ calls out.1 = calls w ++ [CallListPeople]
  ∧ ∃ more, console out.1 = console w ++ LogSyncError err :: more.
Proof.
  intros Hl. cbv zeta.
  assert (Hout : POST toLowerCase clock cm dr w
                 = handleError err (log_call CallListPeople w)).
  { unfold POST, bind, ret, loadAllMembers, loadAllTeams, sdk_listPeople.
    simpl. by rewrite Hl. }
  rewrite Hout.
  assert (Hans : (handleError err (log_call CallListPeople w)).2 = errorResponse err).
  { unfold handleError, bind, ret, console_error, errorResponse.
    destruct err as [status [b|] msg|msg|]; simpl; try done;
      rewrite validStatus_spec; destruct (bool_decide (status = 401)); simpl;
      try done; by destruct (bool_decide _). }
  rewrite Hans.
  destruct (handleError_frame err (log_call CallListPeople w))
    as (Hm & Ht & Hp & Hd & Hc & Hti & more & Hco).
  split; [done|]. split.
  { intros status body message ->. unfold errorResponse. split; [|split].
    - intros ->. done.
    - intros Hne Hr Hn. rewrite bool_decide_eq_false_2 by done.
      by rewrite bool_decide_eq_true_2.
    - intros Hbad.
      rewrite bool_decide_eq_false_2
        by (intros ->; destruct Hbad as [?|[?|?]]; [lia|lia|set_solver]).
      rewrite bool_decide_eq_false_2; [done|].
      intros [Hr Hn]. destruct Hbad as [?|[?|?]]; [lia|lia|done]. }
  split.
  { intros Hno. destruct err as [status body msg|msg|]; [|done..].
    by destruct (Hno status body msg). }
  split.
  { intros res. unfold errorResponse.
    destruct err as [status body msg|msg|]; [|done..].
    destruct (bool_decide (status = 401)); [done|]. by destruct (bool_decide _). }
  split; [done|]. split; [done|]. split; [done|]. split; [done|]. split; [done|].
  split; [done|]. by exists more.
Qed.

(** *** What a run leaves alone *)

Lemma POST_listing_failure_stores cm dr w err :
  listPeople (directory w) = inl err →
  let out := POST toLowerCase clock cm dr w in
  members_json out.1 = members_json w
  ∧ teams_json out.1 = teams_json w
  ∧ photos out.1 = photos w.
Proof.
  intros Hl. unfold POST, bind, ret, loadAllMembers, loadAllTeams, sdk_listPeople.
  simpl. rewrite Hl.
  by destruct (handleError_frame err (log_call CallListPeople w))
    as (-> & -> & -> & _).
Qed.

Lemma updateMember_profile id v w :
  profile <$> members_json (updateMember clock id v w).1
  = profile <$> members_json w.
Proof.
  unfold updateMember, bind, ret, loadAllMembers, now, saveAllMembers. simpl.
  destruct (findIndex _ _) as [i|] eqn:Hfi; simpl; [|done].
  destruct (members_json w !! i) as [old|] eqn:Hold; simpl; [|done].
  rewrite list_fmap_insert. apply list_insert_id.
  by rewrite list_lookup_fmap, Hold.
Qed.

Lemma tryMatchMember_stores m peopleByEmail res cm dr teamToGroupMap photoBase64 w :
  let out := tryMatchMember toLowerCase clock m peopleByEmail res cm dr
               teamToGroupMap photoBase64 w in
  profile <$> members_json out.1 = profile <$> members_json w
  ∧ teams_json out.1 = teams_json w ∧ photos out.1 = photos w.
Proof.
  simpl.
  destruct (matchByEmail toLowerCase m peopleByEmail) as [p|] eqn:Hm.
  - rewrite (tryMatch_match _ _ _ _ _ _ _ _ _ Hm). simpl. destruct dr; [done|].
    destruct (afterUpdate_frame (person_id p)
                (getGroupIdsForMember m teamToGroupMap) photoBase64
                (updateMember clock (member_id m) (Some (person_id p)) w).1)
      as (-> & -> & -> & _).
    destruct (updateMember_frame (member_id m) (Some (person_id p)) w)
      as (-> & -> & _).
    by rewrite updateMember_profile.
  - destruct cm; [destruct dr|].
    + by rewrite tryMatch_create_dry.
    + destruct (createPerson
                  (createInput m (getGroupIdsForMember m teamToGroupMap) photoBase64)
                  (directory w)).2 as [err|newPerson] eqn:Hc.
      * by rewrite (tryMatch_create_failed _ _ _ _ _ _ err Hm Hc).
      * rewrite (tryMatch_create_ok _ _ _ _ _ _ newPerson Hm Hc). simpl.
        destruct (updateMember_frame (member_id m) (Some (person_id newPerson))
                    (afterCreate m teamToGroupMap photoBase64 w))
          as (-> & -> & _).
        by rewrite updateMember_profile.
    + by rewrite tryMatch_unmatched.
Qed.

Lemma processMember_stores people peopleByEmail cm dr teamToGroupMap m res w :
  let out := processMember toLowerCase clock people peopleByEmail cm dr
               teamToGroupMap m res w in
  profile <$> members_json out.1 = profile <$> members_json w
  ∧ teams_json out.1 = teams_json w ∧ photos out.1 = photos w.
Proof.
  simpl.
  destruct (processMember_cases people m)
    as [Hu|[(n & p & Hl & Hnz & Hin & Hid)|(n & Hl & Hnz & Hnone)]].
  - rewrite processMember_unlinked by done. apply tryMatchMember_stores.
  - by rewrite (processMember_present _ _ _ _ _ _ _ _ _ _ Hl Hnz Hin Hid).
  - rewrite (processMember_stale _ _ _ _ _ _ _ _ _ Hl Hnz Hnone).
    destruct (tryMatchMember_stores m peopleByEmail res cm dr teamToGroupMap
                (photos w !! photoName toLowerCase m)
                (if dr then w else (updateMember clock (member_id m) None w).1))
      as (-> & -> & ->).
    destruct dr; [done|].
    destruct (updateMember_frame (member_id m) None w) as (-> & -> & _).
    by rewrite updateMember_profile.
Qed.

Lemma forEachMember_stores people peopleByEmail cm dr teamToGroupMap members res w :
  let out := forEachMember
               (processMember toLowerCase clock people peopleByEmail cm dr
                  teamToGroupMap) members res w in
  profile <$> members_json out.1 = profile <$> members_json w
  ∧ teams_json out.1 = teams_json w ∧ photos out.1 = photos w.
Proof.
  revert res w. induction members as [|m members IH]; intros res w; [done|].
  cbv zeta. rewrite forEachMember_cons.
  destruct (processMember_stores people peopleByEmail cm dr teamToGroupMap m res w)
    as (Hp & Ht & Hph).
  set (step := processMember toLowerCase clock people peopleByEmail cm dr
                 teamToGroupMap m res w) in *.
  destruct (IH step.2 step.1) as (-> & -> & ->). done.
Qed.

(** X2. Whatever the flags and whatever the directory answers, a run never
    adds, deletes or reorders stored members and never changes a field of a
    member other than [doorflowPersonId] and [updatedAt]; it never writes
    the team store or the photos. *)
Theorem POST_keeps_profiles cm dr w :
  let out := POST toLowerCase clock cm dr w in
  profile <$> members_json out.1 = profile <$> members_json w
  ∧ member_id <$> members_json out.1 = member_id <$> members_json w
  ∧ length (members_json out.1) = length (members_json w)
  ∧ teams_json out.1 = teams_json w
  ∧ photos out.1 = photos w.
Proof.
  cbv zeta.
  assert (H : profile <$> members_json (POST toLowerCase clock cm dr w).1
              = profile <$> members_json w
              ∧ teams_json (POST toLowerCase clock cm dr w).1 = teams_json w
              ∧ photos (POST toLowerCase clock cm dr w).1 = photos w).
  { destruct (listPeople (directory w)) as [err|people] eqn:Hl.
    - destruct (POST_listing_failure_stores cm dr w err Hl)
        as (-> & -> & ->). done.
    - rewrite (POST_results _ _ _ _ Hl). cbv zeta. cbn [fst snd].
      by destruct (forEachMember_stores people
                     (buildPeopleByEmail toLowerCase people) cm dr
                     (buildTeamToGroupMap (teams_json w)) (members_json w)
                     emptyResults (log_call CallListPeople w))
        as (-> & -> & ->). }
  destruct H as (Hp & Ht & Hph). split; [done|]. split; [|split; [|done]].
  - assert (He : ∀ l : list CrmMember,
              member_id <$> l = member_id <$> (profile <$> l)).
    { intros l. by rewrite <- list_fmap_compose. }
    by rewrite (He (members_json _)), Hp, <- He.
  - apply (f_equal length) in Hp. by rewrite !length_fmap in Hp.
Qed.

(** *** Who lands where *)

Lemma processMember_not_pending people cm dr teamToGroupMap m res w k :
  matchedKey toLowerCase people m = Some k →
  let out := processMember toLowerCase clock people
               (buildPeopleByEmail toLowerCase people) cm dr teamToGroupMap
               m res w in
  created out.2 = created res ∧ unmatched out.2 = unmatched res
  ∧ errors out.2 = errors res.
Proof.
  intros Hk. simpl. unfold matchedKey in Hk.
  destruct (processMember_cases people m)
    as [Hu|[(n & p & Hl & Hnz & Hin & Hid)|(n & Hl & Hnz & Hnone)]].
  - rewrite processMember_unlinked by done.
    rewrite reaffirmed_unlinked in Hk by done.
    apply fmap_Some in Hk as (q & Hq & _).
    by rewrite (tryMatch_match _ _ _ _ _ _ _ _ _ Hq).
  - by rewrite (processMember_present _ _ _ _ _ _ _ _ _ _ Hl Hnz Hin Hid).
  - rewrite (processMember_stale _ _ _ _ _ _ _ _ _ Hl Hnz Hnone).
    rewrite (reaffirmed_stale _ _ _ Hl Hnone) in Hk.
    apply fmap_Some in Hk as (q & Hq & _).
    by rewrite (tryMatch_match _ _ _ _ _ _ _ _ _ Hq).
Qed.

Lemma processMember_pending people cm dr teamToGroupMap m res w :
  matchedKey toLowerCase people m = None →
  let out := processMember toLowerCase clock people
               (buildPeopleByEmail toLowerCase people) cm dr teamToGroupMap
               m res w in
  (cm = false → out.2 = push_unmatched m res)
  ∧ (cm = true → dr = true →
     out.2 = push_created {| member := m; personId := 0 |} res)
  ∧ (cm = true → dr = false →
     (∃ pid, out.2 = push_created
                       {| member := set_doorflowPersonId (Some pid) m;
                          personId := pid |} res)
     ∨ (∃ msg, out.2 = push_errors {| failed_member := m; error := msg |} res)).
Proof.
  intros Hk. simpl.
  assert (Htry : ∀ w1 photoBase64,
    reaffirmed people m = None →
    let out := tryMatchMember toLowerCase clock m
                 (buildPeopleByEmail toLowerCase people) res cm dr teamToGroupMap
                 photoBase64 w1 in
    (cm = false → out.2 = push_unmatched m res)
    ∧ (cm = true → dr = true →
       out.2 = push_created {| member := m; personId := 0 |} res)
    ∧ (cm = true → dr = false →
       (∃ pid, out.2 = push_created
                         {| member := set_doorflowPersonId (Some pid) m;
                            personId := pid |} res)
       ∨ (∃ msg, out.2 = push_errors {| failed_member := m; error := msg |} res))).
  { intros w1 photo Hre. simpl. unfold matchedKey in Hk. rewrite Hre in Hk.
    apply fmap_None in Hk. split; [|split].
    - intros ->. by rewrite tryMatch_unmatched.
    - intros -> ->. by rewrite tryMatch_create_dry.
    - intros -> ->.
      destruct (createPerson
                  (createInput m (getGroupIdsForMember m teamToGroupMap) photo)
                  (directory w1)).2 as [err|newPerson] eqn:Hc.
      + right. rewrite (tryMatch_create_failed _ _ _ _ _ _ err Hk Hc). by eexists.
      + left. rewrite (tryMatch_create_ok _ _ _ _ _ _ newPerson Hk Hc). by eexists. }
  destruct (processMember_cases people m)
    as [Hu|[(n & p & Hl & Hnz & Hin & Hid)|(n & Hl & Hnz & Hnone)]].
  - rewrite processMember_unlinked by done.
    apply Htry. by apply reaffirmed_unlinked.
  - exfalso. unfold matchedKey in Hk.
    by rewrite (reaffirmed_present _ _ _ _ Hl Hnz Hin Hid) in Hk.
  - rewrite (processMember_stale _ _ _ _ _ _ _ _ _ Hl Hnz Hnone).
    apply Htry. by apply (reaffirmed_stale _ _ _ Hl Hnone).
Qed.

Lemma pending_cons people m members :
  pending toLowerCase people (m :: members)
  = (if bool_decide (matchedKey toLowerCase people m = None) then [m] else [])
      ++ pending toLowerCase people members.
Proof.
  unfold pending. simpl.
  by destruct (bool_decide (matchedKey toLowerCase people m = None)).
Qed.

Lemma forEachMember_unmatched people cm dr teamToGroupMap members res w :
  unmatched (forEachMember
               (processMember toLowerCase clock people
                  (buildPeopleByEmail toLowerCase people) cm dr teamToGroupMap)
               members res w).2
  = unmatched res ++ (if cm then [] else pending toLowerCase people members).
Proof.
  revert res w. induction members as [|m members IH]; intros res w.
  - simpl. destruct cm; by rewrite app_nil_r.
  - rewrite forEachMember_cons, IH, pending_cons.
    destruct (matchedKey toLowerCase people m) as [k|] eqn:Hk.
    + destruct (processMember_not_pending people cm dr teamToGroupMap m res w k Hk)
        as (_ & -> & _).
      rewrite bool_decide_eq_false_2 by done. done.
    + destruct (processMember_pending people cm dr teamToGroupMap m res w Hk)
        as (Hun & Hdry & Hlive).
      rewrite bool_decide_eq_true_2 by done.
      destruct cm.
      * destruct dr.
        -- by rewrite (Hdry eq_refl eq_refl).
        -- destruct (Hlive eq_refl eq_refl) as [[pid ->]|[msg ->]]; done.
      * rewrite (Hun eq_refl). simpl. by rewrite <- app_assoc.
Qed.

Lemma forEachMember_without_create people dr teamToGroupMap members res w :
  let out := forEachMember
               (processMember toLowerCase clock people
                  (buildPeopleByEmail toLowerCase people) false dr teamToGroupMap)
               members res w in
  created out.2 = created res ∧ errors out.2 = errors res.
Proof.
  revert res w. induction members as [|m members IH]; intros res w; [done|].
  cbv zeta. rewrite forEachMember_cons.
  set (step := processMember toLowerCase clock people
                 (buildPeopleByEmail toLowerCase people) false dr teamToGroupMap
                 m res w).
  destruct (IH step.2 step.1) as (-> & ->). unfold step.
  destruct (matchedKey toLowerCase people m) as [k|] eqn:Hk.
  - by destruct (processMember_not_pending people false dr teamToGroupMap m res w
                   k Hk) as (-> & _ & ->).
  - destruct (processMember_pending people false dr teamToGroupMap m res w Hk)
      as (Hun & _). by rewrite (Hun eq_refl).
Qed.

Lemma forEachMember_dry_created people teamToGroupMap members res w :
  let out := forEachMember
               (processMember toLowerCase clock people
                  (buildPeopleByEmail toLowerCase people) true true teamToGroupMap)
               members res w in
  created out.2
  = created res ++ ((λ m, {| member := m; personId := 0 |}) <$>
                      pending toLowerCase people members)
  ∧ errors out.2 = errors res.
Proof.
  revert res w. induction members as [|m members IH]; intros res w.
  - simpl. by rewrite app_nil_r.
  - cbv zeta. rewrite forEachMember_cons, pending_cons.
    set (step := processMember toLowerCase clock people
                   (buildPeopleByEmail toLowerCase people) true true teamToGroupMap
                   m res w).
    destruct (IH step.2 step.1) as (-> & ->). unfold step.
    destruct (matchedKey toLowerCase people m) as [k|] eqn:Hk.
    + destruct (processMember_not_pending people true true teamToGroupMap m res w
                  k Hk) as (-> & _ & ->).
      by rewrite bool_decide_eq_false_2.
    + destruct (processMember_pending people true true teamToGroupMap m res w Hk)
        as (_ & Hdry & _).
      rewrite (Hdry eq_refl eq_refl), bool_decide_eq_true_2 by done.
      simpl. by rewrite <- app_assoc.
Qed.

Lemma forEachMember_live_created people teamToGroupMap members res w :
  let out := forEachMember
               (processMember toLowerCase clock people
                  (buildPeopleByEmail toLowerCase people) true false teamToGroupMap)
               members res w in
  ∃ cs es, created out.2 = created res ++ cs ∧ errors out.2 = errors res ++ es
    ∧ (member_id ∘ member <$> cs) ++ (member_id ∘ failed_member <$> es)
      ≡ₚ member_id <$> pending toLowerCase people members.
Proof.
  revert res w. induction members as [|m members IH]; intros res w.
  - simpl. exists [], []. by rewrite !app_nil_r.
  - cbv zeta. rewrite forEachMember_cons, pending_cons.
    set (step := processMember toLowerCase clock people
                   (buildPeopleByEmail toLowerCase people) true false teamToGroupMap
                   m res w).
    destruct (IH step.2 step.1) as (cs & es & -> & -> & Hperm). unfold step.
    destruct (matchedKey toLowerCase people m) as [k|] eqn:Hk.
    + destruct (processMember_not_pending people true false teamToGroupMap m res w
                  k Hk) as (-> & _ & ->).
      exists cs, es. by rewrite bool_decide_eq_false_2.
    + destruct (processMember_pending people true false teamToGroupMap m res w Hk)
        as (_ & _ & Hlive).
      rewrite bool_decide_eq_true_2 by done. rewrite fmap_app. simpl.
      destruct (Hlive eq_refl eq_refl) as [[pid ->]|[msg ->]]; simpl.
      * eexists (_ :: cs), es. rewrite <- app_assoc. split; [done|].
        split; [done|]. simpl. by rewrite Hperm.
      * eexists cs, (_ :: es). rewrite <- app_assoc. split; [done|].
        split; [done|]. rewrite fmap_cons. simpl.
        by rewrite <- Permutation_middle, Hperm.
Qed.

(** X3. For either value of [dryRun]: with [createMissing = false] the
    [unmatched] bucket is exactly the list of the loaded members that have
    neither a live link nor an email match, each reported as it was loaded
    and in store order, and [created] and [errors] are empty; with
    [createMissing = true] the [unmatched] bucket is empty. *)
Theorem POST_unmatched_bucket cm dr w people :
  listPeople (directory w) = inr people →
  ∃ res, (POST toLowerCase clock cm dr w).2 = RespResults res
    ∧ unmatched res
      = (if cm then [] else pending toLowerCase people (members_json w))
    ∧ (cm = false → created res = [] ∧ errors res = []).
Proof.
  intros Hl. rewrite (POST_results _ _ _ _ Hl). cbv zeta. cbn [fst snd].
  eexists. split; [done|]. split.
  - by rewrite forEachMember_unmatched.
  - intros ->. apply (forEachMember_without_create people dr
                        (buildTeamToGroupMap (teams_json w)) (members_json w)
                        emptyResults (log_call CallListPeople w)).
Qed.

(** X4. A dry run previews the live run from the same state: both report
    the same matched members with the same person ids and the same unmatched
    members; the dry run reports no error, and its [created] bucket holds,
    under the placeholder id [0] and as loaded, exactly the members that the
    live run either creates or reports in [errors]. *)
Theorem POST_dry_run_previews_live_run cm w people :
  listPeople (directory w) = inr people →
  ∃ dry live,
    (POST toLowerCase clock cm true w).2 = RespResults dry
    ∧ (POST toLowerCase clock cm false w).2 = RespResults live
    ∧ entry_key <$> matched dry = entry_key <$> matched live
    ∧ unmatched dry = unmatched live
    ∧ errors dry = []
    ∧ created dry
      = (λ m, {| member := m; personId := 0 |}) <$>
          (if cm then pending toLowerCase people (members_json w) else [])
    ∧ member_id ∘ member <$> created dry
      ≡ₚ (member_id ∘ member <$> created live)
           ++ (member_id ∘ failed_member <$> errors live).
Proof.
  intros Hl. rewrite !(POST_results _ _ _ _ Hl). cbv zeta. cbn [fst snd].
  set (tg := buildTeamToGroupMap (teams_json w)).
  set (w0 := log_call CallListPeople w).
  eexists _, _. split; [done|]. split; [done|].
  split; [by rewrite !forEachMember_matched_keys|].
  split; [by rewrite !forEachMember_unmatched|].
  destruct cm.
  - destruct (forEachMember_dry_created people tg (members_json w) emptyResults w0)
      as (Hcr & Her).
    destruct (forEachMember_live_created people tg (members_json w) emptyResults w0)
      as (cs & es & Hcs & Hes & Hperm).
    rewrite Hcr, Her, Hcs, Hes. simpl.
    split; [done|]. split; [done|].
    rewrite Hperm, <- list_fmap_compose. done.
  - destruct (forEachMember_without_create people true tg (members_json w)
                emptyResults w0) as (Hcr & Her).
    destruct (forEachMember_without_create people false tg (members_json w)
                emptyResults w0) as (Hcr' & Her').
    rewrite Hcr, Her, Hcr', Her'. done.
Qed.

(** *** How much a run does *)

Lemma updateMember_ticks id v w :
  (ticks w ≤ ticks (updateMember clock id v w).1 ≤ S (ticks w))%nat.
Proof.
  unfold updateMember, bind, ret, loadAllMembers, now, saveAllMembers. simpl.
  destruct (findIndex _ _) as [i|]; simpl; [|lia].
  destruct (members_json w !! i); simpl; lia.
Qed.

Ltac budget :=
  repeat match goal with |- _ ∧ _ => split end;
  simpl; try lia; try done; try (intros; by repeat constructor).

Lemma tryMatchMember_budget m peopleByEmail res cm dr teamToGroupMap photoBase64 w :
  let out := tryMatchMember toLowerCase clock m peopleByEmail res cm dr
               teamToGroupMap photoBase64 w in
  (ticks w ≤ ticks out.1 ≤ S (ticks w))%nat
  ∧ ∃ cs, calls out.1 = calls w ++ cs ∧ (length cs ≤ 1)%nat
      ∧ Forall (λ c, c ≠ CallListPeople) cs
      ∧ (dr = true → cs = [] ∧ ticks out.1 = ticks w)
      ∧ (cm = false → Forall (λ c, isCreateCall c = false) cs).
Proof.
  simpl.
  destruct (matchByEmail toLowerCase m peopleByEmail) as [p|] eqn:Hm.
  - rewrite (tryMatch_match _ _ _ _ _ _ _ _ _ Hm). simpl. destruct dr.
    + split; [lia|]. exists []. rewrite app_nil_r. budget.
    + pose proof (updateMember_ticks (member_id m) (Some (person_id p)) w) as Ht.
      destruct (updateMember_frame (member_id m) (Some (person_id p)) w)
        as (_ & _ & _ & Hc & _).
      destruct (afterUpdate_frame (person_id p)
                  (getGroupIdsForMember m teamToGroupMap) photoBase64
                  (updateMember clock (member_id m) (Some (person_id p)) w).1)
        as (_ & _ & _ & ->).
      split; [done|]. unfold afterUpdate. destruct (_ || _).
      * eexists [_]. split.
        { destruct (updatePerson _ _ _) as [r' [err|[]]]; simpl; by rewrite Hc. }
        budget.
      * exists []. rewrite app_nil_r, Hc. budget.
  - destruct cm; [destruct dr|].
    + rewrite tryMatch_create_dry by done. simpl.
      split; [lia|]. exists []. rewrite app_nil_r. budget.
    + destruct (createPerson
                  (createInput m (getGroupIdsForMember m teamToGroupMap) photoBase64)
                  (directory w)).2 as [err|newPerson] eqn:Hc.
      * rewrite (tryMatch_create_failed _ _ _ _ _ _ err Hm Hc). simpl.
        split; [lia|]. eexists [_]. budget.
      * rewrite (tryMatch_create_ok _ _ _ _ _ _ newPerson Hm Hc). simpl.
        pose proof (updateMember_ticks (member_id m) (Some (person_id newPerson))
                      (afterCreate m teamToGroupMap photoBase64 w)) as Ht.
        destruct (updateMember_frame (member_id m) (Some (person_id newPerson))
                    (afterCreate m teamToGroupMap photoBase64 w))
          as (_ & _ & _ & -> & _).
        split; [done|]. simpl. eexists [_]. budget.
    + rewrite tryMatch_unmatched by done. simpl.
      split; [lia|]. exists []. rewrite app_nil_r. budget.
Qed.

Lemma processMember_budget people peopleByEmail cm dr teamToGroupMap m res w :
  let out := processMember toLowerCase clock people peopleByEmail cm dr
               teamToGroupMap m res w in
  (ticks w ≤ ticks out.1 ≤ 2 + ticks w)%nat
  ∧ ∃ cs, calls out.1 = calls w ++ cs ∧ (length cs ≤ 1)%nat
      ∧ Forall (λ c, c ≠ CallListPeople) cs
      ∧ (dr = true → cs = [] ∧ ticks out.1 = ticks w)
      ∧ (cm = false → Forall (λ c, isCreateCall c = false) cs).
Proof.
  simpl.
  destruct (processMember_cases people m)
    as [Hu|[(n & p & Hl & Hnz & Hin & Hid)|(n & Hl & Hnz & Hnone)]].
  - rewrite processMember_unlinked by done.
    destruct (tryMatchMember_budget m peopleByEmail res cm dr teamToGroupMap
                (photos w !! photoName toLowerCase m) w) as (Ht & Hcs).
    split; [lia|done].
  - rewrite (processMember_present _ _ _ _ _ _ _ _ _ _ Hl Hnz Hin Hid). simpl.
    split; [lia|]. exists []. rewrite app_nil_r. budget.
  - rewrite (processMember_stale _ _ _ _ _ _ _ _ _ Hl Hnz Hnone).
    set (w1 := if dr then w else (updateMember clock (member_id m) None w).1).
    destruct (tryMatchMember_budget m peopleByEmail res cm dr teamToGroupMap
                (photos w !! photoName toLowerCase m) w1)
      as (Ht & cs & Hc & Hlen & Hnl & Hdry & Hcm).
    assert (Hw1 : calls w1 = calls w ∧ (ticks w ≤ ticks w1 ≤ S (ticks w))%nat
                  ∧ (dr = true → w1 = w)).
    { unfold w1. destruct dr.
      - budget.
      - destruct (updateMember_frame (member_id m) None w) as (_ & _ & _ & -> & _).
        pose proof (updateMember_ticks (member_id m) None w).
        budget. }
    destruct Hw1 as (Hcw & Htw & Hdw).
    split; [lia|]. exists cs. rewrite Hc, Hcw.
    split; [done|]. split; [done|]. split; [done|]. split; [|done].
    intros Hdr. destruct (Hdry Hdr) as [-> ->]. by rewrite (Hdw Hdr).
Qed.

Lemma forEachMember_budget people peopleByEmail cm dr teamToGroupMap members res w :
  let out := forEachMember
               (processMember toLowerCase clock people peopleByEmail cm dr
                  teamToGroupMap) members res w in
  (ticks w ≤ ticks out.1 ≤ 2 * length members + ticks w)%nat
  ∧ ∃ cs, calls out.1 = calls w ++ cs ∧ (length cs ≤ length members)%nat
      ∧ Forall (λ c, c ≠ CallListPeople) cs
      ∧ (dr = true → cs = [] ∧ ticks out.1 = ticks w)
      ∧ (cm = false → Forall (λ c, isCreateCall c = false) cs).
Proof.
  revert res w. induction members as [|m members IH]; intros res w.
  - simpl. split; [lia|]. exists []. rewrite app_nil_r. budget.
  - cbv zeta. rewrite forEachMember_cons.
    destruct (processMember_budget people peopleByEmail cm dr teamToGroupMap m res w)
      as (Ht1 & cs1 & Hc1 & Hlen1 & Hnl1 & Hdry1 & Hcm1).
    set (step := processMember toLowerCase clock people peopleByEmail cm dr
                   teamToGroupMap m res w) in *.
    destruct (IH step.2 step.1) as (Ht2 & cs2 & Hc2 & Hlen2 & Hnl2 & Hdry2 & Hcm2).
    split; [simpl; lia|]. exists (cs1 ++ cs2).
    rewrite Hc2, Hc1, app_assoc, length_app.
    split; [done|]. split; [simpl; lia|]. split; [by apply Forall_app|].
    split.
    + intros Hdr. destruct (Hdry1 Hdr) as [-> Ht]. destruct (Hdry2 Hdr) as [-> Ht'].
      split; [done|]. by rewrite Ht'.
    + intros Hcm. apply Forall_app. split; [by apply Hcm1|by apply Hcm2].
Qed.

(** X5. A run that gets its listing issues that one listing call and then
    at most one further SDK call per loaded member (none of them a listing,
    none at all in a dry run, and no [createPerson] unless [createMissing]),
    and writes the member store at most twice per loaded member. *)
Theorem POST_call_budget cm dr w people :
  listPeople (directory w) = inr people →
  let out := POST toLowerCase clock cm dr w in
  (ticks w ≤ ticks out.1 ≤ 2 * length (members_json w) + ticks w)%nat
  ∧ ∃ cs, calls out.1 = calls w ++ CallListPeople :: cs
      ∧ (length cs ≤ length (members_json w))%nat
      ∧ Forall (λ c, c ≠ CallListPeople) cs
      ∧ (dr = true → cs = [] ∧ ticks out.1 = ticks w)
      ∧ (cm = false → Forall (λ c, isCreateCall c = false) cs).
Proof.
  intros Hl. cbv zeta. rewrite (POST_results _ _ _ _ Hl). cbv zeta. cbn [fst snd].
  destruct (forEachMember_budget people (buildPeopleByEmail toLowerCase people)
              cm dr (buildTeamToGroupMap (teams_json w)) (members_json w)
              emptyResults (log_call CallListPeople w))
    as (Ht & cs & Hc & Hrest).
  split; [done|]. exists cs. split; [|done].
  rewrite Hc. simpl. by rewrite <- app_assoc.
Qed.

(** *** Matches are sound *)

Lemma matchByEmail_Some m people p :
  matchByEmail toLowerCase m (buildPeopleByEmail toLowerCase people) = Some p →
  email m ≠ ""%string
  ∧ p ∈ people
  ∧ ∃ e, person_email p = Some e ∧ e ≠ ""%string
         ∧ toLowerCase e = toLowerCase (email m).
Proof.
  unfold matchByEmail, truthy_string.
  destruct (decide (email m = ""%string)) as [He|He].
  - by rewrite bool_decide_eq_true_2.
  - rewrite bool_decide_eq_false_2 by done. simpl. intros Hp.
    apply buildPeopleByEmail_lookup in Hp as (l1 & l2 & e & -> & Hpe & Hne & Hk & _).
    split; [done|]. split; [set_solver|]. by exists e.
Qed.

(** What a [matched] entry for member [m] looks like. *)
Lemma processMember_matched_entry people cm dr teamToGroupMap m res w e :
  e ∈ matched (processMember toLowerCase clock people
                 (buildPeopleByEmail toLowerCase people) cm dr teamToGroupMap
                 m res w).2 →
  e ∈ matched res
  ∨ (eraseLink (member e) = eraseLink m
     ∧ doorflowPersonId (member e) = Some (personId e)
     ∧ ∃ p, p ∈ people ∧ person_id p = personId e
         ∧ (doorflowPersonId m = Some (personId e)
            ∨ (reaffirmed people m = None
               ∧ email m ≠ ""%string
               ∧ ∃ a, person_email p = Some a ∧ a ≠ ""%string
                      ∧ toLowerCase a = toLowerCase (email m)))).
Proof.
  assert (Htry : ∀ w1 photoBase64,
    reaffirmed people m = None →
    e ∈ matched (tryMatchMember toLowerCase clock m
                   (buildPeopleByEmail toLowerCase people) res cm dr
                   teamToGroupMap photoBase64 w1).2 →
    e ∈ matched res
    ∨ (eraseLink (member e) = eraseLink m
       ∧ doorflowPersonId (member e) = Some (personId e)
       ∧ ∃ p, p ∈ people ∧ person_id p = personId e
           ∧ (doorflowPersonId m = Some (personId e)
              ∨ (reaffirmed people m = None
                 ∧ email m ≠ ""%string
                 ∧ ∃ a, person_email p = Some a ∧ a ≠ ""%string
                        ∧ toLowerCase a = toLowerCase (email m))))).
  { intros w1 photo Hre.
    destruct (matchByEmail toLowerCase m (buildPeopleByEmail toLowerCase people))
      as [p|] eqn:Hm.
    - rewrite (tryMatch_match _ _ _ _ _ _ _ _ _ Hm). simpl.
      intros [He| ->%list_elem_of_singleton]%elem_of_app; [by left|].
      right. simpl. split; [done|]. split; [done|].
      destruct (matchByEmail_Some _ _ _ Hm) as (Hem & Hp & a & Ha & Hne & Hk).
      exists p. split; [done|]. split; [done|]. right.
      split; [done|]. split; [done|]. by exists a.
    - intros He. left. destruct cm; [destruct dr|].
      + by rewrite tryMatch_create_dry in He.
      + destruct (createPerson
                    (createInput m (getGroupIdsForMember m teamToGroupMap) photo)
                    (directory w1)).2 as [err|newPerson] eqn:Hc.
        * by rewrite (tryMatch_create_failed _ _ _ _ _ _ err Hm Hc) in He.
        * by rewrite (tryMatch_create_ok _ _ _ _ _ _ newPerson Hm Hc) in He.
      + by rewrite tryMatch_unmatched in He. }
  destruct (processMember_cases people m)
    as [Hu|[(n & p & Hl & Hnz & Hin & Hid)|(n & Hl & Hnz & Hnone)]].
  - rewrite processMember_unlinked by done.
    apply Htry. by apply reaffirmed_unlinked.
  - rewrite (processMember_present _ _ _ _ _ _ _ _ _ _ Hl Hnz Hin Hid). simpl.
    intros [He| ->%list_elem_of_singleton]%elem_of_app; [by left|].
    right. simpl. split; [done|]. split; [done|]. exists p.
    split; [done|]. split; [done|]. by left.
  - rewrite (processMember_stale _ _ _ _ _ _ _ _ _ Hl Hnz Hnone).
    apply Htry. by apply (reaffirmed_stale _ _ _ Hl Hnone).
Qed.

Lemma forEachMember_matched_entry people cm dr teamToGroupMap members res w e :
  e ∈ matched (forEachMember
                 (processMember toLowerCase clock people
                    (buildPeopleByEmail toLowerCase people) cm dr teamToGroupMap)
                 members res w).2 →
  e ∈ matched res
  ∨ ∃ m, m ∈ members
      ∧ eraseLink (member e) = eraseLink m
      ∧ doorflowPersonId (member e) = Some (personId e)
      ∧ ∃ p, p ∈ people ∧ person_id p = personId e
          ∧ (doorflowPersonId m = Some (personId e)
             ∨ (reaffirmed people m = None
                ∧ email m ≠ ""%string
                ∧ ∃ a, person_email p = Some a ∧ a ≠ ""%string
                       ∧ toLowerCase a = toLowerCase (email m))).
Proof.
  revert res w. induction members as [|m members IH]; intros res w.
  - simpl. by left.
  - rewrite forEachMember_cons. intros He.
    destruct (IH _ _ He) as [Hin|(m' & Hm' & Hrest)].
    + destruct (processMember_matched_entry _ _ _ _ _ _ _ _ Hin) as [Hres|Hnew].
      * by left.
      * right. exists m. split; [by left|done].
    + right. exists m'. split; [by right|done].
Qed.

(** X6. Every [matched] entry of a run is sound: it reports a loaded member
    with its link set to the reported person id, that id is the id of a
    person of the fetched list, and either it is the id the member was
    already linked to, or the member had no live link, its email is not
    empty and lower-cases to the same string as that person's email. *)
Theorem POST_matched_entries_sound cm dr w people res e :
  listPeople (directory w) = inr people →
  (POST toLowerCase clock cm dr w).2 = RespResults res →
  e ∈ matched res →
  ∃ m p, m ∈ members_json w ∧ p ∈ people
    ∧ eraseLink (member e) = eraseLink m
    ∧ doorflowPersonId (member e) = Some (personId e)
    ∧ person_id p = personId e
    ∧ (doorflowPersonId m = Some (personId e)
       ∨ (reaffirmed people m = None
          ∧ email m ≠ ""%string
          ∧ ∃ a, person_email p = Some a ∧ a ≠ ""%string
                 ∧ toLowerCase a = toLowerCase (email m))).
Proof.
  intros Hl. rewrite (POST_results _ _ _ _ Hl). cbv zeta. cbn [fst snd].
  intros [= <-] He.
  apply forEachMember_matched_entry in He
    as [Hin|(m & Hm & Her & Hlink & p & Hp & Hid & Hwhy)];
    [by apply elem_of_nil in Hin|].
  exists m, p. by repeat (split; [done|]).
Qed.

End EngineFacts.

(** ** Facts about the two stores *)

Lemma find_middle {A : Type} (f : A → bool) pre x post :
  (∀ y, y ∈ pre → f y = false) →
  List.find f (pre ++ x :: post) = if f x then Some x else List.find f post.
Proof.
  intros Hpre. induction pre as [|a pre IH]; simpl; [done|].
  rewrite (Hpre a) by (by left). apply IH. intros y Hy. apply Hpre. by right.
Qed.

Lemma find_None_iff {A : Type} (f : A → bool) l :
  List.find f l = None ↔ ∀ x, x ∈ l → f x = false.
Proof.
  split.
  - intros H x Hx. apply list_elem_of_In in Hx. by apply (find_none _ _ H).
  - intros H. destruct (List.find f l) as [x|] eqn:Hf; [|done].
    apply find_some in Hf as [Hin Hx]. apply list_elem_of_In in Hin.
    rewrite (H x Hin) in Hx. discriminate.
Qed.

(** The first element of a list that satisfies [f], with what precedes it. *)
Lemma first_split {A : Type} (f : A → bool) l x :
  x ∈ l → f x = true →
  ∃ pre y post, l = pre ++ y :: post ∧ f y = true ∧ ∀ z, z ∈ pre → f z = false.
Proof.
  induction l as [|a l IH]; intros Hin Hx; [by apply elem_of_nil in Hin|].
  destruct (f a) eqn:Hfa.
  - exists [], a, l. repeat split; [done|]. intros z Hz. by apply elem_of_nil in Hz.
  - apply elem_of_cons in Hin as [->|Hin]; [congruence|].
    destruct (IH Hin Hx) as (pre & y & post & -> & Hy & Hpre).
    exists (a :: pre), y, post. repeat split; [done|].
    intros z [->|Hz]%elem_of_cons; [done|by apply Hpre].
Qed.

Lemma delete_middle {A : Type} (pre : list A) x post :
  delete (length pre) (pre ++ x :: post) = pre ++ post.
Proof. induction pre as [|a pre IH]; simpl; [done|]. by rewrite IH. Qed.

Section StoreFacts.

Variable toLowerCase : string → string.
Variable clock : nat → string.
Context {R : Type} `{!PeopleApi R}.

Implicit Types (w : World R) (m : CrmMember) (t : CrmTeam).

(** *** Members *)

Lemma updateMember_first id v w pre m post :
  members_json w = pre ++ m :: post →
  member_id m = id → (∀ y, y ∈ pre → member_id y ≠ id) →
  updateMember clock id v w
  = (set_members_json (pre ++ updatedRecord v (clock (ticks w)) m :: post) (tick w),
     Some (updatedRecord v (clock (ticks w)) m)).
Proof.
  intros Hw Hid Hpre.
  unfold updateMember, bind, ret, loadAllMembers, now, saveAllMembers. simpl.
  rewrite Hw. rewrite (findIndex_middle _ pre m post).
  - rewrite list_lookup_middle by done. simpl.
    replace (length pre) with (length pre + 0)%nat by lia.
    by rewrite insert_app_r.
  - intros y Hy. apply bool_decide_eq_false. by apply Hpre.
  - by apply bool_decide_eq_true.
Qed.

(** The first record stored under an id, with what precedes it. *)
Lemma first_member id w m0 :
  m0 ∈ members_json w → member_id m0 = id →
  ∃ pre m post, members_json w = pre ++ m :: post ∧ member_id m = id
    ∧ ∀ y, y ∈ pre → member_id y ≠ id.
Proof.
  intros Hin Hid.
  destruct (first_split (λ m, bool_decide (member_id m = id)) _ _ Hin)
    as (pre & m & post & Hw & Hm & Hpre); [by apply bool_decide_eq_true|].
  apply bool_decide_eq_true in Hm. exists pre, m, post. repeat split; [done..|].
  intros y Hy. specialize (Hpre y Hy). by apply bool_decide_eq_false in Hpre.
Qed.

Lemma find_member_first id pre m post :
  member_id m = id → (∀ y, y ∈ pre → member_id y ≠ id) →
  List.find (λ m, bool_decide (member_id m = id)) (pre ++ m :: post) = Some m.
Proof.
  intros Hid Hpre. rewrite find_middle.
  - by rewrite bool_decide_eq_true_2.
  - intros y Hy. apply bool_decide_eq_false. by apply Hpre.
Qed.

(** Replacing a record by one with the same id does not change what is
    read under another id. *)
Lemma find_member_other id id' pre (m u : CrmMember) post :
  id' ≠ id → member_id m = id → member_id u = id →
  List.find (λ m, bool_decide (member_id m = id')) (pre ++ u :: post)
  = List.find (λ m, bool_decide (member_id m = id')) (pre ++ m :: post).
Proof.
  intros Hne Hm Hu. induction pre as [|a pre IH]; simpl.
  - rewrite !bool_decide_eq_false_2 by congruence. done.
  - by rewrite IH.
Qed.

Lemma find_member_skip id id' pre (m : CrmMember) post :
  id' ≠ id → member_id m = id →
  List.find (λ m, bool_decide (member_id m = id')) (pre ++ post)
  = List.find (λ m, bool_decide (member_id m = id')) (pre ++ m :: post).
Proof.
  intros Hne Hm. induction pre as [|a pre IH]; simpl.
  - by rewrite bool_decide_eq_false_2 by congruence.
  - by rewrite IH.
Qed.

(** X7. [updateMember] answers [null] exactly when no stored member has the
    id, and then it changes nothing: nothing is written and the clock is not
    read. Otherwise it answers the rewritten record, which is then in the
    store under the same id. *)
Theorem updateMember_unknown_id id v w :
  ((updateMember clock id v w).2 = None ↔
   ∀ m, m ∈ members_json w → member_id m ≠ id)
  ∧ ((updateMember clock id v w).2 = None → (updateMember clock id v w).1 = w)
  ∧ (∀ u, (updateMember clock id v w).2 = Some u →
          member_id u = id ∧ doorflowPersonId u = v
          ∧ updatedAt u = clock (ticks w)
          ∧ u ∈ members_json (updateMember clock id v w).1).
Proof.
  destruct (List.find (λ m, bool_decide (member_id m = id)) (members_json w))
    as [m0|] eqn:Hfind.
  - apply find_some in Hfind as [Hin Hm0]. apply list_elem_of_In in Hin.
    apply bool_decide_eq_true in Hm0.
    destruct (first_member id w m0 Hin Hm0) as (pre & m & post & Hw & Hm & Hpre).
    rewrite (updateMember_first id v w pre m post Hw Hm Hpre).
    simpl. split; [|split; [done|]].
    + split; [done|]. intros Hall. exfalso. by apply (Hall m0).
    + intros u [= <-]. simpl. repeat split; [done|]. set_solver.
  - assert (Hall : ∀ m, m ∈ members_json w → member_id m ≠ id).
    { intros m Hin. rewrite find_None_iff in Hfind.
      specialize (Hfind m Hin). by apply bool_decide_eq_false in Hfind. }
    assert (Hfi : findIndex (λ m, bool_decide (member_id m = id)) (members_json w)
                  = None).
    { apply findIndex_None. intros x Hx. apply bool_decide_eq_false. by apply Hall. }
    unfold updateMember, bind, ret, loadAllMembers. simpl. rewrite Hfi. simpl.
    split; [done|]. split; [done|]. by intros u.
Qed.

(** X8. Linking a stored member and reading it back.
    [linkMemberToDoorflow] on the id of a stored member answers the record
    [getMember] read under that id, with the link set and [updatedAt]
    stamped; [getMember] then answers that record,
    [getMemberByDoorflowId] finds a member with that link, members are read
    as before under every other id, and [unlinkMemberFromDoorflow]
    afterwards leaves the member read with no link. *)
Theorem link_then_read id pid w m0 :
  m0 ∈ members_json w → member_id m0 = id →
  let w' := (linkMemberToDoorflow clock id pid w).1 in
  let w'' := (unlinkMemberFromDoorflow clock id w').1 in
  ∃ old,
    (getMember id w).2 = Some old
    ∧ (linkMemberToDoorflow clock id pid w).2
      = Some (updatedRecord (Some pid) (clock (ticks w)) old)
    ∧ (getMember id w').2 = Some (updatedRecord (Some pid) (clock (ticks w)) old)
    ∧ (∃ found, (getMemberByDoorflowId pid w').2 = Some found
                ∧ doorflowPersonId found = Some pid)
    ∧ (∀ id', id' ≠ id → (getMember id' w').2 = (getMember id' w).2)
    ∧ (∃ u, (getMember id w'').2 = Some u ∧ doorflowPersonId u = None
            ∧ profile u = profile old).
Proof.
  intros Hin Hid. cbv zeta. unfold linkMemberToDoorflow, unlinkMemberFromDoorflow.
  destruct (first_member id w m0 Hin Hid) as (pre & m & post & Hw & Hm & Hpre).
  rewrite (updateMember_first id (Some pid) w pre m post Hw Hm Hpre). simpl.
  set (u := updatedRecord (Some pid) (clock (ticks w)) m).
  set (w' := set_members_json (pre ++ u :: post) (tick w)).
  rewrite (updateMember_first id None w' pre u post eq_refl Hm Hpre). simpl.
  unfold getMember, getMemberByDoorflowId, bind, ret, loadAllMembers. simpl.
  rewrite Hw. exists m.
  split; [by apply find_member_first|]. split; [done|].
  split; [by apply find_member_first|]. split; [|split].
  - destruct (List.find (λ m1, bool_decide (doorflowPersonId m1 = Some pid))
                (pre ++ u :: post)) as [found|] eqn:Hf.
    + exists found. split; [done|]. apply find_some in Hf as [_ Hf].
      by apply bool_decide_eq_true in Hf.
    + exfalso. rewrite find_None_iff in Hf. specialize (Hf u).
      rewrite bool_decide_eq_true_2 in Hf by done. discriminate Hf. set_solver.
  - intros id' Hne. by apply (find_member_other id).
  - eexists. split; [by apply find_member_first|]. done.
Qed.

(** X9. [deleteMember] answers [false] and changes nothing when no stored
    member has the id. Otherwise it answers [true] and removes the first
    record with that id, keeping all other records in their order; members
    are read as before under every other id, and with one record per id
    nothing is read under the deleted id any more. *)
Theorem deleteMember_removes_first id w :
  ((deleteMember id w).2 = false ↔ ∀ m, m ∈ members_json w → member_id m ≠ id)
  ∧ ((deleteMember id w).2 = false → (deleteMember id w).1 = w)
  ∧ ((deleteMember id w).2 = true →
     ∃ pre m post, members_json w = pre ++ m :: post ∧ member_id m = id
       ∧ (∀ y, y ∈ pre → member_id y ≠ id)
       ∧ (deleteMember id w).1 = set_members_json (pre ++ post) w
       ∧ (∀ id', id' ≠ id →
            (getMember id' (deleteMember id w).1).2 = (getMember id' w).2)
       ∧ (NoDup (member_id <$> members_json w) →
          (getMember id (deleteMember id w).1).2 = None)).
Proof.
  destruct (List.find (λ m, bool_decide (member_id m = id)) (members_json w))
    as [m0|] eqn:Hfind.
  - apply find_some in Hfind as [Hin Hm0]. apply list_elem_of_In in Hin.
    apply bool_decide_eq_true in Hm0.
    destruct (first_member id w m0 Hin Hm0) as (pre & m & post & Hw & Hm & Hpre).
    assert (Hdel : deleteMember id w = (set_members_json (pre ++ post) w, true)).
    { unfold deleteMember, bind, ret, loadAllMembers, saveAllMembers. simpl.
      rewrite Hw, (findIndex_middle _ pre m post).
      - simpl. by rewrite delete_middle.
      - intros y Hy. apply bool_decide_eq_false. by apply Hpre.
      - by apply bool_decide_eq_true. }
    rewrite Hdel. simpl. split; [|split; [done|]].
    + split; [done|]. intros Hall. exfalso. by apply (Hall m0).
    + intros _. exists pre, m, post. repeat split; [done..| |].
      * intros id' Hne. unfold getMember, bind, ret, loadAllMembers. simpl.
        rewrite Hw. by apply (find_member_skip id).
      * intros Hnd. unfold getMember, bind, ret, loadAllMembers. simpl.
        apply find_None_iff. intros x Hx. apply bool_decide_eq_false.
        rewrite Hw, fmap_app in Hnd. simpl in Hnd.
        apply NoDup_app in Hnd as (_ & Hdisj & Hpost).
        apply NoDup_cons in Hpost as [Hfresh _].
        apply elem_of_app in Hx as [Hx|Hx]; [by apply Hpre|].
        intros Hxid. apply Hfresh. rewrite Hm, <- Hxid.
        by apply list_elem_of_fmap_2.
  - assert (Hall : ∀ m, m ∈ members_json w → member_id m ≠ id).
    { intros m Hin. rewrite find_None_iff in Hfind.
      specialize (Hfind m Hin). by apply bool_decide_eq_false in Hfind. }
    assert (Hfi : findIndex (λ m, bool_decide (member_id m = id)) (members_json w)
                  = None).
    { apply findIndex_None. intros x Hx. apply bool_decide_eq_false. by apply Hall. }
    unfold deleteMember, bind, ret, loadAllMembers. simpl. rewrite Hfi. simpl.
    split; [done|]. split; done.
Qed.

(** X10. [createMember] appends one record: the input's fields under the
    drawn id, created and updated at the same instant; it answers that
    record and changes no stored record. When the drawn id is not in use the
    new record is read back under it and the ids stay unique; a member
    stored before is read as before under its id; and
    [getMemberByEmail], which ignores case, finds for the new email the
    member it found before if there was one and the new member otherwise. *)
Theorem createMember_appends uuid input w :
  let out := createMember clock uuid input w in
  let new := newMember uuid input (clock (ticks w)) in
  out.2 = new
  ∧ members_json out.1 = members_json w ++ [new]
  ∧ createdAt new = updatedAt new
  ∧ (uuid ∉ member_id <$> members_json w →
     (getMember uuid out.1).2 = Some new
     ∧ (NoDup (member_id <$> members_json w) →
        NoDup (member_id <$> members_json out.1)))
  ∧ (∀ id old, (getMember id w).2 = Some old → (getMember id out.1).2 = Some old)
  ∧ (getMemberByEmail toLowerCase (new_email input) out.1).2
    = match (getMemberByEmail toLowerCase (new_email input) w).2 with
      | Some existing => Some existing
      | None => Some new
      end.
Proof.
  cbv zeta.
  unfold createMember, getMember, getMemberByEmail, bind, ret, loadAllMembers, now,
    saveAllMembers. simpl.
  split; [done|]. split; [done|]. split; [done|]. split; [|split].
  - intros Hfresh. split.
    + rewrite find_middle.
      * by rewrite bool_decide_eq_true_2.
      * intros y Hy. apply bool_decide_eq_false. intros Hid. apply Hfresh.
        rewrite <- Hid. by apply list_elem_of_fmap_2.
    + intros Hnd. rewrite fmap_app. simpl. apply NoDup_app. split; [done|].
      split; [|apply NoDup_singleton].
      intros x Hx ->%list_elem_of_singleton. done.
  - intros id old Hold. induction (members_json w) as [|a l IH]; [done|].
    simpl in *. destruct (bool_decide (member_id a = id)); [done|]. by apply IH.
  - induction (members_json w) as [|a l IH]; simpl.
    + by rewrite bool_decide_eq_true_2.
    + destruct (bool_decide (toLowerCase (email a) = toLowerCase (new_email input)));
        [done|]. apply IH.
Qed.

(** X11. [getLinkedMembers] and [getUnlinkedMembers] split the store: every
    stored member is in exactly one of the two answers. Every member the
    engine takes for linked ([if (member.doorflowPersonId)]) is among the
    linked ones, and a member among the linked ones is taken for linked by
    the engine unless its stored id is [0]. *)
Theorem linked_and_unlinked_split_the_store w :
  let linked := (getLinkedMembers w).2 in
  let unlinked := (getUnlinkedMembers w).2 in
  linked ++ unlinked ≡ₚ members_json w
  ∧ (∀ m, m ∈ linked → m ∉ unlinked)
  ∧ (∀ m, m ∈ members_json w → isLinked m = true → m ∈ linked)
  ∧ (∀ m, m ∈ linked → doorflowPersonId m ≠ Some 0 → isLinked m = true)
  ∧ (getLinkedMembers w).1 = w ∧ (getUnlinkedMembers w).1 = w.
Proof.
  cbv zeta. unfold getLinkedMembers, getUnlinkedMembers, bind, ret, loadAllMembers.
  simpl. split; [|split; [|split; [|split; [|done]]]].
  - induction (members_json w) as [|a l IH]; [done|]. simpl.
    destruct (doorflowPersonId a) as [n|]; simpl.
    + by rewrite IH.
    + by rewrite <- Permutation_middle, IH.
  - intros m Hl Hu. apply list_elem_of_In, filter_In in Hl as [_ Hl].
    apply list_elem_of_In, filter_In in Hu as [_ Hu].
    apply bool_decide_eq_true in Hl, Hu. done.
  - intros m Hin Hlinked. apply list_elem_of_In, filter_In.
    split; [by apply list_elem_of_In|]. apply bool_decide_eq_true.
    unfold isLinked, truthy_onumber in Hlinked.
    by destruct (doorflowPersonId m).
  - intros m Hl Hnz. apply list_elem_of_In, filter_In in Hl as [_ Hl].
    apply bool_decide_eq_true in Hl.
    unfold isLinked, truthy_onumber, truthy_number.
    destruct (doorflowPersonId m) as [n|]; [|done].
    rewrite bool_decide_eq_false_2; [done|]. intros ->. done.
Qed.

(** *** Teams *)

Lemma first_team id w t0 :
  t0 ∈ teams_json w → team_id t0 = id →
  ∃ pre t post, teams_json w = pre ++ t :: post ∧ team_id t = id
    ∧ ∀ y, y ∈ pre → team_id y ≠ id.
Proof.
  intros Hin Hid.
  destruct (first_split (λ t, bool_decide (team_id t = id)) _ _ Hin)
    as (pre & t & post & Hw & Ht & Hpre); [by apply bool_decide_eq_true|].
  apply bool_decide_eq_true in Ht. exists pre, t, post. repeat split; [done..|].
  intros y Hy. specialize (Hpre y Hy). by apply bool_decide_eq_false in Hpre.
Qed.

Lemma updateTeam_first id updates w pre t post :
  teams_json w = pre ++ t :: post →
  team_id t = id → (∀ y, y ∈ pre → team_id y ≠ id) →
  updateTeam clock id updates w
  = (set_teams_json (pre ++ applyTeamUpdates updates (clock (ticks w)) t :: post)
       (tick w),
     Some (applyTeamUpdates updates (clock (ticks w)) t)).
Proof.
  intros Hw Hid Hpre.
  unfold updateTeam, bind, ret, loadAllTeams, now, saveAllTeams. simpl.
  rewrite Hw. rewrite (findIndex_middle _ pre t post).
  - rewrite list_lookup_middle by done. simpl.
    replace (length pre) with (length pre + 0)%nat by lia.
    by rewrite insert_app_r.
  - intros y Hy. apply bool_decide_eq_false. by apply Hpre.
  - by apply bool_decide_eq_true.
Qed.

Lemma no_team_findIndex id w :
  (∀ t, t ∈ teams_json w → team_id t ≠ id) →
  findIndex (λ t, bool_decide (team_id t = id)) (teams_json w) = None.
Proof.
  intros Hall. apply findIndex_None. intros x Hx.
  apply bool_decide_eq_false. by apply Hall.
Qed.

Lemma team_known_or_not id w :
  (∃ t0, t0 ∈ teams_json w ∧ team_id t0 = id)
  ∨ (∀ t, t ∈ teams_json w → team_id t ≠ id).
Proof.
  destruct (List.find (λ t, bool_decide (team_id t = id)) (teams_json w))
    as [t0|] eqn:Hfind.
  - left. apply find_some in Hfind as [Hin Ht0]. apply list_elem_of_In in Hin.
    apply bool_decide_eq_true in Ht0. by exists t0.
  - right. intros t Hin. rewrite find_None_iff in Hfind.
    specialize (Hfind t Hin). by apply bool_decide_eq_false in Hfind.
Qed.

(** X12. [updateTeam] answers [null] exactly when no stored team has the
    id, and then changes nothing. Otherwise it rewrites the first team with
    that id: the keys present in the update replace the team's values, the
    absent ones keep them, [updatedAt] is stamped, the id and [createdAt]
    stay; [getTeam] then answers the rewritten team; the list of team ids
    and the member store are as before. *)
Theorem updateTeam_rewrites_first id updates w :
  let out := updateTeam clock id updates w in
  (out.2 = None ↔ ∀ t, t ∈ teams_json w → team_id t ≠ id)
  ∧ (out.2 = None → out.1 = w)
  ∧ team_id <$> teams_json out.1 = team_id <$> teams_json w
  ∧ members_json out.1 = members_json w
  ∧ (∀ u, out.2 = Some u →
       ∃ old, (getTeam id w).2 = Some old
         ∧ u = applyTeamUpdates updates (clock (ticks w)) old
         ∧ team_id u = id ∧ team_createdAt u = team_createdAt old
         ∧ (upd_name updates = None → name u = name old)
         ∧ (upd_description updates = None → description u = description old)
         ∧ (upd_doorflowGroupId updates = None →
            doorflowGroupId u = doorflowGroupId old)
         ∧ (getTeam id out.1).2 = Some u).
Proof.
  cbv zeta. destruct (team_known_or_not id w) as [(t0 & Hin & Hid)|Hall].
  - destruct (first_team id w t0 Hin Hid) as (pre & t & post & Hw & Ht & Hpre).
    rewrite (updateTeam_first id updates w pre t post Hw Ht Hpre). simpl.
    split; [|split; [done|split; [|split; [done|]]]].
    + split; [done|]. intros Hall. exfalso. by apply (Hall t0).
    + rewrite Hw, !fmap_app. done.
    + intros u [= <-]. exists t.
      unfold getTeam, bind, ret, loadAllTeams. simpl. rewrite Hw.
      assert (Hfirst : ∀ x, team_id x = id →
                List.find (λ t, bool_decide (team_id t = id)) (pre ++ x :: post)
                = Some x).
      { intros x Hx. rewrite find_middle.
        - by rewrite bool_decide_eq_true_2.
        - intros y Hy. apply bool_decide_eq_false. by apply Hpre. }
      split; [by apply Hfirst|]. split; [done|]. split; [done|].
      split; [done|]. split; [by intros ->|]. split; [by intros ->|].
      split; [by intros ->|]. by apply Hfirst.
  - unfold updateTeam, bind, ret, loadAllTeams. simpl.
    rewrite (no_team_findIndex id w Hall). simpl.
    split; [done|]. split; [done|]. split; [done|]. split; [done|]. by intros u.
Qed.

(** With one team per id, replacing a team by one with the same id is an
    insert into, or a delete from, the engine's team-to-group map. *)
Lemma buildTeamToGroupMap_replace pre t t' post :
  NoDup (team_id <$> pre ++ t :: post) → team_id t' = team_id t →
  buildTeamToGroupMap (pre ++ t' :: post)
  = match doorflowGroupId t' with
    | Some g => <[team_id t := g]> (buildTeamToGroupMap (pre ++ t :: post))
    | None => delete (team_id t) (buildTeamToGroupMap (pre ++ t :: post))
    end.
Proof.
  intros Hnd Hid.
  assert (Hnd' : NoDup (team_id <$> pre ++ t' :: post)).
  { rewrite fmap_app in *. simpl in *. by rewrite Hid. }
  assert (Hfresh : ∀ x, x ∈ pre ++ post → team_id x ≠ team_id t).
  { intros x Hx Heq. rewrite fmap_app in Hnd. simpl in Hnd.
    apply NoDup_app in Hnd as (_ & Hdisj & Hpost).
    apply NoDup_cons in Hpost as [Hnot _].
    apply elem_of_app in Hx as [Hx|Hx].
    - apply (Hdisj (team_id x)); [by apply list_elem_of_fmap_2|].
      rewrite Heq. by left.
    - apply Hnot. rewrite <- Heq. by apply list_elem_of_fmap_2. }
  apply map_eq. intros k. apply option_eq. intros x.
  rewrite (buildTeamToGroupMap_lookup _ k x Hnd').
  destruct (doorflowGroupId t') as [g|] eqn:Hg.
  - rewrite lookup_insert_Some, (buildTeamToGroupMap_lookup _ k x Hnd). split.
    + intros (team & [Hin|[->|Hin]%elem_of_cons]%elem_of_app & Hk & Hx).
      * right. split; [intros <-; apply (Hfresh team); [set_solver|done]|].
        exists team. set_solver.
      * left. split; congruence.
      * right. split; [intros <-; apply (Hfresh team); [set_solver|done]|].
        exists team. set_solver.
    + intros [[<- <-]|(Hne & team & [Hin|[->|Hin]%elem_of_cons]%elem_of_app & Hk & Hx)].
      * exists t'. set_solver.
      * exists team. set_solver.
      * done.
      * exists team. set_solver.
  - rewrite lookup_delete_Some, (buildTeamToGroupMap_lookup _ k x Hnd). split.
    + intros (team & [Hin|[->|Hin]%elem_of_cons]%elem_of_app & Hk & Hx).
      * split; [intros <-; apply (Hfresh team); [set_solver|done]|].
        exists team. set_solver.
      * congruence.
      * split; [intros <-; apply (Hfresh team); [set_solver|done]|].
        exists team. set_solver.
    + intros (Hne & team & [Hin|[->|Hin]%elem_of_cons]%elem_of_app & Hk & Hx).
      * exists team. set_solver.
      * done.
      * exists team. set_solver.
Qed.

Lemma buildTeamToGroupMap_remove pre t post :
  NoDup (team_id <$> pre ++ t :: post) →
  buildTeamToGroupMap (pre ++ post)
  = delete (team_id t) (buildTeamToGroupMap (pre ++ t :: post)).
Proof.
  intros Hnd.
  assert (Hnd' : NoDup (team_id <$> pre ++ post)).
  { rewrite fmap_app in *. simpl in Hnd.
    apply NoDup_app in Hnd as (Hpre & Hdisj & Hpost).
    apply NoDup_cons in Hpost as [_ Hpost]. apply NoDup_app.
    split; [done|]. split; [|done]. intros x Hx Hx'. apply (Hdisj x Hx). by right. }
  assert (Hfresh : ∀ x, x ∈ pre ++ post → team_id x ≠ team_id t).
  { intros x Hx Heq. rewrite fmap_app in Hnd. simpl in Hnd.
    apply NoDup_app in Hnd as (_ & Hdisj & Hpost).
    apply NoDup_cons in Hpost as [Hnot _].
    apply elem_of_app in Hx as [Hx|Hx].
    - apply (Hdisj (team_id x)); [by apply list_elem_of_fmap_2|].
      rewrite Heq. by left.
    - apply Hnot. rewrite <- Heq. by apply list_elem_of_fmap_2. }
  apply map_eq. intros k. apply option_eq. intros x.
  rewrite (buildTeamToGroupMap_lookup _ k x Hnd').
  rewrite lookup_delete_Some, (buildTeamToGroupMap_lookup _ k x Hnd). split.
  - intros (team & Hin & Hk & Hx).
    split; [intros <-; by apply (Hfresh team)|].
    exists team. set_solver.
  - intros (Hne & team & [Hin|[->|Hin]%elem_of_cons]%elem_of_app & Hk & Hx).
    + exists team. set_solver.
    + done.
    + exists team. set_solver.
Qed.

(** X13. With one team per id: mapping a stored team to a group is an
    insert into the team-to-group map the engine builds, and unmapping it is
    a delete; so after [mapTeamToDoorflowGroup] every member of the team
    resolves to a group list that holds the group, both in the engine and in
    [getDoorflowGroupIdsForTeams], and after
    [unmapTeamFromDoorflowGroup] the team contributes nothing. *)
Theorem mapping_a_team_updates_the_resolution teamId g w t0 :
  NoDup (team_id <$> teams_json w) →
  t0 ∈ teams_json w → team_id t0 = teamId →
  let mapped := teams_json (mapTeamToDoorflowGroup clock teamId g w).1 in
  let unmapped := teams_json (unmapTeamFromDoorflowGroup clock teamId w).1 in
  buildTeamToGroupMap mapped = <[teamId := g]> (buildTeamToGroupMap (teams_json w))
  ∧ buildTeamToGroupMap unmapped = delete teamId (buildTeamToGroupMap (teams_json w))
  ∧ (∀ m, teamId ∈ teamIds m →
       g ∈ getGroupIdsForMember m (buildTeamToGroupMap mapped)
       ∧ g ∈ getDoorflowGroupIdsForTeams (teamIds m) mapped)
  ∧ (∀ m, teamIds m = [teamId] →
       getGroupIdsForMember m (buildTeamToGroupMap unmapped) = []
       ∧ getDoorflowGroupIdsForTeams (teamIds m) unmapped = []).
Proof.
  intros Hnd Hin Hid. cbv zeta.
  unfold mapTeamToDoorflowGroup, unmapTeamFromDoorflowGroup.
  destruct (first_team teamId w t0 Hin Hid) as (pre & t & post & Hw & Ht & Hpre).
  rewrite !(updateTeam_first teamId _ w pre t post Hw Ht Hpre). simpl.
  rewrite Hw in Hnd.
  set (tm := applyTeamUpdates
               {| upd_name := None; upd_description := None;
                  upd_doorflowGroupId := Some (Some g) |} (clock (ticks w)) t).
  set (tu := applyTeamUpdates
               {| upd_name := None; upd_description := None;
                  upd_doorflowGroupId := Some None |} (clock (ticks w)) t).
  assert (Hm : buildTeamToGroupMap (pre ++ tm :: post)
               = <[teamId := g]> (buildTeamToGroupMap (pre ++ t :: post))).
  { rewrite (buildTeamToGroupMap_replace pre t tm post Hnd eq_refl). simpl.
    by rewrite Ht. }
  assert (Hu : buildTeamToGroupMap (pre ++ tu :: post)
               = delete teamId (buildTeamToGroupMap (pre ++ t :: post))).
  { rewrite (buildTeamToGroupMap_replace pre t tu post Hnd eq_refl). simpl.
    by rewrite Ht. }
  rewrite Hw. split; [done|]. split; [done|]. split.
  - intros m Hteam. split.
    + rewrite getGroupIdsForMember_omap, Hm. apply list_elem_of_omap.
      exists teamId. split; [done|]. apply lookup_insert_eq.
    + rewrite getDoorflowGroupIdsForTeams_omap. apply list_elem_of_omap.
      exists tm. split; [|done]. apply list_elem_of_In, filter_In.
      split; [apply list_elem_of_In; set_solver|].
      apply bool_decide_eq_true. simpl. by rewrite Ht.
  - intros m Hteams. split.
    + rewrite getGroupIdsForMember_omap, Hu, Hteams. simpl.
      by rewrite lookup_delete_eq.
    + rewrite getDoorflowGroupIdsForTeams_omap, Hteams.
      assert (Hnil : ∀ g', g' ∉ omap doorflowGroupId
                 (List.filter (λ t1, bool_decide (team_id t1 ∈ [teamId]))
                    (pre ++ tu :: post))).
      { intros g' Hg'. apply list_elem_of_omap in Hg' as (x & Hx & Hgx).
        apply list_elem_of_In, filter_In in Hx as [Hx Hxid].
        apply list_elem_of_In in Hx. apply bool_decide_eq_true in Hxid.
        apply list_elem_of_singleton in Hxid.
        apply elem_of_app in Hx as [Hx|[->|Hx]%elem_of_cons].
        - by apply (Hpre x).
        - done.
        - rewrite fmap_app in Hnd. simpl in Hnd.
          apply NoDup_app in Hnd as (_ & _ & Hpost).
          apply NoDup_cons in Hpost as [Hnot _]. apply Hnot.
          rewrite Ht, <- Hxid. by apply list_elem_of_fmap_2. }
      destruct (omap _ _) as [|g' l]; [done|]. exfalso. apply (Hnil g'). by left.
Qed.

(** X14. [deleteTeam] answers [false] and changes nothing when no stored
    team has the id. Otherwise it answers [true] and removes the first team
    with that id, keeping the others in order and the member store as it
    was; with one team per id this is a delete from the team-to-group map
    the engine builds, so the team ids that members still carry resolve to
    nothing. *)
Theorem deleteTeam_removes_first id w :
  let out := deleteTeam id w in
  (out.2 = false ↔ ∀ t, t ∈ teams_json w → team_id t ≠ id)
  ∧ (out.2 = false → out.1 = w)
  ∧ members_json out.1 = members_json w
  ∧ (out.2 = true →
     ∃ pre t post, teams_json w = pre ++ t :: post ∧ team_id t = id
       ∧ (∀ y, y ∈ pre → team_id y ≠ id)
       ∧ teams_json out.1 = pre ++ post
       ∧ (NoDup (team_id <$> teams_json w) →
          buildTeamToGroupMap (teams_json out.1)
          = delete id (buildTeamToGroupMap (teams_json w))
          ∧ (getTeam id out.1).2 = None
          ∧ ∀ m, teamIds m = [id] →
              getGroupIdsForMember m (buildTeamToGroupMap (teams_json out.1)) = [])).
Proof.
  cbv zeta. destruct (team_known_or_not id w) as [(t0 & Hin & Hid)|Hall].
  - destruct (first_team id w t0 Hin Hid) as (pre & t & post & Hw & Ht & Hpre).
    assert (Hdel : deleteTeam id w = (set_teams_json (pre ++ post) w, true)).
    { unfold deleteTeam, bind, ret, loadAllTeams, saveAllTeams. simpl.
      rewrite Hw, (findIndex_middle _ pre t post).
      - simpl. by rewrite delete_middle.
      - intros y Hy. apply bool_decide_eq_false. by apply Hpre.
      - by apply bool_decide_eq_true. }
    rewrite Hdel. simpl. split; [|split; [done|split; [done|]]].
    + split; [done|]. intros Hall. exfalso. by apply (Hall t0).
    + intros _. exists pre, t, post.
      split; [done|]. split; [done|]. split; [done|]. split; [done|].
      intros Hnd. rewrite Hw in Hnd.
      pose proof (buildTeamToGroupMap_remove pre t post Hnd) as Hmap.
      rewrite Ht in Hmap. rewrite Hw. split; [done|]. split.
      * unfold getTeam, bind, ret, loadAllTeams. simpl.
        apply find_None_iff. intros x Hx. apply bool_decide_eq_false.
        rewrite fmap_app in Hnd. simpl in Hnd.
        apply NoDup_app in Hnd as (_ & _ & Hpost).
        apply NoDup_cons in Hpost as [Hnot _].
        apply elem_of_app in Hx as [Hx|Hx]; [by apply Hpre|].
        intros Hxid. apply Hnot. rewrite Ht, <- Hxid.
        by apply list_elem_of_fmap_2.
      * intros m Hteams. rewrite getGroupIdsForMember_omap, Hmap, Hteams. simpl.
        by rewrite lookup_delete_eq.
  - unfold deleteTeam, bind, ret, loadAllTeams. simpl.
    rewrite (no_team_findIndex id w Hall). simpl.
    split; [done|]. split; done.
Qed.

(** X15. With one team per id the two resolutions agree on which groups a
    member gets: a group id is in the list [getGroupIdsForMember] derives
    from the engine's map exactly when it is in the list
    [getDoorflowGroupIdsForTeams] derives from the stored teams. (The first
    follows the order of the member's team ids, the second the order of the
    stored teams.) *)
Theorem resolutions_agree m teams g :
  NoDup (team_id <$> teams) →
  g ∈ getGroupIdsForMember m (buildTeamToGroupMap teams) ↔
  g ∈ getDoorflowGroupIdsForTeams (teamIds m) teams.
Proof.
  intros Hnd. rewrite getGroupIdsForMember_omap, getDoorflowGroupIdsForTeams_omap.
  rewrite !list_elem_of_omap. split.
  - intros (tid & Htid & Hg). apply buildTeamToGroupMap_lookup in Hg; [|done].
    destruct Hg as (team & Hin & <- & Hg). exists team. split; [|done].
    apply list_elem_of_In, filter_In. split; [by apply list_elem_of_In|].
    by apply bool_decide_eq_true.
  - intros (team & Hin & Hg). apply list_elem_of_In, filter_In in Hin as [Hin Hid].
    apply list_elem_of_In in Hin. apply bool_decide_eq_true in Hid.
    exists (team_id team). split; [done|].
    apply buildTeamToGroupMap_lookup; [done|]. by exists team.
Qed.

(** *** New teams, mapped and unmapped teams *)

Lemma find_team_app id (teams : list CrmTeam) old extra :
  List.find (λ t, bool_decide (team_id t = id)) teams = Some old →
  List.find (λ t, bool_decide (team_id t = id)) (teams ++ extra) = Some old.
Proof.
  induction teams as [|a l IH]; [done|]. simpl.
  destruct (bool_decide (team_id a = id)); [done|]. apply IH.
Qed.

(** X18. [createTeam] appends one team: the input's fields under the drawn
    id, created and updated at the same instant; it answers that team and
    leaves the stored teams and the member store as they were. If the new
    team carries a group, the team-to-group map the engine builds gains that
    entry under the drawn id, and otherwise the map is as before. When the
    drawn id is not in use the new team is read back under it and the ids
    stay unique; a team stored before is read as before under its id. *)
Theorem createTeam_appends uuid input w :
  let out := createTeam clock uuid input w in
  let new := newTeam uuid input (clock (ticks w)) in
  out.2 = new
  ∧ teams_json out.1 = teams_json w ++ [new]
  ∧ members_json out.1 = members_json w
  ∧ team_createdAt new = team_updatedAt new
  ∧ buildTeamToGroupMap (teams_json out.1)
    = match new_doorflowGroupId input with
      | Some g => <[uuid := g]> (buildTeamToGroupMap (teams_json w))
      | None => buildTeamToGroupMap (teams_json w)
      end
  ∧ (uuid ∉ team_id <$> teams_json w →
     (getTeam uuid out.1).2 = Some new
     ∧ (NoDup (team_id <$> teams_json w) →
        NoDup (team_id <$> teams_json out.1)))
  ∧ (∀ id old, (getTeam id w).2 = Some old → (getTeam id out.1).2 = Some old).
Proof.
  cbv zeta.
  unfold createTeam, getTeam, bind, ret, loadAllTeams, now, saveAllTeams. simpl.
  split; [done|]. split; [done|]. split; [done|]. split; [done|].
  split; [apply buildTeamToGroupMap_snoc|]. split.
  - intros Hfresh. split.
    + rewrite find_middle.
      * by rewrite bool_decide_eq_true_2.
      * intros y Hy. apply bool_decide_eq_false. intros Hid. apply Hfresh.
        rewrite <- Hid. by apply list_elem_of_fmap_2.
    + intros Hnd. rewrite fmap_app. simpl. apply NoDup_app. split; [done|].
      split; [|apply NoDup_singleton].
      intros x Hx ->%list_elem_of_singleton. done.
  - intros id old Hold. by apply find_team_app.
Qed.

(** The keys of the engine's map are the ids of the teams that carry a
    group. *)
Lemma buildTeamToGroupMap_is_Some teams id :
  is_Some (buildTeamToGroupMap teams !! id) ↔
  ∃ t, t ∈ teams ∧ team_id t = id ∧ doorflowGroupId t ≠ None.
Proof.
  induction teams as [|x teams IH] using rev_ind.
  - split; [by intros [? ?]|]. intros (t & Ht & _). by apply elem_of_nil in Ht.
  - rewrite buildTeamToGroupMap_snoc. split.
    + intros Hs. destruct (doorflowGroupId x) as [g|] eqn:Hg.
      * destruct (decide (team_id x = id)) as [Hx|Hx].
        -- exists x. split; [set_solver|]. split; [done|]. by rewrite Hg.
        -- rewrite lookup_insert_ne in Hs by done.
           apply IH in Hs as (t & Ht & Hid & Hsome). exists t. set_solver.
      * apply IH in Hs as (t & Ht & Hid & Hsome). exists t. set_solver.
    + intros (t & [Ht|Ht%list_elem_of_singleton]%elem_of_app & Hid & Hsome).
      * assert (Hold : is_Some (buildTeamToGroupMap teams !! id))
          by (apply IH; by exists t).
        destruct (doorflowGroupId x) as [g|]; [|done].
        destruct (decide (team_id x = id)) as [Hx|Hx].
        -- rewrite Hx, lookup_insert_eq. by eexists.
        -- by rewrite lookup_insert_ne.
      * subst t. destruct (doorflowGroupId x) as [g|]; [|done].
        rewrite Hid, lookup_insert_eq. by eexists.
Qed.

(** X19. [getMappedTeams] and [getUnmappedTeams] split the team store: every
    stored team is in exactly one of the two answers. The mapped teams are
    the ones the engine sees: a team id has an entry in the engine's
    team-to-group map exactly when a mapped team has that id, and a group is
    in the list [getDoorflowGroupIdsForTeams] resolves for some team ids
    exactly when a mapped team with one of these ids carries it.
    [getTeamByDoorflowGroupId] answers a mapped team that carries the group,
    or [null] when no stored team carries it. *)
Theorem mapped_teams_are_what_resolves w :
  let mapped := (getMappedTeams w).2 in
  let unmapped := (getUnmappedTeams w).2 in
  mapped ++ unmapped ≡ₚ teams_json w
  ∧ (∀ t, t ∈ mapped → t ∉ unmapped)
  ∧ (∀ id, is_Some (buildTeamToGroupMap (teams_json w) !! id) ↔
           ∃ t, t ∈ mapped ∧ team_id t = id)
  ∧ (∀ ids g, g ∈ getDoorflowGroupIdsForTeams ids (teams_json w) ↔
              ∃ t, t ∈ mapped ∧ team_id t ∈ ids ∧ doorflowGroupId t = Some g)
  ∧ (∀ g, match (getTeamByDoorflowGroupId g w).2 with
          | Some t => t ∈ mapped ∧ doorflowGroupId t = Some g
          | None => ∀ t, t ∈ teams_json w → doorflowGroupId t ≠ Some g
          end).
Proof.
  cbv zeta.
  unfold getMappedTeams, getUnmappedTeams, getTeamByDoorflowGroupId, bind, ret,
    loadAllTeams. simpl.
  assert (Hmapped : ∀ t, t ∈ List.filter (λ t, bool_decide (doorflowGroupId t ≠ None))
                               (teams_json w)
                         ↔ t ∈ teams_json w ∧ doorflowGroupId t ≠ None).
  { intros t. by rewrite list_elem_of_In, filter_In, bool_decide_eq_true,
      <- list_elem_of_In. }
  split; [|split; [|split; [|split]]].
  - clear Hmapped. induction (teams_json w) as [|a l IH]; [done|]. simpl.
    destruct (doorflowGroupId a) as [n|]; simpl.
    + by rewrite IH.
    + by rewrite <- Permutation_middle, IH.
  - intros t Hm Hu. apply Hmapped in Hm as [_ Hm].
    apply list_elem_of_In, filter_In in Hu as [_ Hu].
    by apply bool_decide_eq_true in Hu.
  - intros id. rewrite buildTeamToGroupMap_is_Some. split.
    + intros (t & Ht & Hid & Hsome). exists t. split; [by apply Hmapped|done].
    + intros (t & [Ht Hsome]%Hmapped & Hid). by exists t.
  - intros ids g. rewrite getDoorflowGroupIdsForTeams_omap, list_elem_of_omap. split.
    + intros (t & Ht & Hg). apply list_elem_of_In, filter_In in Ht as [Ht Hid].
      apply list_elem_of_In in Ht. apply bool_decide_eq_true in Hid.
      exists t. split; [|done]. apply Hmapped. split; [done|]. by rewrite Hg.
    + intros (t & [Ht Hsome]%Hmapped & Hid & Hg). exists t. split; [|done].
      apply list_elem_of_In, filter_In. split; [by apply list_elem_of_In|].
      by apply bool_decide_eq_true.
  - intros g.
    destruct (List.find _ (teams_json w)) as [t|] eqn:Hfind.
    + apply find_some in Hfind as [Hin Ht]. apply list_elem_of_In in Hin.
      apply bool_decide_eq_true in Ht. split; [|done].
      apply Hmapped. split; [done|]. by rewrite Ht.
    + intros t Hin. rewrite find_None_iff in Hfind.
      specialize (Hfind t Hin). by apply bool_decide_eq_false in Hfind.
Qed.

(** *** Pushing a team's groups *)

(** The call [syncMemberGroupsToDoorFlow] makes for a member. *)
Lemma syncMemberGroupsToDoorFlow_spec pid ids w :
  let groupIds := getDoorflowGroupIdsForTeams ids (teams_json w) in
  let r := updatePerson pid (groupsInput groupIds) (directory w) in
  let out := syncMemberGroupsToDoorFlow pid ids w in
  out.1 = set_directory r.1 (log_call (CallUpdatePerson pid (groupsInput groupIds)) w)
  ∧ out.2 = match r.2 with
            | inl err => inl err
            | inr _ => inr (LogSynced pid groupIds)
            end.
Proof.
  cbv zeta. unfold syncMemberGroupsToDoorFlow, loadDoorflowGroupIdsForTeams, bind,
    ret, loadAllTeams, sdk_updatePerson. simpl.
  by destruct (updatePerson _ _ _) as [r' [err|[]]].
Qed.

Lemma syncEach_cons m members syncedCount lines w :
  syncEach (m :: members) syncedCount lines w
  = let step := syncMemberGroupsToDoorFlow (default 0 (doorflowPersonId m))
                  (teamIds m) w in
    match step.2 with
    | inl err =>
        syncEach members syncedCount
          (lines ++ [LogMemberSyncFailed (member_id m) err]) step.1
    | inr line => syncEach members (S syncedCount) (lines ++ [line]) step.1
    end.
Proof.
  cbv zeta. cbn [syncEach]. unfold bind at 1.
  by destruct (syncMemberGroupsToDoorFlow _ _ w) as [w' [err|line]].
Qed.

Lemma syncEach_spec members syncedCount lines w :
  let out := syncEach members syncedCount lines w in
  members_json out.1 = members_json w ∧ teams_json out.1 = teams_json w
  ∧ photos out.1 = photos w ∧ ticks out.1 = ticks w ∧ console out.1 = console w
  ∧ calls out.1
    = calls w ++ ((λ m, CallUpdatePerson (default 0 (doorflowPersonId m))
                          (groupsInput
                             (getDoorflowGroupIdsForTeams (teamIds m)
                                (teams_json w)))) <$> members)
  ∧ ∃ new, out.2.1 = lines ++ new ∧ length new = length members
      ∧ out.2.2 = (syncedCount + length (List.filter isSynced new))%nat.
Proof.
  revert syncedCount lines w.
  induction members as [|m members IH]; intros c ls w.
  - simpl. rewrite app_nil_r. repeat split; [done..|].
    exists []. rewrite app_nil_r. simpl. split; [done|]. split; [done|]. lia.
  - cbv zeta. rewrite syncEach_cons. cbv zeta. rewrite fmap_cons. cbn [length].
    destruct (syncMemberGroupsToDoorFlow_spec (default 0 (doorflowPersonId m))
                (teamIds m) w) as (Hw1 & Hr).
    set (step := syncMemberGroupsToDoorFlow (default 0 (doorflowPersonId m))
                   (teamIds m) w) in *.
    assert (Hframe : members_json step.1 = members_json w
                     ∧ teams_json step.1 = teams_json w
                     ∧ photos step.1 = photos w ∧ ticks step.1 = ticks w
                     ∧ console step.1 = console w
                     ∧ calls step.1
                       = calls w ++ [CallUpdatePerson (default 0 (doorflowPersonId m))
                                       (groupsInput
                                          (getDoorflowGroupIdsForTeams (teamIds m)
                                             (teams_json w)))])
      by (by rewrite Hw1).
    destruct Hframe as (Hm & Ht & Hp & Hti & Hco & Hca).
    destruct step.2 as [err|line] eqn:Hstep.
    + destruct (IH c (ls ++ [LogMemberSyncFailed (member_id m) err]) step.1)
        as (-> & -> & -> & -> & -> & -> & new & -> & Hlen & ->).
      rewrite Ht, Hca, <- app_assoc. repeat split; [done..|].
      exists (LogMemberSyncFailed (member_id m) err :: new).
      rewrite <- app_assoc. simpl. split; [done|]. split; [by rewrite Hlen|done].
    + assert (Hline : isSynced line = true).
      { by destruct (updatePerson _ _ _).2 in Hr; inversion Hr. }
      destruct (IH (S c) (ls ++ [line]) step.1)
        as (-> & -> & -> & -> & -> & -> & new & -> & Hlen & ->).
      rewrite Ht, Hca, <- app_assoc. repeat split; [done..|].
      exists (line :: new). rewrite <- app_assoc. simpl. rewrite Hline. simpl.
      split; [done|]. split; [by rewrite Hlen|lia].
Qed.

Lemma teamMembers_elem teamId members m :
  m ∈ teamMembers teamId members ↔
  m ∈ members ∧ teamId ∈ teamIds m ∧ isLinked m = true.
Proof.
  unfold teamMembers, isLinked. rewrite list_elem_of_In, filter_In, andb_true_iff.
  by rewrite bool_decide_eq_true, <- list_elem_of_In.
Qed.

(** X16. [syncTeamMembersToDoorFlow] selects the stored members that carry
    the team id and a truthy person id, and issues exactly one
    [updatePerson] for each of them, in store order, with the group list
    resolved from that member's team ids (a list that is sent even when it
    is empty), whether or not earlier updates failed. It writes one console
    line per selected member, answers the number of updates that succeeded,
    and leaves both stores alone. *)
Theorem syncTeamMembersToDoorFlow_pushes_each teamId w :
  let selected := teamMembers teamId (members_json w) in
  let out := syncTeamMembersToDoorFlow teamId w in
  (∀ m, m ∈ selected ↔
        m ∈ members_json w ∧ teamId ∈ teamIds m ∧ isLinked m = true)
  ∧ calls out.1
    = calls w ++ ((λ m, CallUpdatePerson (default 0 (doorflowPersonId m))
                          (groupsInput
                             (getDoorflowGroupIdsForTeams (teamIds m)
                                (teams_json w)))) <$> selected)
  ∧ length out.2.1 = length selected
  ∧ out.2.2 = length (List.filter isSynced out.2.1)
  ∧ (out.2.2 ≤ length selected)%nat
  ∧ members_json out.1 = members_json w ∧ teams_json out.1 = teams_json w
  ∧ ticks out.1 = ticks w.
Proof.
  cbv zeta. unfold syncTeamMembersToDoorFlow, bind, loadAllMembers. simpl.
  destruct (syncEach_spec (teamMembers teamId (members_json w)) 0 [] w)
    as (Hm & Ht & _ & Hti & _ & Hc & new & Hl & Hlen & Hn).
  split; [intros m; apply teamMembers_elem|].
  simpl in Hl. rewrite Hl, Hn, Hlen. split; [done|]. split; [done|].
  split; [done|]. split; [|done].
  simpl. rewrite <- Hlen. apply List.filter_length_le.
Qed.

(** After [mapTeamToDoorflowGroup], the stored teams resolve the team id to
    the group. *)
Lemma mapped_team_resolves teamId g w t0 ids :
  t0 ∈ teams_json w → team_id t0 = teamId → teamId ∈ ids →
  g ∈ getDoorflowGroupIdsForTeams ids
        (teams_json (mapTeamToDoorflowGroup clock teamId g w).1).
Proof.
  intros Hin Hid Hids. unfold mapTeamToDoorflowGroup.
  destruct (first_team teamId w t0 Hin Hid) as (pre & t & post & Hw & Ht & Hpre).
  rewrite (updateTeam_first teamId _ w pre t post Hw Ht Hpre). simpl.
  rewrite getDoorflowGroupIdsForTeams_omap. apply list_elem_of_omap.
  exists (applyTeamUpdates
            {| upd_name := None; upd_description := None;
               upd_doorflowGroupId := Some (Some g) |} (clock (ticks w)) t).
  split; [|done].
  apply list_elem_of_In, filter_In. split; [apply list_elem_of_In; set_solver|].
  apply bool_decide_eq_true. simpl. by rewrite Ht.
Qed.

(** X17. Mapping a stored team to a group and then pushing the team: every
    call [syncTeamMembersToDoorFlow] issues is an [updatePerson] whose group
    list holds the new group, and there is one for every stored member that
    carries the team id and a truthy person id, addressed to that person. *)
Theorem map_then_push teamId g w t0 :
  t0 ∈ teams_json w → team_id t0 = teamId →
  let w1 := (mapTeamToDoorflowGroup clock teamId g w).1 in
  let out := syncTeamMembersToDoorFlow teamId w1 in
  ∃ cs, calls out.1 = calls w ++ cs
    ∧ (∀ c, c ∈ cs → ∃ pid groupIds,
              c = CallUpdatePerson pid (groupsInput groupIds) ∧ g ∈ groupIds)
    ∧ (∀ m pid, m ∈ members_json w → teamId ∈ teamIds m →
                doorflowPersonId m = Some pid → pid ≠ 0 →
                ∃ groupIds, CallUpdatePerson pid (groupsInput groupIds) ∈ cs
                            ∧ g ∈ groupIds).
Proof.
  intros Hin Hid. cbv zeta.
  set (w1 := (mapTeamToDoorflowGroup clock teamId g w).1).
  assert (Hw1 : members_json w1 = members_json w ∧ calls w1 = calls w).
  { unfold w1, mapTeamToDoorflowGroup.
    destruct (first_team teamId w t0 Hin Hid) as (pre & t & post & Hw & Ht & Hpre).
    by rewrite (updateTeam_first teamId _ w pre t post Hw Ht Hpre). }
  destruct Hw1 as [Hmem Hcalls].
  unfold syncTeamMembersToDoorFlow, bind, loadAllMembers. simpl.
  destruct (syncEach_spec (teamMembers teamId (members_json w1)) 0 [] w1)
    as (_ & _ & _ & _ & _ & Hc & _).
  rewrite Hc, Hcalls, Hmem. eexists. split; [done|]. split.
  - intros c Hc'. apply list_elem_of_fmap in Hc' as (m & -> & Hm).
    apply teamMembers_elem in Hm as (_ & Hteam & _).
    eexists _, _. split; [done|]. by apply (mapped_team_resolves teamId g w t0).
  - intros m pid Hm Hteam Hl Hnz. eexists. split.
    + apply list_elem_of_fmap. exists m. rewrite Hl. simpl. split; [done|].
      apply teamMembers_elem. split; [done|]. split; [done|].
      unfold isLinked, truthy_onumber, truthy_number. rewrite Hl.
      by rewrite bool_decide_eq_false_2.
    + by apply (mapped_team_resolves teamId g w t0).
Qed.

End StoreFacts.
(** ** The engine on the stand-in directory *)

(** The scenario of the specification, run live with [createMissing]:
    Alice is matched to person 1 across the difference in case, her group
    [5] is pushed to that person, and Bob is created with no groups. *)
Example scenario_alice_bob :
  let out := Fake.run true false Fake.world_ab in
  out.2 = RespResults
            {| matched := [{| member := set_doorflowPersonId (Some 1) Fake.alice;
                              personId := 1 |}];
               created := [{| member := set_doorflowPersonId (Some 2) Fake.bob;
                              personId := 2 |}];
               unmatched := []; errors := [] |}
  ∧ calls out.1
    = [ CallListPeople;
        CallUpdatePerson 1 (updateInput [5] None);
        CallCreatePerson (createInput Fake.bob [] None) ]
  ∧ in_groupIds (createInput Fake.bob [] None) = None
  ∧ doorflowPersonId <$> members_json out.1 = [Some 1; Some 2].
Proof. vm_compute. repeat split. Qed.

(** The same members in a dry run: the same classification, Bob under the
    placeholder id [0], and nothing written anywhere. *)
Example scenario_alice_bob_dry :
  let out := Fake.run true true Fake.world_ab in
  out.2 = RespResults
            {| matched := [{| member := set_doorflowPersonId (Some 1) Fake.alice;
                              personId := 1 |}];
               created := [{| member := Fake.bob; personId := 0 |}];
               unmatched := []; errors := [] |}
  ∧ calls out.1 = [CallListPeople]
  ∧ members_json out.1 = members_json Fake.world_ab
  ∧ directory out.1 = directory Fake.world_ab.
Proof. vm_compute. repeat split. Qed.

Lemma Fake_lower_empty s : Fake.lower s = ""%string ↔ s = ""%string.
Proof. destruct s; simpl; split; done. Qed.

#[local] Instance Fake_laws : PeopleApiLaws Fake.Directory.
Proof.
  split.
  - intros r ps p Hl Hin. simpl in Hl. unfold Fake.fake_listPeople in Hl.
    destruct (Fake.offline r); [done|]. injection Hl as <-.
    unfold Fake.listing in Hin.
    apply elem_of_lookup_imap in Hin as (i & e & -> & _). simpl. lia.
  - intros id input r. simpl. unfold Fake.fake_updatePerson.
    by destruct (Fake.updates_fail r).
  - intros input r ps Hl. simpl in *. unfold Fake.fake_listPeople in Hl.
    destruct (Fake.offline r) eqn:Hoff; [done|]. injection Hl as <-.
    unfold Fake.fake_createPerson. case_bool_decide.
    + exists (Fake.listing r). simpl. unfold Fake.fake_listPeople. rewrite Hoff.
      repeat split; [done|]. by intros p [=].
    + exists (Fake.listing r
              ++ [Fake.person_at (length (Fake.emails r)) (in_email input)]).
      simpl. unfold Fake.fake_listPeople. simpl. rewrite Hoff. split.
      { f_equal. unfold Fake.listing. simpl. rewrite imap_app. simpl.
        by rewrite Nat.add_0_r. }
      split; [set_solver|]. intros p [= <-]. set_solver.
Qed.

Lemma C1_bucket_exclusivity_witness :
  ∃ res, (Fake.run true false Fake.world_ab).2 = RespResults res
    ∧ eraseLink <$> bucket_members res
      ≡ₚ eraseLink <$> members_json Fake.world_ab
    ∧ (length (matched res) + length (created res) + length (unmatched res)
         + length (errors res) = length (members_json Fake.world_ab))%nat
    ∧ (NoDup (member_id <$> members_json Fake.world_ab) →
       NoDup ((member_id ∘ member <$> matched res)
                ++ (member_id ∘ member <$> created res)
                ++ (member_id <$> unmatched res)
                ++ (member_id ∘ failed_member <$> errors res))).
Proof.
  exact (C1_bucket_exclusivity Fake.lower Fake.clock true false Fake.world_ab
           (Fake.listing (directory Fake.world_ab)) eq_refl).
Defined.

Lemma C3_stale_link_self_heal_witness :
  let people := Fake.listing (directory Fake.world_stale) in
  let process := processMember Fake.lower Fake.clock people
                   (buildPeopleByEmail Fake.lower people) true false ∅ in
  let w1 := (updateMember Fake.clock "s" None Fake.world_stale).1 in
  let out := process Fake.stale emptyResults Fake.world_stale in
  isLinked Fake.stale = true
  ∧ out.1 = (process (eraseLink Fake.stale) emptyResults w1).1
  ∧ members_json w1 = [updatedRecord None "T0" Fake.stale; Fake.kept]
  ∧ out.2 = {| matched := []; created := []; unmatched := [];
               errors := [{| failed_member := Fake.stale;
                             error := "422 Unprocessable Entity" |}] |}
  ∧ members_json out.1 = [updatedRecord None "T0" Fake.stale; Fake.kept]
  ∧ doorflowPersonId <$> members_json out.1 = [None; Some 1]
  ∧ ∃ res, (Fake.run true false Fake.world_stale).2 = RespResults res
      ∧ ((∃ pid, {| member := set_doorflowPersonId (Some pid) Fake.stale;
                    personId := pid |} ∈ created res)
         ∨ (∃ message, {| failed_member := Fake.stale; error := message |}
                       ∈ errors res)).
Proof.
  cbv zeta.
  assert (Hnone : ∀ p, p ∈ Fake.listing (directory Fake.world_stale) →
                       person_id p ≠ 99).
  { intros p Hp. apply list_elem_of_singleton in Hp. by subst p. }
  destruct (C3_stale_link_self_heal Fake.lower Fake.clock
              (Fake.listing (directory Fake.world_stale))
              (buildPeopleByEmail Fake.lower
                 (Fake.listing (directory Fake.world_stale)))
              true false ∅ Fake.stale emptyResults Fake.world_stale 99
              eq_refl eq_refl Hnone)
    as (_ & Hw & _ & _ & Hst & Hres & Hfin & Hlinks & _ & Hrun).
  split; [reflexivity|]. split; [exact Hw|].
  split; [apply (Hst eq_refl [] [Fake.kept]); [reflexivity|apply not_elem_of_nil]|].
  split; [exact Hres|].
  split; [apply (Hfin eq_refl [] [Fake.kept]); [reflexivity|apply not_elem_of_nil]|].
  split; [apply (Hlinks eq_refl [] [Fake.kept]); [reflexivity|apply not_elem_of_nil]|].
  apply (Hrun Fake.world_stale eq_refl). left.
Defined.

Lemma C4_email_matching_witness :
  let older := {| person_id := 1; person_email := Some "ALICE@example.com"%string |} in
  let newer := {| person_id := 2; person_email := Some "alice@EXAMPLE.com"%string |} in
  (∀ s, Fake.lower s = ""%string ↔ s = ""%string)
  ∧ matchByEmail Fake.lower Fake.alice
      (buildPeopleByEmail Fake.lower [older; newer]) = Some newer.
Proof.
  cbv zeta. split; [exact Fake_lower_empty|].
  apply (proj1 (@C4_email_matching Fake.lower Fake.clock Fake.Directory Fake.api
                  Fake_lower_empty)).
  exists [{| person_id := 1; person_email := Some "ALICE@example.com"%string |}],
    [], "alice@EXAMPLE.com"%string.
  split; [reflexivity|]. split; [reflexivity|]. split; [discriminate|].
  split; [reflexivity|]. intros q e' Hq. by apply elem_of_nil in Hq.
Defined.

Lemma C5_isolated_failure_witness :
  let out := Fake.run true false Fake.world_123 in
  ∃ res, out.2 = RespResults res
    ∧ member_id ∘ member <$> created res = ["m1"; "m3"]%string
    ∧ member_id ∘ failed_member <$> errors res = ["m2"]%string
    ∧ errors res = [{| failed_member := Fake.m2;
                       error := "422 Unprocessable Entity" |}]
    ∧ matched res = [] ∧ unmatched res = []
    ∧ doorflowPersonId <$> members_json out.1 = [Some 1; None; Some 2].
Proof.
  cbv zeta.
  pose (d0 := Fake.mkDirectory [] ["m2"%string]).
  pose (r1 := Fake.add_email (Some "one@x.com"%string) d0).
  pose (r3 := Fake.add_email (Some "three@x.com"%string) r1).
  destruct (proj2 (proj2 (C5_isolated_failure Fake.lower Fake.clock))
              Fake.world_123 [] Fake.m1 Fake.m2 Fake.m3 r1 r1 r3
              (Fake.person_at 0 (Some "one@x.com"%string))
              (Fake.person_at 1 (Some "three@x.com"%string))
              (ThrownError "422 Unprocessable Entity"))
    as (Hres & Hst & _).
  - reflexivity.
  - apply (bool_decide_unpack _). vm_compute. exact I.
  - reflexivity.
  - reflexivity.
  - reflexivity.
  - reflexivity.
  - intros m Hm. unfold matchByEmail.
    destruct (truthy_string (email m)); reflexivity.
  - reflexivity.
  - reflexivity.
  - reflexivity.
  - eexists. split; [exact Hres|]. split; [reflexivity|]. split; [reflexivity|].
    split; [reflexivity|]. split; [reflexivity|]. split; [reflexivity|].
    unfold Fake.run. rewrite Hst. reflexivity.
Defined.

Lemma C6_match_update_best_effort_witness :
  let people := Fake.listing (directory Fake.world_ab) in
  let teamToGroupMap := buildTeamToGroupMap (teams_json Fake.world_ab) in
  let out := tryMatchMember Fake.lower Fake.clock Fake.alice
               (buildPeopleByEmail Fake.lower people) emptyResults true false
               teamToGroupMap (Some "aGk="%string) Fake.world_ab in
  matchByEmail Fake.lower Fake.alice (buildPeopleByEmail Fake.lower people)
  = Some (Fake.person_at 0 (Some "alice@example.com"%string))
  ∧ matched out.2
    = [{| member := Fake.mkMember "a" "Alice" "Smith" "Alice@Example.com" ["t1"]
                      (Some 1);
          personId := 1 |}]
  ∧ created out.2 = [] ∧ unmatched out.2 = [] ∧ errors out.2 = []
  ∧ calls out.1
    = [CallUpdatePerson 1
         {| in_firstName := None; in_lastName := None; in_email := None;
            in_telephone := None; in_department := None; in_jobTitle := None;
            in_notes := None; in_organisationId := None; in_custom1 := None;
            in_enabled := None; in_systemId := None;
            in_groupIds := Some [5]; in_imageBase64 := Some "aGk="%string |}]
  ∧ members_json out.1 = [updatedRecord (Some 1) "T0" Fake.alice; Fake.bob].
Proof.
  cbv zeta.
  assert (Hm : matchByEmail Fake.lower Fake.alice
                 (buildPeopleByEmail Fake.lower
                    (Fake.listing (directory Fake.world_ab)))
               = Some (Fake.person_at 0 (Some "alice@example.com"%string)))
    by (vm_compute; reflexivity).
  split; [exact Hm|].
  destruct (C6_match_update_best_effort Fake.lower Fake.clock Fake.alice _
              emptyResults true
              (buildTeamToGroupMap (teams_json Fake.world_ab))
              (Some "aGk="%string) Fake.world_ab _ Hm)
    as (_ & Hmatched & _ & Hc & Hu & Herr & _ & Hat & _ & _ & _ & _ & Hcall).
  split; [exact Hmatched|]. split; [exact Hc|]. split; [exact Hu|].
  split; [exact Herr|]. split.
  - destruct Hcall as (Hcalls & _); [right; reflexivity|]. exact Hcalls.
  - apply (Hat [] [Fake.bob]); [reflexivity|apply not_elem_of_nil].
Defined.

Lemma C8_second_run_witness :
  let run1 := Fake.run true false Fake.world_ab in
  let run2 := Fake.run true false run1.1 in
  ∃ res1 res2, run1.2 = RespResults res1 ∧ run2.2 = RespResults res2
    ∧ (∀ e, e ∈ matched res1 →
            ∃ e', e' ∈ matched res2 ∧ entry_key e' = entry_key e)
    ∧ (false = false → ∀ e, e ∈ created res1 →
            ∃ e', e' ∈ matched res2 ∧ entry_key e' = entry_key e)
    ∧ (true = false ∨ false = true →
       entry_key <$> matched res2 = entry_key <$> matched res1)
    ∧ (∀ e input,
         e ∈ matched res1 ∨ (false = false ∧ e ∈ created res1) →
         CallCreatePerson input ∈ drop (length (calls run1.1)) (calls run2.1) →
         in_systemId input ≠ Some (member_id (member e))).
Proof.
  assert (Hnd : NoDup (member_id <$> members_json Fake.world_ab)).
  { apply (bool_decide_unpack _). vm_compute. exact I. }
  exact (C8_second_run Fake.lower Fake.clock true false Fake.world_ab
           (Fake.listing (directory Fake.world_ab)) Hnd eq_refl).
Defined.

Lemma C9_linked_member_reaffirmed_witness :
  let people := Fake.listing (directory Fake.world_stale) in
  let out := processMember Fake.lower Fake.clock people
               (buildPeopleByEmail Fake.lower people) true false ∅
               Fake.kept emptyResults Fake.world_stale in
  isLinked Fake.kept = true
  ∧ out.1 = Fake.world_stale
  ∧ out.2 = {| matched := [{| member := Fake.kept; personId := 1 |}];
               created := []; unmatched := []; errors := [] |}
  ∧ calls out.1 = []
  ∧ ∃ res, (Fake.run true false Fake.world_stale).2 = RespResults res
      ∧ {| member := Fake.kept; personId := 1 |} ∈ matched res.
Proof.
  cbv zeta.
  destruct (C9_linked_member_reaffirmed Fake.lower Fake.clock
              (Fake.listing (directory Fake.world_stale))
              (buildPeopleByEmail Fake.lower
                 (Fake.listing (directory Fake.world_stale)))
              true false ∅ Fake.kept emptyResults Fake.world_stale 1
              (Fake.person_at 0 (Some "kim@x.com"%string))
              eq_refl eq_refl (list_elem_of_here _ _) eq_refl)
    as (Hw & _ & Hm & Hc & Hu & He & _ & _ & Hcalls & Hrun).
  split; [reflexivity|]. split; [exact Hw|]. split.
  - destruct (processMember _ _ _ _ _ _ _ _ _ _).2 as [a b c d].
    simpl in Hm, Hc, Hu, He. by rewrite Hm, Hc, Hu, He.
  - split; [exact Hcalls|].
    apply (Hrun true false Fake.world_stale eq_refl). right; left.
Defined.

Lemma C10_failed_creation_store_witness :
  let out := Fake.run true false Fake.world_stale in
  ∃ res, out.2 = RespResults res
    ∧ ∀ e, e ∈ errors res →
        failed_member e ∈ members_json Fake.world_stale
        ∧ ∃ m', m' ∈ members_json out.1
            ∧ member_id m' = member_id (failed_member e)
            ∧ (∀ s, s ∈ members_json out.1 →
                    member_id s = member_id (failed_member e) → s = m')
            ∧ ((isLinked (failed_member e) = false ∧ m' = failed_member e)
               ∨ (isLinked (failed_member e) = true
                  ∧ ∃ t, m' = updatedRecord None t (failed_member e))).
Proof.
  assert (Hnd : NoDup (member_id <$> members_json Fake.world_stale)).
  { apply (bool_decide_unpack _). vm_compute. exact I. }
  exact (C10_failed_creation_store Fake.lower Fake.clock Fake.world_stale
           (Fake.listing (directory Fake.world_stale)) Hnd eq_refl).
Defined.

(** ** Where the specification says more than the engine does *)

(** Against C8 as stated: in the scenario of the specification, run live
    with [createMissing = true], the first run matches Alice and creates
    Bob, and the second run, on the store and the directory the first one
    left, matches both: the two matched sets differ. *)
Lemma C8_matched_set_grows :
  let run1 := Fake.run true false Fake.world_ab in
  let run2 := Fake.run true false run1.1 in
  ∃ res1 res2, run1.2 = RespResults res1 ∧ run2.2 = RespResults res2
    ∧ entry_key <$> matched res1 = [("a"%string, 1)]
    ∧ entry_key <$> created res1 = [("b"%string, 2)]
    ∧ entry_key <$> matched res2 = [("a"%string, 1); ("b"%string, 2)]
    ∧ entry_key <$> matched res1 ≠ entry_key <$> matched res2.
Proof.
  cbv zeta. eexists _, _.
  split; [vm_compute; reflexivity|]. split; [vm_compute; reflexivity|].
  split; [reflexivity|]. split; [reflexivity|]. split; [reflexivity|].
  discriminate.
Qed.

(** Against C10 as stated: a member with a stale link whose creation fails
    is reported in [errors] as it was loaded, but its stored record has
    been changed by the run: the stale link has been cleared. *)
Lemma C10_stale_member_is_unlinked :
  let out := Fake.run true false Fake.world_stale in
  ∃ res e, out.2 = RespResults res
    ∧ errors res = [e]
    ∧ failed_member e = Fake.stale
    ∧ Fake.stale ∈ members_json Fake.world_stale
    ∧ members_json out.1 = [updatedRecord None "T0" Fake.stale; Fake.kept]
    ∧ Fake.stale ∉ members_json out.1.
Proof.
  cbv zeta. eexists _, _.
  split; [vm_compute; reflexivity|].
  split; [reflexivity|]. split; [reflexivity|].
  split; [by left|]. split; [reflexivity|].
  intros Hin. vm_compute in Hin.
  apply elem_of_cons in Hin as [Heq|Hin]; [discriminate|].
  apply list_elem_of_singleton in Hin. discriminate.
Qed.

(** ** The stores and the team push on the stand-in directory *)

Lemma POST_listing_failure_witness :
  let w304 := Fake.mkWorld [Fake.alice] []
                {| Fake.emails := []; Fake.rejected := []; Fake.updates_fail := false;
                   Fake.offline := Some (ThrownResponseError 304 None "Not Modified") |} in
  listPeople (directory Fake.world_offline) = inl Fake.unauthorized
  ∧ (Fake.run true false Fake.world_offline).2 = RespNotAuthenticated
  ∧ calls (Fake.run true false Fake.world_offline).1 = [CallListPeople]
  ∧ members_json (Fake.run true false Fake.world_offline).1 = [Fake.alice; Fake.bob]
  ∧ listPeople (directory w304) = inl (ThrownResponseError 304 None "Not Modified")
  ∧ (Fake.run true false w304).2 = RespRejected.
Proof.
  cbv zeta. split; [reflexivity|].
  destruct (@POST_listing_failure Fake.lower Fake.clock Fake.Directory Fake.api
              true false Fake.world_offline Fake.unauthorized eq_refl)
    as (_ & Hr & _ & _ & Hm & _ & _ & _ & _ & Hc & _).
  split; [exact (proj1 (Hr 401 None "Unauthorized"%string eq_refl) eq_refl)|].
  split; [exact Hc|]. split; [exact Hm|]. split; [reflexivity|].
  destruct (@POST_listing_failure Fake.lower Fake.clock Fake.Directory Fake.api
              true false
              (Fake.mkWorld [Fake.alice] []
                 {| Fake.emails := []; Fake.rejected := []; Fake.updates_fail := false;
                    Fake.offline := Some (ThrownResponseError 304 None "Not Modified") |})
              (ThrownResponseError 304 None "Not Modified") eq_refl)
    as (_ & Hr' & _).
  apply (proj2 (proj2 (Hr' 304 None "Not Modified"%string eq_refl))).
  right; right. right; right; left.
Defined.

Lemma POST_unmatched_bucket_witness :
  listPeople (directory Fake.world_ab)
  = inr [{| person_id := 1; person_email := Some "alice@example.com"%string |}]
  ∧ ∃ res, (Fake.run false false Fake.world_ab).2 = RespResults res
      ∧ unmatched res = [Fake.bob] ∧ created res = [] ∧ errors res = [].
Proof.
  split; [reflexivity|].
  destruct (@POST_unmatched_bucket Fake.lower Fake.clock Fake.Directory Fake.api
              false false Fake.world_ab _ eq_refl) as (res & Hr & Hu & Hce).
  exists res. split; [exact Hr|]. split; [exact Hu|]. exact (Hce eq_refl).
Defined.

Lemma POST_dry_run_previews_live_run_witness :
  listPeople (directory Fake.world_123) = inr []
  ∧ ∃ dry live,
      (Fake.run true true Fake.world_123).2 = RespResults dry
      ∧ (Fake.run true false Fake.world_123).2 = RespResults live
      ∧ unmatched dry = unmatched live
      ∧ member <$> created dry = [Fake.m1; Fake.m2; Fake.m3]
      ∧ member_id ∘ member <$> created dry
        ≡ₚ (member_id ∘ member <$> created live)
             ++ (member_id ∘ failed_member <$> errors live).
Proof.
  split; [reflexivity|].
  destruct (@POST_dry_run_previews_live_run Fake.lower Fake.clock Fake.Directory
              Fake.api true Fake.world_123 _ eq_refl)
    as (dry & live & Hd & Hl & _ & Hu & _ & Hc & Hp).
  exists dry, live. split; [exact Hd|]. split; [exact Hl|]. split; [exact Hu|].
  split; [|exact Hp]. rewrite Hc. reflexivity.
Defined.

Lemma POST_call_budget_witness :
  let out := Fake.run true false Fake.world_ab in
  listPeople (directory Fake.world_ab)
  = inr [{| person_id := 1; person_email := Some "alice@example.com"%string |}]
  ∧ (ticks out.1 ≤ 4)%nat
  ∧ ∃ cs, calls out.1 = CallListPeople :: cs ∧ (length cs ≤ 2)%nat
      ∧ Forall (λ c, c ≠ CallListPeople) cs.
Proof.
  cbv zeta. split; [reflexivity|].
  destruct (@POST_call_budget Fake.lower Fake.clock Fake.Directory Fake.api
              true false Fake.world_ab _ eq_refl)
    as ([_ Ht] & cs & Hc & Hlen & Hno & _).
  split; [exact Ht|]. exists cs. split; [exact Hc|]. split; [exact Hlen|exact Hno].
Defined.

Lemma POST_matched_entries_sound_witness :
  ∃ res e,
    (Fake.run false true Fake.world_ab).2 = RespResults res
    ∧ e ∈ matched res
    ∧ ∃ m p, m ∈ members_json Fake.world_ab
        ∧ p ∈ Fake.listing (directory Fake.world_ab)
        ∧ eraseLink (member e) = eraseLink m
        ∧ doorflowPersonId (member e) = Some (personId e)
        ∧ person_id p = personId e.
Proof.
  eexists _, _. split; [vm_compute; reflexivity|]. split; [left|].
  destruct (@POST_matched_entries_sound Fake.lower Fake.clock Fake.Directory
              Fake.api false true Fake.world_ab _ _ _ eq_refl eq_refl
              (list_elem_of_here _ _))
    as (m & p & Hm & Hp & He & Hl & Hid & _).
  exists m, p. split; [exact Hm|]. split; [exact Hp|]. split; [exact He|].
  split; [exact Hl|exact Hid].
Defined.

Lemma updateMember_unknown_id_witness :
  (∀ m, m ∈ members_json Fake.world_ab → member_id m ≠ "z"%string)
  ∧ (updateMember Fake.clock "z" (Some 7) Fake.world_ab).1 = Fake.world_ab
  ∧ ∃ u, (updateMember Fake.clock "b" (Some 7) Fake.world_ab).2 = Some u
      ∧ doorflowPersonId u = Some 7 ∧ updatedAt u = Fake.clock 0
      ∧ u ∈ members_json (updateMember Fake.clock "b" (Some 7) Fake.world_ab).1.
Proof.
  assert (Hz : ∀ m, m ∈ members_json Fake.world_ab → member_id m ≠ "z"%string).
  { intros m [->|[->|[]%elem_of_nil]%elem_of_cons]%elem_of_cons; discriminate. }
  split; [exact Hz|].
  destruct (@updateMember_unknown_id Fake.clock Fake.Directory "z" (Some 7)
              Fake.world_ab) as (Hnone & Hsame & _).
  split; [exact (Hsame (proj2 Hnone Hz))|].
  destruct (@updateMember_unknown_id Fake.clock Fake.Directory "b" (Some 7)
              Fake.world_ab) as (_ & _ & Hsome).
  eexists. split; [vm_compute; reflexivity|].
  destruct (Hsome _ eq_refl) as (_ & Hv & Ht & Hin).
  split; [exact Hv|]. split; [exact Ht|exact Hin].
Defined.

Lemma link_then_read_witness :
  let w' := (linkMemberToDoorflow Fake.clock "b" 7 Fake.world_ab).1 in
  Fake.bob ∈ members_json Fake.world_ab
  ∧ member_id Fake.bob = "b"%string
  ∧ ∃ old, (getMember "b" Fake.world_ab).2 = Some old
      ∧ (getMember "b" w').2 = Some (updatedRecord (Some 7) (Fake.clock 0) old)
      ∧ (∃ found, (getMemberByDoorflowId 7 w').2 = Some found
                  ∧ doorflowPersonId found = Some 7)
      ∧ (getMember "a" w').2 = (getMember "a" Fake.world_ab).2.
Proof.
  cbv zeta.
  assert (Hin : Fake.bob ∈ members_json Fake.world_ab) by (right; left).
  split; [exact Hin|]. split; [reflexivity|].
  destruct (@link_then_read Fake.clock Fake.Directory "b" 7 Fake.world_ab
              Fake.bob Hin eq_refl) as (old & Ho & _ & Hg & Hf & Hother & _).
  exists old. split; [exact Ho|]. split; [exact Hg|]. split; [exact Hf|].
  apply Hother. discriminate.
Defined.

Lemma deleteMember_removes_first_witness :
  (deleteMember "a" Fake.world_ab).2 = true
  ∧ NoDup (member_id <$> members_json Fake.world_ab)
  ∧ (getMember "a" (deleteMember "a" Fake.world_ab).1).2 = None
  ∧ (getMember "b" (deleteMember "a" Fake.world_ab).1).2
    = (getMember "b" Fake.world_ab).2.
Proof.
  assert (Hnd : NoDup (member_id <$> members_json Fake.world_ab)).
  { apply (bool_decide_unpack _). vm_compute. exact I. }
  split; [reflexivity|]. split; [exact Hnd|].
  destruct (@deleteMember_removes_first Fake.Directory "a" Fake.world_ab)
    as (_ & _ & Htrue).
  destruct (Htrue eq_refl) as (pre & m & post & _ & _ & _ & _ & Hother & Hgone).
  split; [exact (Hgone Hnd)|]. apply Hother. discriminate.
Defined.

Lemma updateTeam_rewrites_first_witness :
  let updates := {| upd_name := Some "Front desk"%string; upd_description := None;
                    upd_doorflowGroupId := None |} in
  let out := updateTeam Fake.clock "t2" updates Fake.world_teams in
  ∃ u, out.2 = Some u
    ∧ name u = "Front desk"%string
    ∧ doorflowGroupId u = None
    ∧ team_createdAt u = "T"%string
    ∧ (getTeam "t2" out.1).2 = Some u.
Proof.
  cbv zeta.
  destruct (@updateTeam_rewrites_first Fake.clock Fake.Directory "t2"
              {| upd_name := Some "Front desk"%string; upd_description := None;
                 upd_doorflowGroupId := None |} Fake.world_teams)
    as (_ & _ & _ & _ & Hsome).
  eexists. split; [vm_compute; reflexivity|].
  destruct (Hsome _ eq_refl) as (old & Ho & -> & _ & _ & _ & _ & _ & Hg).
  injection Ho as <-.
  split; [reflexivity|]. split; [reflexivity|]. split; [reflexivity|]. exact Hg.
Defined.

Lemma mapping_a_team_updates_the_resolution_witness :
  let mapped := teams_json (mapTeamToDoorflowGroup Fake.clock "t2" 9 Fake.world_teams).1 in
  NoDup (team_id <$> teams_json Fake.world_teams)
  ∧ Fake.team2 ∈ teams_json Fake.world_teams
  ∧ team_id Fake.team2 = "t2"%string
  ∧ buildTeamToGroupMap mapped
    = <["t2"%string := 9]> (buildTeamToGroupMap (teams_json Fake.world_teams))
  ∧ 9 ∈ getGroupIdsForMember Fake.carol (buildTeamToGroupMap mapped)
  ∧ 9 ∈ getDoorflowGroupIdsForTeams (teamIds Fake.dave) mapped.
Proof.
  cbv zeta.
  assert (Hnd : NoDup (team_id <$> teams_json Fake.world_teams)).
  { apply (bool_decide_unpack _). vm_compute. exact I. }
  assert (Hin : Fake.team2 ∈ teams_json Fake.world_teams) by (right; left).
  split; [exact Hnd|]. split; [exact Hin|]. split; [reflexivity|].
  destruct (@mapping_a_team_updates_the_resolution Fake.clock Fake.Directory
              "t2" 9 Fake.world_teams Fake.team2 Hnd Hin eq_refl)
    as (Hmap & _ & Hres & _).
  split; [exact Hmap|]. split.
  - apply (Hres Fake.carol). right; left.
  - apply (Hres Fake.dave). left.
Defined.

Lemma deleteTeam_removes_first_witness :
  let out := deleteTeam "t1" Fake.world_teams in
  out.2 = true
  ∧ NoDup (team_id <$> teams_json Fake.world_teams)
  ∧ (getTeam "t1" out.1).2 = None
  ∧ buildTeamToGroupMap (teams_json out.1)
    = delete "t1"%string (buildTeamToGroupMap (teams_json Fake.world_teams))
  ∧ members_json out.1 = members_json Fake.world_teams.
Proof.
  cbv zeta.
  assert (Hnd : NoDup (team_id <$> teams_json Fake.world_teams)).
  { apply (bool_decide_unpack _). vm_compute. exact I. }
  split; [reflexivity|]. split; [exact Hnd|].
  destruct (@deleteTeam_removes_first Fake.Directory "t1" Fake.world_teams)
    as (_ & _ & Hm & Htrue).
  destruct (Htrue eq_refl) as (pre & t & post & _ & _ & _ & _ & Hone).
  destruct (Hone Hnd) as (Hmap & Hget & _).
  split; [exact Hget|]. split; [exact Hmap|exact Hm].
Defined.

Lemma resolutions_agree_witness :
  NoDup (team_id <$> [Fake.team1; Fake.team2])
  ∧ (5 ∈ getGroupIdsForMember Fake.carol (buildTeamToGroupMap [Fake.team1; Fake.team2])
     ↔ 5 ∈ getDoorflowGroupIdsForTeams (teamIds Fake.carol) [Fake.team1; Fake.team2])
  ∧ 5 ∈ getDoorflowGroupIdsForTeams (teamIds Fake.carol) [Fake.team1; Fake.team2].
Proof.
  assert (Hnd : NoDup (team_id <$> [Fake.team1; Fake.team2])).
  { apply (bool_decide_unpack _). vm_compute. exact I. }
  split; [exact Hnd|]. split.
  - exact (resolutions_agree Fake.carol [Fake.team1; Fake.team2] 5 Hnd).
  - left.
Defined.

Lemma map_then_push_witness :
  let w1 := (mapTeamToDoorflowGroup Fake.clock "t2" 9 Fake.world_teams).1 in
  let out := syncTeamMembersToDoorFlow "t2" w1 in
  Fake.team2 ∈ teams_json Fake.world_teams
  ∧ team_id Fake.team2 = "t2"%string
  ∧ ∃ cs groupIds, calls out.1 = cs
      ∧ CallUpdatePerson 2 (groupsInput groupIds) ∈ cs ∧ 9 ∈ groupIds.
Proof.
  cbv zeta.
  assert (Hin : Fake.team2 ∈ teams_json Fake.world_teams) by (right; left).
  split; [exact Hin|]. split; [reflexivity|].
  destruct (@map_then_push Fake.clock Fake.Directory Fake.api "t2" 9
              Fake.world_teams Fake.team2 Hin eq_refl) as (cs & Hc & _ & Hall).
  destruct (Hall Fake.dave 2) as (groupIds & Hcall & Hg);
    [right; left|left|reflexivity|discriminate|].
  exists cs, groupIds. split; [exact Hc|]. split; [exact Hcall|exact Hg].
Defined.

Lemma createMember_appends_witness :
  let input := {| new_firstName := "Finn"; new_lastName := "Gray";
                  new_email := "B@X.com"; new_phone := None;
                  new_department := None; new_jobTitle := None; new_notes := None;
                  new_organisationId := None; new_membershipType := standard;
                  new_teamIds := []; new_doorflowPersonId := None |} in
  let out := createMember Fake.clock "f" input Fake.world_ab in
  "f"%string ∉ member_id <$> members_json Fake.world_ab
  ∧ NoDup (member_id <$> members_json Fake.world_ab)
  ∧ (getMember "f" out.1).2 = Some out.2
  ∧ NoDup (member_id <$> members_json out.1)
  ∧ (getMemberByEmail Fake.lower "B@X.com" out.1).2 = Some Fake.bob.
Proof.
  cbv zeta.
  assert (Hnew : "f"%string ∉ member_id <$> members_json Fake.world_ab).
  { apply (bool_decide_unpack _). vm_compute. exact I. }
  assert (Hnd : NoDup (member_id <$> members_json Fake.world_ab)).
  { apply (bool_decide_unpack _). vm_compute. exact I. }
  split; [exact Hnew|]. split; [exact Hnd|].
  destruct (@createMember_appends Fake.lower Fake.clock Fake.Directory "f"
              {| new_firstName := "Finn"; new_lastName := "Gray";
                 new_email := "B@X.com"; new_phone := None;
                 new_department := None; new_jobTitle := None; new_notes := None;
                 new_organisationId := None; new_membershipType := standard;
                 new_teamIds := []; new_doorflowPersonId := None |} Fake.world_ab)
    as (Hout & _ & _ & Hfresh & _ & Hmail).
  destruct (Hfresh Hnew) as (Hget & Hnd').
  split; [rewrite Hout; exact Hget|]. split; [exact (Hnd' Hnd)|].
  etrans; [exact Hmail|reflexivity].
Defined.

Lemma linked_and_unlinked_split_the_store_witness :
  (getLinkedMembers Fake.world_teams).2 = [Fake.carol; Fake.dave]
  ∧ (getUnlinkedMembers Fake.world_teams).2 = [Fake.erin]
  ∧ (getLinkedMembers Fake.world_teams).2 ++ (getUnlinkedMembers Fake.world_teams).2
    ≡ₚ members_json Fake.world_teams
  ∧ isLinked Fake.carol = true.
Proof.
  split; [reflexivity|]. split; [reflexivity|].
  destruct (@linked_and_unlinked_split_the_store Fake.Directory Fake.world_teams)
    as (Hp & _ & _ & Hl & _).
  split; [exact Hp|]. apply Hl; [left|discriminate].
Defined.

Lemma syncTeamMembersToDoorFlow_pushes_each_witness :
  let w := Fake.mkWorld [Fake.carol; Fake.dave; Fake.erin] [Fake.team1; Fake.team2]
             {| Fake.emails := []; Fake.rejected := []; Fake.updates_fail := true;
                Fake.offline := None |} in
  let out := syncTeamMembersToDoorFlow "t2" w in
  teamMembers "t2" (members_json w) = [Fake.carol; Fake.dave]
  ∧ calls out.1 = [CallUpdatePerson 1 (groupsInput [5]);
                   CallUpdatePerson 2 (groupsInput [])]
  ∧ length out.2.1 = 2%nat
  ∧ out.2.2 = 0%nat.
Proof.
  cbv zeta. split; [reflexivity|].
  destruct (@syncTeamMembersToDoorFlow_pushes_each Fake.Directory Fake.api "t2"
              (Fake.mkWorld [Fake.carol; Fake.dave; Fake.erin]
                 [Fake.team1; Fake.team2]
                 {| Fake.emails := []; Fake.rejected := []; Fake.updates_fail := true;
                    Fake.offline := None |}))
    as (_ & Hc & Hlen & Hn & _).
  split; [exact Hc|]. split; [exact Hlen|]. rewrite Hn. reflexivity.
Defined.

Lemma createTeam_appends_witness :
  let input := {| new_name := "Lab"; new_description := None;
                  new_doorflowGroupId := Some 9 |} in
  let out := createTeam Fake.clock "t3" input Fake.world_teams in
  "t3"%string ∉ team_id <$> teams_json Fake.world_teams
  ∧ (getTeam "t3" out.1).2 = Some out.2
  ∧ buildTeamToGroupMap (teams_json out.1)
    = <["t3"%string := 9]> (buildTeamToGroupMap (teams_json Fake.world_teams))
  ∧ (getTeam "t1" out.1).2 = Some Fake.team1.
Proof.
  cbv zeta.
  assert (Hnew : "t3"%string ∉ team_id <$> teams_json Fake.world_teams).
  { apply (bool_decide_unpack _). vm_compute. exact I. }
  split; [exact Hnew|].
  destruct (@createTeam_appends Fake.clock Fake.Directory "t3"
              {| new_name := "Lab"; new_description := None;
                 new_doorflowGroupId := Some 9 |} Fake.world_teams)
    as (Hout & _ & _ & _ & Hmap & Hfresh & Hold).
  destruct (Hfresh Hnew) as (Hget & _).
  split; [rewrite Hout; exact Hget|]. split; [exact Hmap|].
  apply Hold. reflexivity.
Defined.

Lemma mapped_teams_are_what_resolves_witness :
  (getMappedTeams Fake.world_teams).2 = [Fake.team1]
  ∧ (getUnmappedTeams Fake.world_teams).2 = [Fake.team2]
  ∧ is_Some (buildTeamToGroupMap (teams_json Fake.world_teams) !! "t1"%string)
  ∧ ¬ is_Some (buildTeamToGroupMap (teams_json Fake.world_teams) !! "t2"%string).
Proof.
  split; [reflexivity|]. split; [reflexivity|].
  destruct (@mapped_teams_are_what_resolves Fake.Directory Fake.world_teams)
    as (_ & _ & Hkeys & _).
  split.
  - apply Hkeys. exists Fake.team1. split; [left|reflexivity].
  - intros (t & Ht & Hid)%Hkeys.
    apply list_elem_of_singleton in Ht. subst t. discriminate.
Defined.
